(** * chartit.validation: cleaning of DataPool / Chart user input

    A shallow embedding of [chartit/validation.py].  Python values are an
    inductive type; dictionaries are mutable objects and live in a heap
    (the module deletes keys from dictionaries the caller passed in, and the
    dictionaries it returns share values with its input); exceptions are a
    sum type; every function is written in the order of the Python text. *)

From Stdlib Require Import ZArith String Ascii List Bool Lia.
From stdpp Require Import base list strings gmap.

Local Open Scope string_scope.
Local Open Scope list_scope.
Set Warnings "-register-all".

(** ** Python values *)

(** Address of a dictionary object in the heap. *)
Definition addr := nat.

(** [query.annotations] and [query.extra] of a queryset: only their keys
    are read. *)
Record Query := mkQuery {
  annotations : list string;
  extra : list string
}.

(** A [QuerySet] of model instances: [qs_rows] are the instances that
    evaluating it yields, each an object known by its identity (the truth
    value of the queryset is whether there is one, and iterating over it
    visits them); [qs_model] names the model class in the schema. *)
Record QuerySet := mkQuerySet {
  qs_id : nat;
  qs_model : string;
  qs_query : Query;
  qs_rows : list nat
}.

(** Lists and tuples are carried by value: no list is mutated by the module
    after it has been received.  Dictionaries are references. *)
Inductive value : Type :=
| VNone
| VBool (b : bool)
| VInt (n : Z)
| VStr (s : string)
| VTuple (vs : list value)
| VList (vs : list value)
| VDict (a : addr)
| VQuerySet (q : QuerySet)
| VAggregate (id : nat)     (* an instance of django Aggregate *)
| VFunc (id : nat)          (* a function: callable, truthy *)
| VObject (id : nat).       (* any other object: truthy, not callable *)

(** A dictionary: insertion-ordered association list. *)
Abbreviation dict := (list (value * value)).

(** The heap of dictionary objects, indexed by address. *)
Abbreviation heap := (list dict).

(** ** Exceptions *)

(** A message is the format string with its arguments left unrendered:
    [FmtS v] is [str(v)] (conversion [%s]), [FmtR v] is [repr(v)] ([%r]),
    [FmtType v] is [str(type(v))]. *)
Inductive frag :=
| Lit (s : string)
| FmtS (v : value)
| FmtR (v : value)
| FmtType (v : value).

Definition message := list frag.

Inductive exn :=
| APIInputError (msg : message)
| KeyError (k : value)
| AttributeError (attr : string)
| TypeError (msg : string)
| ValueError (msg : string)
| IndexError (msg : string)
| FieldDoesNotExist (name : string)
| RecursionError.

Inductive result (A : Type) :=
| Ok (a : A)
| Raise (e : exn).
Arguments Ok {A} a.
Arguments Raise {A} e.

Definition bindR {A B} (r : result A) (k : A -> result B) : result B :=
  match r with
  | Ok a => k a
  | Raise e => Raise e
  end.

(** Computations that read and write the heap and may raise. *)
Definition M (A : Type) := heap -> result A * heap.

Definition ret {A} (a : A) : M A := fun h => (Ok a, h).
Definition raise {A} (e : exn) : M A := fun h => (Raise e, h).
Definition bind {A B} (m : M A) (k : A -> M B) : M B :=
  fun h => match m h with
           | (Ok a, h') => k a h'
           | (Raise e, h') => (Raise e, h')
           end.
Definition lift {A} (r : result A) : M A := fun h => (r, h).
(** Run a computation that only reads the heap. *)
Definition reading {A} (f : heap -> result A) : M A := fun h => (f h, h).

Declare Scope res_scope.
Delimit Scope res_scope with R.
Declare Scope heap_scope.
Delimit Scope heap_scope with M.

Notation "x <- e ;; k" := (bindR e (fun x => k))
  (at level 100, e at next level, right associativity) : res_scope.
Notation "e ;;; k" := (bindR e (fun _ => k))
  (at level 100, right associativity) : res_scope.

Notation "x <- e ;; k" := (bind e (fun x => k))
  (at level 100, e at next level, right associativity) : heap_scope.
Notation "e ;;; k" := (bind e (fun _ => k))
  (at level 100, right associativity) : heap_scope.

(** [for x in l: acc = body(acc, x)], stopping at the first exception. *)
Fixpoint for_each {A S} (l : list A) (body : S -> A -> M S) (s : S) : M S :=
  match l with
  | [] => ret s
  | x :: l' => (s' <- body s x ;; for_each l' body s')%M
  end.

Fixpoint for_eachR {A S} (l : list A) (body : S -> A -> result S) (s : S)
  : result S :=
  match l with
  | [] => Ok s
  | x :: l' => (s' <- body s x ;; for_eachR l' body s')%R
  end.

(** ** Primitive operations of the language *)

Definition isinstance_str (v : value) : bool :=
  match v with VStr _ => true | _ => false end.
Definition isinstance_dict (v : value) : bool :=
  match v with VDict _ => true | _ => false end.
Definition isinstance_list (v : value) : bool :=
  match v with VList _ => true | _ => false end.
Definition isinstance_tuple (v : value) : bool :=
  match v with VTuple _ => true | _ => false end.
(** [bool] is a subclass of [int]. *)
Definition isinstance_int (v : value) : bool :=
  match v with VInt _ | VBool _ => true | _ => false end.
Definition isinstance_QuerySet (v : value) : bool :=
  match v with VQuerySet _ => true | _ => false end.
Definition isinstance_Aggregate (v : value) : bool :=
  match v with VAggregate _ => true | _ => false end.
Definition callable (v : value) : bool :=
  match v with VFunc _ => true | _ => false end.

(** The contents of the dictionary at [a]; a dangling address reads as an
    empty dictionary, and a write to it is lost. *)
Definition cell (h : heap) (a : addr) : dict := default [] (h !! a).

(** [bool(v)]. *)
Definition truthy (h : heap) (v : value) : bool :=
  match v with
  | VNone => false
  | VBool b => b
  | VInt n => negb (Z.eqb n 0)
  | VStr s => negb (String.eqb s "")
  | VTuple vs | VList vs => match vs with [] => false | _ => true end
  | VDict a => match cell h a with [] => false | _ => true end
  | VQuerySet q => match qs_rows q with [] => false | _ => true end
  | VAggregate _ | VFunc _ | VObject _ => true
  end.

Fixpoint hashable (v : value) : bool :=
  match v with
  | VList _ | VDict _ => false
  | VTuple vs => forallb hashable vs
  | _ => true
  end.

(** [k1 == k2] on hashable values: [True == 1] and [False == 0]; objects
    are compared by identity. *)
Fixpoint key_eqb (k1 k2 : value) : bool :=
  match k1, k2 with
  | VNone, VNone => true
  | VBool a, VBool b => Bool.eqb a b
  | VBool a, VInt n | VInt n, VBool a => Z.eqb n (if a then 1 else 0)
  | VInt n, VInt m => Z.eqb n m
  | VStr s, VStr t => String.eqb s t
  | VTuple l1, VTuple l2 =>
      (fix go (l1 l2 : list value) : bool :=
         match l1, l2 with
         | [], [] => true
         | x :: l1', y :: l2' => key_eqb x y && go l1' l2'
         | _, _ => false
         end) l1 l2
  | VQuerySet p, VQuerySet q => Nat.eqb (qs_id p) (qs_id q)
  | VAggregate i, VAggregate j => Nat.eqb i j
  | VFunc i, VFunc j => Nat.eqb i j
  | VObject i, VObject j => Nat.eqb i j
  | _, _ => false
  end.

(** *** Dictionary contents *)

Fixpoint dict_get (d : dict) (k : value) : option value :=
  match d with
  | [] => None
  | (k', v) :: d' => if key_eqb k' k then Some v else dict_get d' k
  end.

Definition dict_mem (d : dict) (k : value) : bool :=
  match dict_get d k with Some _ => true | None => false end.

(** [d[k] = v]: an existing key keeps its place (and the key object),
    a new key goes last. *)
Fixpoint dict_set (d : dict) (k v : value) : dict :=
  match d with
  | [] => [(k, v)]
  | (k', v') :: d' =>
      if key_eqb k' k then (k', v) :: d' else (k', v') :: dict_set d' k v
  end.

Fixpoint dict_del (d : dict) (k : value) : dict :=
  match d with
  | [] => []
  | (k', v') :: d' => if key_eqb k' k then d' else (k', v') :: dict_del d' k
  end.

(** [d.update(d2)] for a dictionary [d2]. *)
Definition dict_update (d d2 : dict) : dict :=
  fold_left (fun acc kv => dict_set acc (fst kv) (snd kv)) d2 d.

(** *** String formatting *)

(** [fmt % arg] for a format string [pre ++ "%s" ++ post] with one
    conversion ([conv] is [FmtS] or [FmtR]).  When [arg] is a tuple the
    operator takes it as the tuple of arguments: only a 1-tuple fits. *)
Definition format1 (pre : string) (conv : value -> frag) (post : string)
    (arg : value) : result message :=
  match arg with
  | VTuple [] => Raise (TypeError "not enough arguments for format string")
  | VTuple [x] => Ok [Lit pre; conv x; Lit post]
  | VTuple _ =>
      Raise (TypeError "not all arguments converted during string formatting")
  | _ => Ok [Lit pre; conv arg; Lit post]
  end.

(** [raise APIInputError(fmt % arg)]. *)
Definition raise_format1 {A} (pre : string) (conv : value -> frag)
    (post : string) (arg : value) : result A :=
  (msg <- format1 pre conv post arg ;; Raise (APIInputError msg))%R.

(** *** Operations on dictionary objects *)

(** [v.keys()], as the list of keys. *)
Definition py_keys (h : heap) (v : value) : result (list value) :=
  match v with
  | VDict a => Ok (map fst (cell h a))
  | _ => Raise (AttributeError "keys")
  end.

(** [v.items()]. *)
Definition py_items (h : heap) (v : value) : result dict :=
  match v with
  | VDict a => Ok (cell h a)
  | _ => Raise (AttributeError "items")
  end.

(** [k in d.keys()] for the dictionary contents [d]. *)
Definition py_in_keys (k : value) (d : dict) : result bool :=
  if hashable k then Ok (dict_mem d k)
  else Raise (TypeError "unhashable type").

(** [v[k]]: only dictionaries accept a key that is not an index. *)
Definition py_getitem (h : heap) (v k : value) : result value :=
  match v with
  | VDict a =>
      if hashable k then
        match dict_get (cell h a) k with
        | Some x => Ok x
        | None => Raise (KeyError k)
        end
      else Raise (TypeError "unhashable type")
  | _ => Raise (TypeError "object is not subscriptable by a key")
  end.

(** [d[k] = v] on the dictionary object at [a]. *)
Definition py_setitem (a : addr) (k v : value) : M unit :=
  fun h =>
    if hashable k then (Ok tt, <[a := dict_set (cell h a) k v]> h)
    else (Raise (TypeError "unhashable type"), h).

(** [del d[k]]. *)
Definition py_delitem (a : addr) (k : value) : M unit :=
  fun h =>
    if hashable k then
      if dict_mem (cell h a) k
      then (Ok tt, <[a := dict_del (cell h a) k]> h)
      else (Raise (KeyError k), h)
    else (Raise (TypeError "unhashable type"), h).

(** [d.setdefault(k, v)] (its result is never used). *)
Definition py_setdefault (a : addr) (k v : value) : M unit :=
  fun h =>
    if hashable k then
      if dict_mem (cell h a) k then (Ok tt, h)
      else (Ok tt, <[a := dict_set (cell h a) k v]> h)
    else (Raise (TypeError "unhashable type"), h).

(** A new dictionary object with contents [d]. *)
Definition alloc (d : dict) : M addr :=
  fun h => (Ok (length h), h ++ [d]).

(** The characters of a string, each a string of length one. *)
Fixpoint chars (s : string) : list value :=
  match s with
  | EmptyString => []
  | String c s' => VStr (String c EmptyString) :: chars s'
  end.

(** The elements that iterating over a value visits, when it is iterable:
    the characters of a string, the elements of a tuple or a list, the keys
    of a dictionary, the instances of a queryset. *)
Definition py_iter (h : heap) (v : value) : option (list value) :=
  match v with
  | VStr s => Some (chars s)
  | VTuple vs | VList vs => Some vs
  | VDict a => Some (map fst (cell h a))
  | VQuerySet q => Some (map VObject (qs_rows q))
  | _ => None
  end.

(** One element of an iterable given to [dict.update]: any iterable that
    has two elements, the key and the value. *)
Definition update_pair (h : heap) (v : value) : result (value * value) :=
  match py_iter h v with
  | Some [k; x] =>
      if hashable k then Ok (k, x) else Raise (TypeError "unhashable type")
  | Some _ =>
      Raise (ValueError "dictionary update sequence element has wrong length")
  | None =>
      Raise (TypeError "cannot convert dictionary update sequence element")
  end.

(** The (key, value) pairs that [dict.update(other)] writes: the entries of
    a dictionary (the one argument here that has [keys]), else the pairs
    that are the elements of the iterable. *)
Definition update_pairs (h : heap) (other : value) : result dict :=
  match other with
  | VDict b => Ok (cell h b)
  | _ =>
      match py_iter h other with
      | Some vs =>
          for_eachR vs
            (fun acc v => (p <- update_pair h v ;; Ok (acc ++ [p]))%R) []
      | None => Raise (TypeError "object is not iterable")
      end
  end.

(** [d.update(other)] on the dictionary object at [a].  (A sequence with a
    bad element has written the elements before it when it raises; the
    dictionaries this is applied to are then unreachable.) *)
Definition py_update (a : addr) (other : value) : M unit :=
  fun h =>
    match update_pairs h other with
    | Ok d2 => (Ok tt, <[a := dict_update (cell h a) d2]> h)
    | Raise e => (Raise e, h)
    end.

(** *** copy.deepcopy

    The copy of a value is an isomorphic object graph on fresh dictionary
    objects, sharing and cycles included.  It is built by copying every
    dictionary of the heap to the address [length h] further on: the copy
    of the dictionary at [a] is at [a + length h].  Dictionaries the value
    does not reach are copied too; nothing refers to those copies.
    Querysets, aggregates and functions stand for themselves. *)
Fixpoint shift (n : nat) (v : value) : value :=
  match v with
  | VTuple vs => VTuple (map (shift n) vs)
  | VList vs => VList (map (shift n) vs)
  | VDict a => VDict (a + n)
  | _ => v
  end.

Definition shift_dict (n : nat) (d : dict) : dict :=
  map (fun kv => (shift n (fst kv), shift n (snd kv))) d.

Definition deepcopy (v : value) : M value :=
  fun h => (Ok (shift (length h) v), h ++ map (shift_dict (length h)) h).

(** [copy.copy(d)] of a dictionary. *)
Definition copy_dict (a : addr) : M addr :=
  fun h => alloc (cell h a) h.

(** *** Strings *)

Definition is_underscore (c : ascii) : bool := Ascii.eqb c "_"%char.

(** [s.split('__')]: the separators are found from the left and do not
    overlap, so ["a___b"] splits into ["a"] and ["_b"]. *)
Fixpoint split_dunder (s : string) : list string :=
  match s with
  | EmptyString => [EmptyString]
  | String c s' =>
      let plain :=
        match split_dunder s' with
        | seg :: segs => String c seg :: segs
        | [] => [String c EmptyString]
        end in
      match s' with
      | String c' rest =>
          if is_underscore c && is_underscore c'
          then EmptyString :: split_dunder rest
          else plain
      | EmptyString => plain
      end
  end.

(** [sep.join(l)]. *)
Definition join (sep : string) (l : list string) : string :=
  String.concat sep l.

(** [term.split('__')] on a value. *)
Definition py_split (term : value) : result (list string) :=
  match term with
  | VStr s => Ok (split_dunder s)
  | _ => Raise (AttributeError "split")
  end.

(** [term in keys] where [keys] are the (string) keys of a dictionary. *)
Definition py_in_strs (term : value) (keys : list string) : result bool :=
  match term with
  | VStr s => Ok (bool_decide (s ∈ keys))
  | _ => if hashable term then Ok false
         else Raise (TypeError "unhashable type")
  end.

(** ** The model schema

    Modelled from the spec: the Django model classes and their [_meta]
    options are not part of this module; the schema provider exposes, for
    each model, its enumerable fields, and for each field its name, its
    storage attribute name when it has one, its relation flags, the related
    model when it is a relation, the model it is declared on and its
    display label when it has one: the objects that stand for a reverse
    relation have a name but no [attname] and no [verbose_name].  Models are
    named, and the registry maps a name to the options of the model. *)
Record Field := mkField {
  name : string;
  attname : option string;
  is_relation : bool;
  many_to_one : bool;
  related_model : option string;
  field_model : string;
  auto_created : bool;
  concrete : bool;
  verbose_name : option string
}.

Record Options := mkOptions {
  get_fields : list Field;
  model : string;
  concrete_model : string
}.

Abbreviation schema := (gmap string Options).

(** [model._meta]; [model] is [None] when a field has no related model. *)
Definition _meta (sch : schema) (model : option string) : result Options :=
  match model with
  | Some m =>
      match sch !! m with
      | Some o => Ok o
      | None => Raise (AttributeError "_meta")
      end
  | None => Raise (AttributeError "_meta")
  end.

Definition field_named (n : string) (f : Field) : bool :=
  String.eqb (name f) n ||
  match attname f with Some a => String.eqb a n | None => false end.

(** [field.verbose_name]. *)
Definition py_verbose_name (field : Field) : result value :=
  match verbose_name field with
  | Some label => Ok (VStr label)
  | None => Raise (AttributeError "verbose_name")
  end.

(** [meta.get_field(n)]. *)
Definition get_field (meta : Options) (n : string) : result Field :=
  match find (field_named n) (get_fields meta) with
  | Some f => Ok f
  | None => Raise (FieldDoesNotExist n)
  end.

(** ** get_all_field_names *)

(** The body of the loop over [meta.get_fields()]. *)
Definition add_field_names (sch : schema) (meta : Options)
    (names : gset string) (field : Field) : result (gset string) :=
  if is_relation field && many_to_one field
     && negb (bool_decide (is_Some (related_model field)))
  then Ok names
  else
    (child <-
       (if negb (String.eqb (field_model field) (model meta))
        then (fm <- _meta sch (Some (field_model field)) ;;
              Ok (String.eqb (concrete_model fm) (concrete_model meta)))
        else Ok false) ;;
     if (child : bool) then Ok names
     else
       let names := names ∪ {[ name field ]} in
       match attname field with
       | Some a => Ok (names ∪ {[ a ]})
       | None => Ok names
       end)%R.

Definition get_all_field_names (sch : schema) (meta : Options)
  : result (list string) :=
  (names <- for_eachR (get_fields meta) (add_field_names sch meta) ∅ ;;
   Ok (elements names))%R.

(** ** _validate_field_lookup_term *)

(** The recursive call is on a shorter term; [fuel] bounds the depth. *)
Fixpoint validate_field_lookup_term_rec (fuel : nat) (sch : schema)
    (model : option string) (term : value) (query : Query) : result value :=
  match fuel with
  | O => Raise RecursionError
  | S fuel' =>
      (* if this is an extra or annotated field then return *)
      (ann <- py_in_strs term (annotations query) ;;
       known <- (if (ann : bool) then Ok true
                 else py_in_strs term (extra query)) ;;
       if (known : bool) then Ok term
       else
         terms <- py_split term ;;
         meta <- _meta sch model ;;
         model_fields <- get_all_field_names sch meta ;;
         let terms0 := hd EmptyString terms in
         if negb (bool_decide (terms0 ∈ model_fields))
         then Raise (APIInputError
                [Lit "Field "; FmtR (VStr terms0);
                 Lit " does not exist. Valid lookups are ";
                 FmtS (VStr (join ", " model_fields)); Lit "."])
         else if Nat.eqb (length terms) 1
         then (field <- get_field meta terms0 ;;
               py_verbose_name field)
         else
           field <- get_field meta terms0 ;;
           (* if the field is direct field *)
           let m := if negb (auto_created field) || concrete field
                    then related_model field
                    else model in
           validate_field_lookup_term_rec fuel' sch m
             (VStr (join "__" (tl terms))) query)%R
  end.

Definition term_size (term : value) : nat :=
  match term with VStr s => String.length s | _ => 0 end.

Definition _validate_field_lookup_term (sch : schema) (model : option string)
    (term : value) (query : Query) : result value :=
  validate_field_lookup_term_rec (S (term_size term)) sch model term query.

(** ** Validators *)

(** [source.model] and [source.query]. *)
Definition py_model (source : value) : result (option string) :=
  match source with
  | VQuerySet q => Ok (Some (qs_model q))
  | _ => Raise (AttributeError "model")
  end.

Definition py_query (source : value) : result Query :=
  match source with
  | VQuerySet q => Ok (qs_query q)
  | _ => Raise (AttributeError "query")
  end.

Definition _validate_source (source : value) : result value :=
  if isinstance_QuerySet source then Ok source
  else Raise (APIInputError
         [Lit "'source' must be a QuerySet. Got "; FmtS source;
          Lit " of type "; FmtType source; Lit " instead."]).

Definition _validate_func (func : value) : result unit :=
  if negb (isinstance_Aggregate func)
  then Raise (APIInputError
         [Lit "'func' must an instance of django Aggregate. Got ";
          FmtS func; Lit " of type "; FmtType func; Lit " instead"])
  else Ok tt.

(** The loop [for c in l: field_aliases[c] = _validate_field_lookup_term(
    source.model, c, source.query)] of [_clean_categories] and
    [_validate_legend_by]. *)
Definition alias_fields (sch : schema) (source : value) (l : list value)
  : result dict :=
  for_eachR l
    (fun field_aliases c =>
       (m <- py_model source ;;
        q <- py_query source ;;
        fa <- _validate_field_lookup_term sch m c q ;;
        if hashable c then Ok (dict_set field_aliases c fa)
        else Raise (TypeError "unhashable type"))%R)
    [].

(** The elements a [for] loop over a tuple or a list visits. *)
Definition elems (v : value) : list value :=
  match v with VTuple vs | VList vs => vs | _ => [] end.

Definition _clean_categories (sch : schema) (categories source : value)
  : M (value * value) :=
  (categories <- lift
     (if isinstance_str categories then Ok (VList [categories])
      else if isinstance_tuple categories || isinstance_list categories
      then match elems categories with
           | [] => raise_format1
                     "'categories' tuple or list must contain at least one valid model field. Got "
                     FmtS "." categories
           | _ => Ok categories
           end
      else Raise (APIInputError
             [Lit "'categories' must be one of the following types: basestring, tuple or list. Got ";
              FmtS categories; Lit " of type "; FmtType categories;
              Lit " instead."])) ;;
   field_aliases <- lift (alias_fields sch source (elems categories)) ;;
   fa <- alloc field_aliases ;;
   ret (categories, VDict fa))%M.

Definition _validate_legend_by (sch : schema) (legend_by source : value)
  : M (value * value) :=
  (legend_by <- reading (fun h =>
     Ok (if negb (truthy h legend_by) then VList [] else legend_by)) ;;
   if negb (isinstance_list legend_by)
   then raise (APIInputError [Lit "'legend_by' must be a list"])
   else
     field_aliases <- lift (alias_fields sch source (elems legend_by)) ;;
     fa <- alloc field_aliases ;;
     ret (legend_by, VDict fa))%M.

Definition _validate_top_n_per_cat (top_n_per_cat : value) : result unit :=
  if negb (isinstance_int top_n_per_cat)
  then Raise (APIInputError
         [Lit "'top_n_per_cat' must be an int. Got "; FmtS top_n_per_cat;
          Lit " of type "; FmtType top_n_per_cat; Lit " instead."])
  else Ok tt.

(** [copy.copy(v)] and [v.update(other)] on a value. *)
Definition py_copy (v : value) : M value :=
  match v with
  | VDict a => (b <- copy_dict a ;; ret (VDict b))%M
  | _ => ret v
  end.

Definition py_update_method (v other : value) : M unit :=
  match v with
  | VDict a => py_update a other
  | _ => raise (AttributeError "update")
  end.

Definition _merge_field_aliases (fa_actual fa_cat fa_lgby : value) : M value :=
  (fa <- py_copy fa_lgby ;;
   py_update_method fa fa_cat ;;;
   py_update_method fa fa_actual ;;;
   ret fa)%M.

(** ** Helpers for dictionary objects known by their address *)

Definition getitem (a : addr) (k : string) : M value :=
  reading (fun h => py_getitem h (VDict a) (VStr k)).

Definition has_key (a : addr) (k : string) : M bool :=
  reading (fun h => Ok (dict_mem (cell h a) (VStr k))).

Definition setitem (a : addr) (k : string) (v : value) : M unit :=
  py_setitem a (VStr k) v.

(** [opts = copy.deepcopy(options)] for the dictionary [options]. *)
Definition deepcopy_dict (options : addr) : M addr :=
  fun h => (Ok (options + length h), snd (deepcopy (VDict options) h)).

(** [for _key in keys: if _key not in sd.keys(): raise APIInputError(
    "%s is missing the '%s' key." % (sd, _key))]. *)
Definition require_keys (sd : value) (keys : list string) : M unit :=
  for_each keys
    (fun _ _key =>
       reading (fun h =>
         (ks <- py_keys h sd ;;
          if negb (existsb (fun k => key_eqb k (VStr _key)) ks)
          then Raise (APIInputError
                 [FmtS sd; Lit " is missing the '"; FmtS (VStr _key);
                  Lit "' key."])
          else Ok tt)%R))
    tt.

(** ** PivotDataPool series: _convert_pdps_to_dict, clean_pdps *)

(** The body of [for tk, tv in terms.items()]. *)
Definition pdps_term (sch : schema) (options : addr) (series_dict : dict)
    (item : value * value) : M dict :=
  let tk := fst item in
  let tv := snd item in
  (tv <- (if isinstance_Aggregate tv
          then alloc [(VStr "func", tv)]
          else match tv with
               | VDict a => ret a
               | _ => lift (raise_format1
                        "Expecting a dict or django Aggregate in place of: "
                        FmtS "" tv)
               end) ;;
   opts <- deepcopy_dict options ;;
   py_update opts (VDict tv) ;;;
   (* make some more validations *)
   require_keys (VDict opts) ["source"; "func"; "categories"] ;;;
   source <- getitem opts "source" ;;
   source <- lift (_validate_source source) ;;
   setitem opts "source" source ;;;
   func <- getitem opts "func" ;;
   lift (_validate_func func) ;;;
   categories <- getitem opts "categories" ;;
   source <- getitem opts "source" ;;
   cat <- _clean_categories sch categories source ;;
   setitem opts "categories" (fst cat) ;;;
   let fa_cat := snd cat in
   has_legend_by <- has_key opts "legend_by" ;;
   fa_lgby <-
     (if (has_legend_by : bool)
      then legend_by <- getitem opts "legend_by" ;;
           source <- getitem opts "source" ;;
           lg <- _validate_legend_by sch legend_by source ;;
           setitem opts "legend_by" (fst lg) ;;;
           ret (snd lg)
      else empty <- alloc [] ;;
           setitem opts "legend_by" (VTuple []) ;;;
           ret (VDict empty)) ;;
   has_top_n <- has_key opts "top_n_per_cat" ;;
   (if (has_top_n : bool)
    then top_n_per_cat <- getitem opts "top_n_per_cat" ;;
         lift (_validate_top_n_per_cat top_n_per_cat)
    else setitem opts "top_n_per_cat" (VInt 0)) ;;;
   has_field_aliases <- has_key opts "field_aliases" ;;
   fa_actual <-
     (if (has_field_aliases : bool)
      then getitem opts "field_aliases"
      else empty <- alloc [] ;;
           setitem opts "field_aliases" (VDict empty) ;;;
           ret (VDict empty)) ;;
   fa <- _merge_field_aliases fa_actual fa_cat fa_lgby ;;
   setitem opts "field_aliases" fa ;;;
   ret (dict_set series_dict tk (VDict opts)))%M.

(** The body of [for sd in series_list]. *)
Definition pdps_sd (sch : schema) (series_dict : dict) (sd : value) : M dict :=
  (require_keys sd ["options"; "terms"] ;;;
   options <- reading (fun h => py_getitem h sd (VStr "options")) ;;
   match options with
   | VDict options =>
       terms <- reading (fun h => py_getitem h sd (VStr "terms")) ;;
       (* see PivotDataPool.__init__ for the format of terms *)
       match terms with
       | VDict terms =>
           nonempty <- reading (fun h => Ok (truthy h (VDict terms))) ;;
           if negb nonempty
           then raise (APIInputError [Lit "'terms' cannot be empty."])
           else
             items <- reading (fun h => Ok (cell h terms)) ;;
             for_each items (pdps_term sch options) series_dict
       | _ => lift (raise_format1 "Expecting a dict in place of: " FmtS ""
                      terms)
       end
   | _ => lift (raise_format1 "Expecting a dict in place of: " FmtS ""
                  options)
   end)%M.

(** [series_dict] is a local dictionary: it becomes an object of the heap
    when it is returned. *)
Definition _convert_pdps_to_dict (sch : schema) (series_list : list value)
  : M value :=
  (series_dict <- for_each series_list (pdps_sd sch) [] ;;
   r <- alloc series_dict ;;
   ret (VDict r))%M.

Definition clean_pdps (sch : schema) (series : value) : M value :=
  (nonempty <- reading (fun h => Ok (truthy h series)) ;;
   if negb nonempty
   then raise (APIInputError [Lit "'series' cannot be empty."])
   else match series with
        | VList series_list => _convert_pdps_to_dict sch series_list
        | _ => lift (raise_format1 "Expecting a list in place of: " FmtS ""
                       series)
        end)%M.

(** ** DataPool series: _convert_dps_to_dict, clean_dps *)

(** The body of [for term in terms]. *)
Definition dps_term (sch : schema) (options : addr) (series_dict : dict)
    (term : value) : M dict :=
  (named <-
     match term with
     | VStr _ =>
         let _new_name := term in
         opts <- deepcopy_dict options ;;
         ret (_new_name, opts)
     | VDict t =>
         _new_name <- getitem t "_new_name" ;;
         py_delitem t (VStr "_new_name") ;;;
         (* note: use 'func' to specify a lambda func for this field *)
         opts <- deepcopy_dict options ;;
         py_update opts term ;;;
         if hashable _new_name then ret (_new_name, opts)
         else raise (TypeError "unhashable type")
     | _ => raise (APIInputError
              [Lit "Expecting a basestring or dict in place of: ";
               FmtS term])
     end ;;
   let _new_name := fst named in
   let sd_term := snd named in
   let series_dict := dict_set series_dict _new_name (VDict sd_term) in
   (* make some more validations *)
   has_source <- has_key sd_term "source" ;;
   if negb has_source
   then lift (raise_format1 "" FmtS " is missing the 'source' key."
                (VDict sd_term))
   else
     source <- getitem sd_term "source" ;;
     source <- lift (_validate_source source) ;;
     setitem sd_term "source" source ;;;
     py_setdefault sd_term (VStr "field") _new_name ;;;
     source <- getitem sd_term "source" ;;
     m <- lift (py_model source) ;;
     field <- getitem sd_term "field" ;;
     q <- lift (py_query source) ;;
     fa <- lift (_validate_field_lookup_term sch m field q) ;;
     (* If the user supplied term is not a field name, use it as an alias *)
     let fa := if negb (key_eqb _new_name field) then _new_name else fa in
     py_setdefault sd_term (VStr "field_alias") fa ;;;
     ret series_dict)%M.

(** The body of [for sd in series_list]. *)
Definition dps_sd (sch : schema) (series_dict : dict) (sd : value) : M dict :=
  (require_keys sd ["options"; "terms"] ;;;
   options <- reading (fun h => py_getitem h sd (VStr "options")) ;;
   match options with
   | VDict options =>
       terms <- reading (fun h => py_getitem h sd (VStr "terms")) ;;
       (* see DataPool.__init__ for the format of terms *)
       match terms with
       | VList term_list =>
           match term_list with
           | [] => raise (APIInputError [Lit "'terms' cannot be empty."])
           | _ => for_each term_list (dps_term sch options) series_dict
           end
       | _ => lift (raise_format1 "Expecting a list in place of: " FmtS ""
                      terms)
       end
   | _ => lift (raise_format1 "Expecting a dict in place of: " FmtS ""
                  options)
   end)%M.

Definition _convert_dps_to_dict (sch : schema) (series_list : list value)
  : M value :=
  (series_dict <- for_each series_list (dps_sd sch) [] ;;
   r <- alloc series_dict ;;
   ret (VDict r))%M.

Definition clean_dps (sch : schema) (series : value) : M value :=
  (nonempty <- reading (fun h => Ok (truthy h series)) ;;
   if negb nonempty
   then raise (APIInputError [Lit "'series' cannot be empty."])
   else match series with
        | VList series_list => _convert_dps_to_dict sch series_list
        | _ => lift (raise_format1 "Expecting a list in place of: " FmtS ""
                       series)
        end)%M.

(** ** The datasource of a chart

    Modelled from the spec: the [DataPool] / [PivotDataPool] classes are not
    part of this module.  A datasource exposes [series], the map from series
    name to the record of the series that a shape converter built, completed
    by the pool with [_data], the underlying data table of the series.
    Tables are compared with [!=]; a table is identified by a number. *)
Record Series := mkSeries { _data : nat }.

Record DataSource := mkDataSource { ds_series : list (string * Series) }.

(** [ds.series.keys()]. *)
Definition series_keys (ds : DataSource) : list string :=
  map fst (ds_series ds).

(** [ds.series[k]['_data']]. *)
Definition series_data (ds : DataSource) (k : value) : result nat :=
  match k with
  | VStr s =>
      match find (fun e => String.eqb (fst e) s) (ds_series ds) with
      | Some e => Ok (_data (snd e))
      | None => Raise (KeyError k)
      end
  | _ => if hashable k then Raise (KeyError k)
         else Raise (TypeError "unhashable type")
  end.

(** [try: r except KeyError: raise e]. *)
Definition except_KeyError {A} (r : result A) (handler : result A)
  : result A :=
  match r with
  | Raise (KeyError _) => handler
  | _ => r
  end.

(** [stod[key]] inside [try ... except KeyError: raise APIInputError(
    "%s is missing the '<key>' key." % stod)]. *)
Definition stod_item (h : heap) (stod : value) (key : string) : result value :=
  except_KeyError (py_getitem h stod (VStr key))
    (raise_format1 "" FmtS (" is missing the '" ++ key ++ "' key.") stod).

(** ** PivotChart series options: _convert_pcso_to_dict, clean_pcso *)

(** The body of [for term in terms]; a term that is neither a string nor a
    dictionary is passed over. *)
Definition pcso_term (options : addr) (series_options_dict : dict)
    (term : value) : M dict :=
  match term with
  | VStr _ =>
      (opts <- deepcopy_dict options ;;
       ret (dict_set series_options_dict term (VDict opts)))%M
  | VDict t =>
      (items <- reading (fun h => Ok (cell h t)) ;;
       for_each items
         (fun series_options_dict item =>
            let tk := fst item in
            let tv := snd item in
            if negb (isinstance_dict tv)
            then lift (raise_format1 "Expecting a dict in place of: " FmtS ""
                         tv)
            else
              opts <- deepcopy_dict options ;;
              py_update opts tv ;;;
              ret (dict_set series_options_dict tk (VDict opts)))
         series_options_dict)%M
  | _ => ret series_options_dict
  end.

(** The body of [for stod in series_options]. *)
Definition pcso_stod (series_options_dict : dict) (stod : value) : M dict :=
  (options <- reading (fun h => stod_item h stod "options") ;;
   match options with
   | VDict options =>
       terms <- reading (fun h => stod_item h stod "terms") ;;
       match terms with
       | VList term_list =>
           for_each term_list (pcso_term options) series_options_dict
       | _ => lift (raise_format1 "Expecting a list in place of: " FmtS ""
                      terms)
       end
   | _ => lift (raise_format1 "Expecting a dict in place of: " FmtS ""
                  options)
   end)%M.

Definition _convert_pcso_to_dict (series_options : list value) : M value :=
  (series_options_dict <- for_each series_options pcso_stod [] ;;
   r <- alloc series_options_dict ;;
   ret (VDict r))%M.

(** The body of [for sok, sod in series_options.items()] in [clean_pcso]. *)
Definition pcso_check (ds : DataSource) (item : value * value) : result unit :=
  let sok := fst item in
  let sod := snd item in
  (known <- py_in_strs sok (series_keys ds) ;;
   if negb known
   then Raise (APIInputError
          [Lit "All the series terms must be present in the series dict of the datasource. Got ";
           FmtS sok; Lit ". Allowed values are: ";
           FmtS (VStr (join ", " (series_keys ds)))])
   else if negb (isinstance_dict sod)
   then Raise (APIInputError
          [Lit "All the series options must be of the type dict. Got ";
           FmtS sod; Lit " of type "; FmtType sod; Lit " instead."])
   else Ok tt)%R.

(** The branch [isinstance(series_options, dict)] of [clean_pcso]. *)
Definition clean_pcso_dict (ds : DataSource) (series_options : addr)
  : M value :=
  (items <- reading (fun h => Ok (cell h series_options)) ;;
   for_each items (fun _ item => lift (pcso_check ds item)) tt ;;;
   ret (VDict series_options))%M.

(** In the list branch the function calls itself on the dictionary it has
    just built, which runs the dictionary branch once. *)
Definition clean_pcso (series_options : value) (ds : DataSource) : M value :=
  match series_options with
  | VDict a => clean_pcso_dict ds a
  | VList l =>
      (series_options <- _convert_pcso_to_dict l ;;
       match series_options with
       | VDict a => clean_pcso_dict ds a
       | _ => ret series_options
       end ;;;
       ret series_options)%M
  | _ => lift (raise_format1 "Expecting a dict or list in place of: " FmtS "."
                 series_options)
  end.

(** ** Chart series options: _convert_cso_to_dict, clean_cso *)

(** [list(yterm.values())[0]] and [list(yterm.keys())[0]]. *)
Definition first_value (h : heap) (yterm : addr) : result value :=
  match cell h yterm with
  | kv :: _ => Ok (snd kv)
  | [] => Raise (IndexError "list index out of range")
  end.

Definition first_key (h : heap) (yterm : addr) : result value :=
  match cell h yterm with
  | kv :: _ => Ok (fst kv)
  | [] => Raise (IndexError "list index out of range")
  end.

(** The body of [for yterm in td]. *)
Definition cso_yterm (options : addr) (tk : value)
    (series_options_dict : dict) (yterm : value) : M dict :=
  match yterm with
  | VStr _ =>
      (opts <- deepcopy_dict options ;;
       setitem opts "_x_axis_term" tk ;;;
       ret (dict_set series_options_dict yterm (VDict opts)))%M
  | VDict y =>
      (opts <- deepcopy_dict options ;;
       v <- reading (fun h => first_value h y) ;;
       py_update opts v ;;;
       setitem opts "_x_axis_term" tk ;;;
       k <- reading (fun h => first_key h y) ;;
       ret (dict_set series_options_dict k (VDict opts)))%M
  | _ => lift (raise_format1 "Expecting a basestring or dict in place of: "
                 FmtS "." yterm)
  end.

(** The body of [for tk, td in terms.items()]. *)
Definition cso_term (options : addr) (series_options_dict : dict)
    (item : value * value) : M dict :=
  let tk := fst item in
  let td := snd item in
  match td with
  | VList yterms => for_each yterms (cso_yterm options tk) series_options_dict
  | _ => lift (raise_format1 "Expecting a list instead of: " FmtS "" td)
  end.

(** The body of [for stod in series_options]. *)
Definition cso_stod (series_options_dict : dict) (stod : value) : M dict :=
  (options <- reading (fun h => stod_item h stod "options") ;;
   match options with
   | VDict options =>
       terms <- reading (fun h => stod_item h stod "terms") ;;
       match terms with
       | VDict terms =>
           nonempty <- reading (fun h => Ok (truthy h (VDict terms))) ;;
           if negb nonempty
           then raise (APIInputError [Lit "'terms' dict cannot be empty."])
           else
             items <- reading (fun h => Ok (cell h terms)) ;;
             for_each items (cso_term options) series_options_dict
       | _ => lift (raise_format1 "Expecting a dict in place of: " FmtS "."
                      terms)
       end
   | _ => lift (raise_format1 "Expecting a dict in place of: " FmtS ""
                  options)
   end)%M.

Definition _convert_cso_to_dict (series_options : list value) : M value :=
  (series_options_dict <- for_each series_options cso_stod [] ;;
   r <- alloc series_options_dict ;;
   ret (VDict r))%M.

(** The body of [for sok, sod in series_options.items()] in [clean_cso]. *)
Definition cso_check (ds : DataSource) (h : heap) (item : value * value)
  : result unit :=
  let sok := fst item in
  let sod := snd item in
  (known <- py_in_strs sok (series_keys ds) ;;
   if negb known
   then Raise (APIInputError
          [FmtS sok;
           Lit " is not one of the keys of the datasource series. Allowed values are: ";
           FmtS (VStr (join ", " (series_keys ds)))])
   else if negb (isinstance_dict sod)
   then Raise (APIInputError
          [FmtS sod; Lit " is of type: "; FmtType sod;
           Lit ". Expecting a dict."])
   else
     _x_axis_term <-
       except_KeyError
         (_x_axis_term <- py_getitem h sod (VStr "_x_axis_term") ;;
          known <- py_in_strs _x_axis_term (series_keys ds) ;;
          if negb known
          then Raise (APIInputError
                 [FmtS _x_axis_term;
                  Lit " is not one of the keys of the datasource series. Allowed values are: ";
                  FmtS (VStr (join ", " (series_keys ds)))])
          else Ok _x_axis_term)
         (raise_format1 "Expecting a '_x_axis_term' for " FmtS "." sod) ;;
     data <- series_data ds sok ;;
     x_data <- series_data ds _x_axis_term ;;
     if negb (Nat.eqb data x_data)
     then Raise (APIInputError
            [FmtS sok; Lit " and "; FmtS _x_axis_term;
             Lit " do not belong to the same table."])
     else Ok tt)%R.

(** The branch [isinstance(series_options, dict)] of [clean_cso]. *)
Definition clean_cso_dict (ds : DataSource) (series_options : addr)
  : M value :=
  (items <- reading (fun h => Ok (cell h series_options)) ;;
   for_each items (fun _ item => reading (fun h => cso_check ds h item)) tt ;;;
   ret (VDict series_options))%M.

(** As in [clean_pcso], the call of the function on the dictionary it has
    built runs the dictionary branch. *)
Definition clean_cso (series_options : value) (ds : DataSource) : M value :=
  match series_options with
  | VDict a => clean_cso_dict ds a
  | VList l =>
      (series_options <- _convert_cso_to_dict l ;;
       match series_options with
       | VDict a => clean_cso_dict ds a
       | _ => ret series_options
       end ;;;
       ret series_options)%M
  | _ => raise (APIInputError
           [Lit "'series_options' must either be a dict or a list. Got ";
            FmtS series_options; Lit " of type "; FmtType series_options;
            Lit " instead."])
  end.

(** ** Sort and map functions: clean_sortf_mapf_mts, clean_x_sortf_mapf_mts *)

Definition clean_sortf_mapf_mts (h : heap) (sortf_mapf_mts : value)
  : result value :=
  if negb (truthy h sortf_mapf_mts)
  then Ok (VTuple [VNone; VNone; VBool false])
  else if negb (isinstance_tuple sortf_mapf_mts)
  then Raise (APIInputError [Lit "sortf_mapf_mts must be a tuple!"])
  else if negb (Nat.eqb (length (elems sortf_mapf_mts)) 3)
  then raise_format1 "" FmtR " must have exactly three elements."
         sortf_mapf_mts
  else
    match elems sortf_mapf_mts with
    | [sortf; mapf; mts] =>
        if truthy h sortf && negb (callable sortf)
        then Raise (APIInputError [Lit "sortf must be callable or None."])
        else if truthy h mapf && negb (callable mapf)
        then Raise (APIInputError [Lit "mapf must be callable or None."])
        else
          let mts := VBool (truthy h mts) in
          Ok (VTuple [sortf; mapf; mts])
    | _ => Raise (ValueError "wrong number of values to unpack")
    end.

Definition clean_x_sortf_mapf_mts (h : heap) (x_sortf_mapf_mts : value)
  : result value :=
  if negb (truthy h x_sortf_mapf_mts)
  then Ok (VList [VTuple [VNone; VNone; VBool false]])
  else
    (x_sortf_mapf_mts <-
       (if isinstance_tuple x_sortf_mapf_mts
        then Ok (VList [x_sortf_mapf_mts])
        else if negb (isinstance_list x_sortf_mapf_mts)
        then Raise (APIInputError
               [Lit "x_sortf_mapf_mts must be a list of tuples!"])
        else Ok x_sortf_mapf_mts) ;;
     cleaned_x_s_m_mts <-
       for_eachR (elems x_sortf_mapf_mts)
         (fun cleaned x_s_m_mts =>
            c <- clean_sortf_mapf_mts h x_s_m_mts ;; Ok (cleaned ++ [c]))
         [] ;;
     Ok (VList cleaned_x_s_m_mts))%R.

(** ** Sample data: a schema with two related models, and inputs *)

Module Sample.

Definition book_fields : list Field :=
  [mkField "id" (Some "id") false false None "Book" true true (Some "ID");
   mkField "author" (Some "author_id") true true (Some "Author") "Book"
     false true (Some "author");
   mkField "title" (Some "title") false false None "Book" false true
     (Some "title")].

Definition author_fields : list Field :=
  [mkField "id" (Some "id") false false None "Author" true true (Some "ID");
   mkField "name" (Some "name") false false None "Author" false true
     (Some "full name");
   mkField "book" None true false (Some "Book") "Author" true false None].

Definition Book : Options := mkOptions book_fields "Book" "Book".
Definition Author : Options := mkOptions author_fields "Author" "Author".

Definition models : schema := {[ "Book" := Book; "Author" := Author ]}.

(** [Book.objects.annotate(total=...)], with two rows. *)
Definition books : QuerySet :=
  mkQuerySet 0 "Book" (mkQuery ["total"] []) [1; 2].

(** [Author.objects.all()], with one row. *)
Definition authors : QuerySet := mkQuerySet 1 "Author" (mkQuery [] []) [3].

(** [[{'options': {'source': authors}, 'terms': ['book']}]]: the term names
    the reverse relation from [Book]. *)
Definition reverse_heap : heap :=
  [ [(VStr "options", VDict 1); (VStr "terms", VList [VStr "book"])];
    [(VStr "source", VQuerySet authors)] ].

(** [[{'options': {'source': books},
       'terms': ['title', {'_new_name': 'writer', 'field': 'author__name'}]}]] *)
Definition dps_heap : heap :=
  [ [(VStr "options", VDict 1);
     (VStr "terms", VList [VStr "title"; VDict 2])];
    [(VStr "source", VQuerySet books)];
    [(VStr "_new_name", VStr "writer"); (VStr "field", VStr "author__name")] ].
Definition dps_series : value := VList [VDict 0].



(** [[{'options': {'source': books}, 'terms': [{'field': 'author__name'}]}]]:
    the dictionary term has no ['_new_name']. *)
Definition unnamed_heap : heap :=
  [ [(VStr "options", VDict 1); (VStr "terms", VList [VDict 2])];
    [(VStr "source", VQuerySet books)];
    [(VStr "field", VStr "author__name")] ].

(** [[{'options': {'source': books, 'categories': 'author__name'},
       'terms': {'n': Count(..), 'm': {'func': Avg(..),
                                       'legend_by': ['title']}}}]] *)
Definition pdps_heap : heap :=
  [ [(VStr "options", VDict 1); (VStr "terms", VDict 2)];
    [(VStr "source", VQuerySet books);
     (VStr "categories", VStr "author__name")];
    [(VStr "n", VAggregate 0); (VStr "m", VDict 3)];
    [(VStr "func", VAggregate 1); (VStr "legend_by", VList [VStr "title"])] ].
Definition pdps_series : value := VList [VDict 0].

(** [[{'options': {}, 'terms': []}]] *)
Definition empty_terms_heap : heap :=
  [ [(VStr "options", VDict 1); (VStr "terms", VList [])]; [] ].

(** A datasource with three series, the first two on the same table. *)
Definition pool : DataSource :=
  mkDataSource [("x", mkSeries 0); ("y", mkSeries 0); ("z", mkSeries 1)].

(** [{'y': {'_x_axis_term': 'x'}}] and [{'z': {'_x_axis_term': 'x'}}] *)
Definition cso_heap : heap :=
  [ [(VStr "y", VDict 1)]; [(VStr "_x_axis_term", VStr "x")];
    [(VStr "z", VDict 1)] ].

End Sample.

(** * Specification

    The definitions the properties are stated with. *)

(** ** Error messages *)

(** The message of the type error of [clean_dps] and [clean_pdps]. *)
Definition expecting_list (series : value) : exn :=
  APIInputError [Lit "Expecting a list in place of: "; FmtS series; Lit ""].

(** The message for an input whose truth value is false. *)
Definition cannot_be_empty : exn :=
  APIInputError [Lit "'series' cannot be empty."].

(** The messages of [clean_cso]. *)
Definition not_a_series (ds : DataSource) (k : value) : exn :=
  APIInputError
    [FmtS k;
     Lit " is not one of the keys of the datasource series. Allowed values are: ";
     FmtS (VStr (join ", " (series_keys ds)))].

Definition not_same_table (sok x : value) : exn :=
  APIInputError
    [FmtS sok; Lit " and "; FmtS x; Lit " do not belong to the same table."].

Definition no_x_axis_term (sod : value) : exn :=
  APIInputError [Lit "Expecting a '_x_axis_term' for "; FmtS sod; Lit "."].

(** The message of [_validate_field_lookup_term]. *)
Definition field_does_not_exist (terms0 : string) (model_fields : list string)
  : exn :=
  APIInputError
    [Lit "Field "; FmtR (VStr terms0);
     Lit " does not exist. Valid lookups are ";
     FmtS (VStr (join ", " model_fields)); Lit "."].

(** ** Sort and map functions *)

(** [[f(x) for x in l]] for a function that may raise. *)
Fixpoint mapR {A B} (f : A -> result B) (l : list A) : result (list B) :=
  match l with
  | [] => Ok []
  | x :: l' => (y <- f x ;; ys <- mapR f l' ;; Ok (y :: ys))%R
  end.

(** The triple for an input whose truth value is false. *)
Definition default_sortf_mapf_mts : value := VTuple [VNone; VNone; VBool false].

(** ** Series options of a chart *)

(** An entry of the series options that [clean_cso] accepts: its key names
    a series of the datasource, its value is a dictionary whose
    ['_x_axis_term'] names a series on the same data table. *)
Definition linked (ds : DataSource) (h : heap) (item : value * value) : Prop :=
  exists s b x,
    item = (VStr s, VDict b) /\
    s ∈ series_keys ds /\
    dict_get (cell h b) (VStr "_x_axis_term") = Some (VStr x) /\
    x ∈ series_keys ds /\
    series_data ds (VStr s) = series_data ds (VStr x).

(** ** Field lookups *)

(** A term that the query knows as an annotation or an extra field. *)
Definition known (query : Query) (term : string) : Prop :=
  term ∈ annotations query \/ term ∈ extra query.

Definition knownb (query : Query) (term : string) : bool :=
  bool_decide (term ∈ annotations query) || bool_decide (term ∈ extra query).

(** The model the rest of the lookup is checked against: the related model
    of a direct field, the same model for a reverse relation. *)
Definition next_model (model : option string) (field : Field) : option string :=
  if negb (auto_created field) || concrete field
  then related_model field
  else model.

(** The body of [_validate_field_lookup_term] on a string, with the
    recursive call as a parameter: the function is a fixed point of it. *)
Definition lookup_equation (self : option string -> string -> result value)
    (sch : schema) (model : option string) (term : string) (query : Query)
  : result value :=
  if knownb query term then Ok (VStr term)
  else
    let terms := split_dunder term in
    (meta <- _meta sch model ;;
     model_fields <- get_all_field_names sch meta ;;
     let terms0 := hd EmptyString terms in
     if negb (bool_decide (terms0 ∈ model_fields))
     then Raise (APIInputError
            [Lit "Field "; FmtR (VStr terms0);
             Lit " does not exist. Valid lookups are ";
             FmtS (VStr (join ", " model_fields)); Lit "."])
     else if Nat.eqb (length terms) 1
     then (field <- get_field meta terms0 ;; py_verbose_name field)
     else
       field <- get_field meta terms0 ;;
       self (next_model model field) (join "__" (tl terms)))%R.

(** A field left out of the names: a relation to no model (a generic
    foreign key), or a field a child proxy model brings in. *)
Definition generic_foreign_key (f : Field) : bool :=
  is_relation f && many_to_one f &&
  negb (bool_decide (is_Some (related_model f))).

Definition child_proxy (sch : schema) (meta : Options) (f : Field) : Prop :=
  field_model f <> model meta /\
  exists fm, sch !! field_model f = Some fm /\
             concrete_model fm = concrete_model meta.

(** A field whose names [get_all_field_names] lists. *)
Definition listed (sch : schema) (meta : Options) (f : Field) : Prop :=
  generic_foreign_key f = false /\ ~ child_proxy sch meta f.

(** The names of a field: its name and its attribute name. *)
Definition names_field (f : Field) (n : string) : Prop :=
  name f = n \/ attname f = Some n.

(** Every segment of a lookup resolves through the schema: the first
    segment is among the field names of the model, and the rest resolves on
    the model the field leads to; [f] is the field of the last segment. *)
Inductive resolves (sch : schema)
  : option string -> list string -> Field -> Prop :=
| resolves_last model meta names t0 f :
    _meta sch model = Ok meta ->
    get_all_field_names sch meta = Ok names ->
    t0 ∈ names ->
    get_field meta t0 = Ok f ->
    resolves sch model [t0] f
| resolves_step model meta names t0 f0 rest f :
    _meta sch model = Ok meta ->
    get_all_field_names sch meta = Ok names ->
    t0 ∈ names ->
    get_field meta t0 = Ok f0 ->
    rest <> [] ->
    resolves sch (next_model model f0) rest f ->
    resolves sch model (t0 :: rest) f.

(** ** Keys and dictionaries *)

Section ValueInd.
Context (P : value -> Prop).
Context (HNone : P VNone) (HBool : forall b, P (VBool b))
        (HInt : forall n, P (VInt n)) (HStr : forall s, P (VStr s))
        (HTuple : forall vs, Forall P vs -> P (VTuple vs))
        (HList : forall vs, Forall P vs -> P (VList vs))
        (HDict : forall a, P (VDict a))
        (HQuerySet : forall q, P (VQuerySet q))
        (HAggregate : forall i, P (VAggregate i))
        (HFunc : forall i, P (VFunc i)) (HObject : forall i, P (VObject i)).

(** Induction on values, with the hypothesis for the elements of tuples
    and lists. *)
Fixpoint value_elements_ind (v : value) : P v :=
  let all :=
    fix all (vs : list value) : Forall P vs :=
      match vs with
      | [] => @List.Forall_nil _ P
      | x :: vs' => @List.Forall_cons _ P x vs' (value_elements_ind x) (all vs')
      end in
  match v with
  | VNone => HNone
  | VBool b => HBool b
  | VInt n => HInt n
  | VStr s => HStr s
  | VTuple vs => HTuple vs (all vs)
  | VList vs => HList vs (all vs)
  | VDict a => HDict a
  | VQuerySet q => HQuerySet q
  | VAggregate i => HAggregate i
  | VFunc i => HFunc i
  | VObject i => HObject i
  end.
End ValueInd.

(** The comparison of two tuples, element by element. *)
Fixpoint keys_eqb (l1 l2 : list value) : bool :=
  match l1, l2 with
  | [], [] => true
  | x :: l1', y :: l2' => key_eqb x y && keys_eqb l1' l2'
  | _, _ => false
  end.

(** Each key occurs once. *)
Fixpoint unique_keys (d : dict) : Prop :=
  match d with
  | [] => True
  | kv :: d' => dict_get d' (fst kv) = None /\ unique_keys d'
  end.


(** ** Computations on the heap *)

(** [wp I m Q h]: run from [h], the computation [m] ends either with a
    value [a] in a heap that satisfy [Q], or with an exception in a heap
    that satisfies [I]. *)
Definition wp {A} (I : heap -> Prop) (m : M A) (Q : A -> heap -> Prop)
    (h : heap) : Prop :=
  match m h with
  | (Ok a, h') => Q a h'
  | (Raise _, h') => I h'
  end.

(** [frame n hi h]: the heap [h] has grown from [hi] and agrees with it on
    the cells below [n]. *)
Definition frame (n : nat) (hi h : heap) : Prop :=
  n <= length hi /\ length hi <= length h /\
  forall a, a < n -> cell h a = cell hi a.


(** ** Entries of a DataPool series list *)

(** The key of a term that is a dictionary, which names its series. *)
Definition new_name : value := VStr "_new_name".

(** The series name a term resolves to. *)
Definition term_name (h : heap) (term : value) : option value :=
  match term with
  | VStr _ => Some term
  | VDict t => dict_get (cell h t) new_name
  | _ => None
  end.

(** The heap once [del term['_new_name']] has run, when it does. *)
Definition after_del (term : value) (h : heap) : heap :=
  match term with
  | VDict t =>
      if dict_mem (cell h t) new_name
      then <[t := dict_del (cell h t) new_name]> h
      else h
  | _ => h
  end.

(** The dictionary a term is, when it is one. *)
Definition term_addr (term : value) : list addr :=
  match term with VDict a => [a] | _ => [] end.

(** The (options, term) pairs of an element of the series list, read in
    the heap [h]. *)
Definition sd_entries (h : heap) (sd : value) : list (addr * value) :=
  match sd with
  | VDict s =>
      match dict_get (cell h s) (VStr "options"),
            dict_get (cell h s) (VStr "terms") with
      | Some (VDict o), Some (VList ts) => map (pair o) ts
      | _, _ => []
      end
  | _ => []
  end.

(** All the entries of a series list, in the order they are processed. *)
Definition entries (h : heap) (series_list : list value)
  : list (addr * value) :=
  flat_map (sd_entries h) series_list.

(** The dictionaries that are terms of a list of entries. *)
Definition dict_terms (es : list (addr * value)) : list addr :=
  flat_map (fun e => term_addr (snd e)) es.

(** The loop over the terms of all the elements, as one loop. *)
Definition dps_run (sch : schema) (es : list (addr * value)) (d : dict)
  : M dict :=
  for_each es (fun d e => dps_term sch (fst e) d (snd e)) d.

(** The input is closed in the heap: the elements of the series list and
    the terms that are dictionaries exist, with each key once. *)
Definition closed_input (h : heap) (series_list : list value) : Prop :=
  Forall unique_keys h /\
  Forall (fun sd => forall s, sd = VDict s -> s < length h) series_list /\
  Forall (fun e => forall a, snd e = VDict a -> a < length h)
    (entries h series_list).

(** [old_cells h0 D h]: the heap [h] has grown from [h0], and the
    dictionaries of [h0] are as they were, but for those in [D], which have
    lost ['_new_name']. *)
Definition old_cells (h0 : heap) (D : list addr) (h : heap) : Prop :=
  length h0 <= length h /\
  forall a, a < length h0 ->
    cell h a = if bool_decide (a ∈ D) then dict_del (cell h0 a) new_name
               else cell h0 a.

(** ** Entries of a PivotDataPool series list *)





(** ** Validators, records and series options *)

(** A slot of the triple that is accepted: a value whose truth value is
    false, or a callable. *)
Definition slot_ok (h : heap) (f : value) : Prop :=
  truthy h f = false \/ callable f = true.

(** [labelled sch source c v]: [c] is a valid field lookup on the model of
    the queryset [source], with label [v]. *)
Definition labelled (sch : schema) (source c v : value) : Prop :=
  exists q, source = VQuerySet q /\
    _validate_field_lookup_term sch (Some (qs_model q)) c (qs_query q) = Ok v.

(** The alias map of a list of lookups: its keys are the lookups, each with
    its label. *)
Definition aliases_of (sch : schema) (source : value) (l : list value)
    (d : dict) : Prop :=
  unique_keys d /\
  (forall c, c ∈ l -> exists v, labelled sch source c v /\ dict_get d c = Some v) /\
  (forall kv, kv ∈ d -> fst kv ∈ l).

(** The categories as the loop sees them: a string stands for the list of
    that one string. *)
Definition as_categories (categories : value) : value :=
  if isinstance_str categories then VList [categories] else categories.

(** An entry of the series options that [clean_pcso] accepts: its key names
    a series of the datasource and its value is a dictionary. *)
Definition named_options (ds : DataSource) (item : value * value) : Prop :=
  exists s b, item = (VStr s, VDict b) /\ s ∈ series_keys ds.

(** The messages of [clean_pcso]. *)
Definition not_a_pivot_series (ds : DataSource) (sok : value) : exn :=
  APIInputError
    [Lit "All the series terms must be present in the series dict of the datasource. Got ";
     FmtS sok; Lit ". Allowed values are: ";
     FmtS (VStr (join ", " (series_keys ds)))].

Definition options_not_dict (sod : value) : exn :=
  APIInputError
    [Lit "All the series options must be of the type dict. Got ";
     FmtS sod; Lit " of type "; FmtType sod; Lit " instead."].

(** A computation that leaves the dictionaries it is started with as they
    are, whatever its outcome: it only adds dictionaries to the heap and
    writes to those. *)
Definition preserving {A} (m : M A) : Prop :=
  forall h, wp (frame (length h) h) m (fun _ h' => frame (length h) h h') h.

Module Examples.

(** [[{'options': {'type': 'line'},
       'terms': {'x': ['y', {'x': {'color': 'red'}}]}}]] *)
Definition cso_list_heap : heap :=
  [ [(VStr "options", VDict 1); (VStr "terms", VDict 2)];
    [(VStr "type", VStr "line")];
    [(VStr "x", VList [VStr "y"; VDict 3])];
    [(VStr "x", VDict 4)];
    [(VStr "color", VStr "red")] ].

(** [[{'options': {'type': 'bar'},
       'terms': ['x', 7, {'y': {'color': 'red'}}]}]] *)
Definition pcso_list_heap : heap :=
  [ [(VStr "options", VDict 1); (VStr "terms", VList [VStr "x"; VInt 7; VDict 2])];
    [(VStr "type", VStr "bar")];
    [(VStr "y", VDict 3)];
    [(VStr "color", VStr "red")] ].

End Examples.

(** The elements of a list of series options exist in the heap, with their
    dictionaries of options. *)
Definition closed_options (h : heap) (l : list value) : Prop :=
  Forall (fun stod => forall s, stod = VDict s ->
            s < length h /\
            forall o, dict_get (cell h s) (VStr "options") = Some (VDict o) ->
                      o < length h) l.

(** A record of the map that names its x axis. *)
Definition x_linked (h : heap) (kv : value * value) : Prop :=
  exists rec x, snd kv = VDict rec /\ rec < length h /\
                dict_get (cell h rec) (VStr "_x_axis_term") = Some x.

(** A term that [_convert_pcso_to_dict] looks at. *)
Definition pcso_visible (term : value) : bool :=
  isinstance_str term || isinstance_dict term.

(** [reaches sch model segs model']: the segments [segs] are fields that
    lead from [model] to [model']. *)
Inductive reaches (sch : schema)
  : option string -> list string -> option string -> Prop :=
| reaches_nil model : reaches sch model [] model
| reaches_step model meta names t0 f0 rest model' :
    _meta sch model = Ok meta ->
    get_all_field_names sch meta = Ok names ->
    t0 ∈ names ->
    get_field meta t0 = Ok f0 ->
    reaches sch (next_model model f0) rest model' ->
    reaches sch model (t0 :: rest) model'.

(** A record of the map [clean_dps] returns: its source is a queryset, its
    field is a valid lookup on the model of the source, and it has an
    alias. *)
Definition series_record (sch : schema) (c : dict) : Prop :=
  exists q field label alias,
    dict_get c (VStr "source") = Some (VQuerySet q) /\
    dict_get c (VStr "field") = Some field /\
    _validate_field_lookup_term sch (Some (qs_model q)) field (qs_query q) =
      Ok label /\
    dict_get c (VStr "field_alias") = Some alias.

(** [d.setdefault(k, v)] on the contents of a dictionary. *)
Definition dict_setdefault (d : dict) (k v : value) : dict :=
  if dict_mem d k then d else dict_set d k v.

(** The records of a map, in a heap that has grown from [h0]. *)
Definition records_are (P : dict -> Prop) (h0 h : heap) (d : dict) : Prop :=
  forall kv, kv ∈ d ->
    exists rec, snd kv = VDict rec /\ length h0 <= rec /\ rec < length h /\
                P (cell h rec).

(** A record of the map [clean_pdps] returns. *)
Definition pivot_record (sch : schema) (c : dict) : Prop :=
  exists q func cats lg topn fa,
    dict_get c (VStr "source") = Some (VQuerySet q) /\
    (dict_get c (VStr "func") = Some func /\ isinstance_Aggregate func = true) /\
    (dict_get c (VStr "categories") = Some cats /\
     isinstance_list cats || isinstance_tuple cats = true /\
     elems cats <> [] /\
     Forall (fun c => exists v, labelled sch (VQuerySet q) c v) (elems cats)) /\
    (dict_get c (VStr "legend_by") = Some lg /\
     (lg = VTuple [] \/ isinstance_list lg = true) /\
     Forall (fun c => exists v, labelled sch (VQuerySet q) c v) (elems lg)) /\
    (dict_get c (VStr "top_n_per_cat") = Some topn /\
     isinstance_int topn = true) /\
    dict_get c (VStr "field_aliases") = Some (VDict fa).

(** The records of a map are dictionaries of the heap that satisfy [P]. *)
Definition records_satisfy (P : dict -> Prop) (h : heap) (d : dict) : Prop :=
  forall kv, kv ∈ d ->
    exists rec, snd kv = VDict rec /\ rec < length h /\ P (cell h rec).

(** The record [clean_dps] builds for a term that is a string, from the
    copy [c] of the options: the field is the name of the term unless the
    options give one, and the alias is the label of the field when the name
    is the field, the name otherwise, unless the options give one. *)
Definition string_term_record (c : dict) (s : string) (q : QuerySet)
    (field label : value) : dict :=
  dict_setdefault
    (dict_setdefault (dict_set c (VStr "source") (VQuerySet q))
       (VStr "field") (VStr s))
    (VStr "field_alias")
    (if key_eqb (VStr s) field then label else VStr s).

(** The message for a record without ['source']. *)
Definition missing_source (sd_term : value) : exn :=
  APIInputError [Lit ""; FmtS sd_term; Lit " is missing the 'source' key."].

(** The messages for an element of the list without ['options'] or
    ['terms']: of [clean_dps] and [clean_pdps], and of [clean_pcso] and
    [clean_cso]. *)
Definition missing_key (sd : value) (key : string) : exn :=
  APIInputError
    [FmtS sd; Lit " is missing the '"; FmtS (VStr key); Lit "' key."].

Definition missing_item (stod : value) (key : string) : exn :=
  APIInputError [Lit ""; FmtS stod; Lit (" is missing the '" ++ key ++ "' key.")].

(** Whether the options or the term give the key [k]. *)
Definition given (h : heap) (o : addr) (term : value) (k : string) : bool :=
  dict_mem (cell h o) (VStr k) ||
  match term with
  | VDict t => dict_mem (cell h t) (VStr k)
  | _ => false
  end.

(** The dictionary a term of a pivot series stands for. *)
Definition pivot_term_dict (h : heap) (tv : value) : dict :=
  if isinstance_Aggregate tv then [(VStr "func", tv)]
  else match tv with VDict t => cell h t | _ => [] end.

(** Whether the options or the term of a pivot series give the key [k]. *)
Definition pivot_given (h : heap) (o : addr) (tv : value) (k : string) : bool :=
  dict_mem (cell h o) (VStr k) || dict_mem (pivot_term_dict h tv) (VStr k).

(** The input error whose message is [pre ++ "%s" ++ post] for the value
    [v]. *)
Definition input_error (pre : string) (v : value) (post : string) : exn :=
  APIInputError [Lit pre; FmtS v; Lit post].

(** [touched h0 h]: the heap [h] has grown from [h0], and a dictionary of
    [h0] is as it was or has lost ['_new_name'], which it had. *)
Definition touched (h0 h : heap) : Prop :=
  length h0 <= length h /\
  forall a, a < length h0 ->
    cell h a = cell h0 a \/
    (cell h a = dict_del (cell h0 a) new_name /\
     dict_mem (cell h0 a) new_name = true).

(** A computation that keeps [touched h0]. *)
Definition touching (h0 : heap) {A} (m : M A) : Prop :=
  forall h r h', touched h0 h -> m h = (r, h') -> touched h0 h'.

(** A record whose ['field_aliases'] has an alias for each of its
    categories and each field of its ['legend_by']. *)
Definition aliased_record (h : heap) (c : dict) : Prop :=
  exists cats lg fa,
    dict_get c (VStr "categories") = Some cats /\
    dict_get c (VStr "legend_by") = Some lg /\
    dict_get c (VStr "field_aliases") = Some (VDict fa) /\
    fa < length h /\
    forall k, k ∈ elems cats ++ elems lg -> dict_mem (cell h fa) k = true.





(** * Properties *)

(** ** clean_dps and clean_pdps on inputs that are not a series list *)

Lemma clean_dps_falsy sch h series :
  truthy h series = false ->
  clean_dps sch series h = (Raise cannot_be_empty, h).
Proof. intros Hf. unfold clean_dps, bind, reading. now rewrite Hf. Qed.

Lemma clean_pdps_falsy sch h series :
  truthy h series = false ->
  clean_pdps sch series h = (Raise cannot_be_empty, h).
Proof. intros Hf. unfold clean_pdps, bind, reading. now rewrite Hf. Qed.

Lemma format1_plain pre conv post arg :
  isinstance_tuple arg = false ->
  format1 pre conv post arg = Ok [Lit pre; conv arg; Lit post].
Proof. now destruct arg. Qed.

Lemma clean_dps_not_list sch h series :
  truthy h series = true ->
  isinstance_list series = false ->
  isinstance_tuple series = false ->
  clean_dps sch series h = (Raise (expecting_list series), h).
Proof.
  intros Ht Hl Htu. unfold clean_dps, bind, reading. rewrite Ht. simpl.
  destruct series; try discriminate; reflexivity.
Qed.

Lemma clean_pdps_not_list sch h series :
  truthy h series = true ->
  isinstance_list series = false ->
  isinstance_tuple series = false ->
  clean_pdps sch series h = (Raise (expecting_list series), h).
Proof.
  intros Ht Hl Htu. unfold clean_pdps, bind, reading. rewrite Ht. simpl.
  destruct series; try discriminate; reflexivity.
Qed.

(** C7, as first stated: every input that is not a list is answered with
    the error that names the list type.  [None] is answered with
    "'series' cannot be empty." instead. *)
Lemma clean_dps_none_not_type_error :
  ~ (forall sch h series, isinstance_list series = false ->
       clean_dps sch series h = (Raise (expecting_list series), h)).
Proof.
  intros H. specialize (H Sample.models [] VNone eq_refl). discriminate H.
Qed.

(** C7 (amended): [clean_dps([])] and [clean_pdps([])] fail with
    "'series' cannot be empty.", as does every input whose truth value is
    false; every input whose truth value is true and that is neither a list
    nor a tuple fails with "Expecting a list in place of: ...". *)
Theorem clean_series_rejects_non_list sch h series :
  (clean_dps sch (VList []) h = (Raise cannot_be_empty, h) /\
   clean_pdps sch (VList []) h = (Raise cannot_be_empty, h)) /\
  (truthy h series = false ->
   clean_dps sch series h = (Raise cannot_be_empty, h) /\
   clean_pdps sch series h = (Raise cannot_be_empty, h)) /\
  (truthy h series = true ->
   isinstance_list series = false ->
   isinstance_tuple series = false ->
   clean_dps sch series h = (Raise (expecting_list series), h) /\
   clean_pdps sch series h = (Raise (expecting_list series), h)).
Proof.
  split; [|split].
  - split; [apply clean_dps_falsy | apply clean_pdps_falsy]; reflexivity.
  - intros Hf. split; [apply clean_dps_falsy | apply clean_pdps_falsy]; exact Hf.
  - intros Ht Hl Htu.
    split; [apply clean_dps_not_list | apply clean_pdps_not_list]; assumption.
Qed.

Lemma clean_series_rejects_non_list_witness :
  clean_dps Sample.models (VInt 5) [] = (Raise (expecting_list (VInt 5)), []) /\
  clean_pdps Sample.models (VInt 5) [] = (Raise (expecting_list (VInt 5)), []).
Proof.
  apply (proj2 (proj2 (clean_series_rejects_non_list Sample.models [] (VInt 5))));
    reflexivity.
Defined.

(** ** clean_sortf_mapf_mts *)

(** What the function does on the inputs it handles as intended. *)
Lemma clean_sortf_mapf_mts_cases h v :
  (truthy h v = false -> clean_sortf_mapf_mts h v = Ok default_sortf_mapf_mts) /\
  (forall f g x,
     v = VTuple [f; g; x] ->
     f = VNone \/ callable f = true -> g = VNone \/ callable g = true ->
     clean_sortf_mapf_mts h v = Ok (VTuple [f; g; VBool (truthy h x)])) /\
  (truthy h v = true -> isinstance_tuple v = false ->
   clean_sortf_mapf_mts h v =
     Raise (APIInputError [Lit "sortf_mapf_mts must be a tuple!"])) /\
  (forall f g x,
     v = VTuple [f; g; x] ->
     (truthy h f = true /\ callable f = false) \/
     (truthy h g = true /\ callable g = false) ->
     exists msg, clean_sortf_mapf_mts h v = Raise (APIInputError msg)).
Proof.
  unfold clean_sortf_mapf_mts. repeat split.
  - intros ->. reflexivity.
  - intros f g x -> Hf Hg. simpl.
    assert (truthy h f && negb (callable f) = false) as ->
      by (destruct Hf as [-> | ->]; [reflexivity | apply andb_false_r]).
    assert (truthy h g && negb (callable g) = false) as ->
      by (destruct Hg as [-> | ->]; [reflexivity | apply andb_false_r]).
    reflexivity.
  - intros -> ->. reflexivity.
  - intros f g x -> [[Ht Hc] | [Ht Hc]]; simpl; rewrite ?Ht, ?Hc; simpl.
    + eauto.
    + destruct (truthy h f && negb (callable f)); eauto.
Qed.

(** C8 at a tuple of two elements, or of four and more: the tuple is
    handed to [%] as the argument tuple of a format string with one
    conversion, and the formatting itself raises [TypeError]; no
    [APIInputError] is built. *)
Theorem clean_sortf_mapf_mts_pair h f g x y l :
  clean_sortf_mapf_mts h (VTuple [f; g]) =
    Raise (TypeError "not all arguments converted during string formatting") /\
  clean_sortf_mapf_mts h (VTuple (f :: g :: x :: y :: l)) =
    Raise (TypeError "not all arguments converted during string formatting").
Proof. split; reflexivity. Qed.

(** ** clean_x_sortf_mapf_mts *)

Lemma for_eachR_collect {A B} (f : A -> result B) (l : list A) (acc : list B) :
  for_eachR l (fun cleaned x => c <- f x ;; Ok (cleaned ++ [c]))%R acc =
  (cs <- mapR f l ;; Ok (acc ++ cs))%R.
Proof.
  revert acc. induction l as [|x l IH]; intros acc; simpl.
  - now rewrite app_nil_r.
  - destruct (f x) as [c|e]; simpl; [|reflexivity].
    rewrite IH. destruct (mapR f l); simpl; [|reflexivity].
    now rewrite <- app_assoc.
Qed.

Lemma mapR_Forall2 {A B} (f : A -> result B) (l : list A) (cs : list B) :
  mapR f l = Ok cs <-> Forall2 (fun x c => f x = Ok c) l cs.
Proof.
  revert cs. induction l as [|x l IH]; intros cs; simpl.
  - split.
    + intros [= <-]. constructor.
    + intros H. inversion H. reflexivity.
  - split.
    + destruct (f x) as [c|e] eqn:Hx; simpl; [|discriminate].
      destruct (mapR f l) as [ys|e] eqn:Hl; simpl; [|discriminate].
      intros [= <-]. constructor; [exact Hx | now apply IH].
    + intros H. inversion H as [|? c ? ys Hx Hl]; subst.
      rewrite Hx. simpl. apply IH in Hl. rewrite Hl. reflexivity.
Qed.

Lemma clean_x_nonempty_list h l :
  l <> [] ->
  clean_x_sortf_mapf_mts h (VList l) =
  (cs <- mapR (clean_sortf_mapf_mts h) l ;; Ok (VList cs))%R.
Proof.
  intros Hl. unfold clean_x_sortf_mapf_mts.
  assert (truthy h (VList l) = true) as -> by (destruct l; [easy | reflexivity]).
  simpl. rewrite for_eachR_collect.
  destruct (mapR (clean_sortf_mapf_mts h) l); reflexivity.
Qed.

(** C9, as first stated for every list: the cleaned list has the elements
    of the input cleaned one by one.  The empty list is answered with a list
    of one element. *)
Lemma clean_x_empty_list_not_elementwise :
  ~ (forall h l cs,
       Forall2 (fun x c => clean_sortf_mapf_mts h x = Ok c) l cs ->
       clean_x_sortf_mapf_mts h (VList l) = Ok (VList cs)).
Proof.
  intros H. specialize (H [] [] []). discriminate H. constructor.
Qed.

(** C9 (amended): for every list input that is not empty, the function
    returns the list [cs] exactly when [cs] has, in the same order, the
    result of [clean_sortf_mapf_mts] on each element (so it has the length of
    the input); the empty list is answered with the list of the default
    triple; a tuple is treated as the list of that one tuple. *)
Theorem clean_x_sortf_mapf_mts_elementwise h :
  (forall l cs,
     l <> [] ->
     clean_x_sortf_mapf_mts h (VList l) =
       (cs <- mapR (clean_sortf_mapf_mts h) l ;; Ok (VList cs))%R /\
     (clean_x_sortf_mapf_mts h (VList l) = Ok (VList cs) <->
      Forall2 (fun x c => clean_sortf_mapf_mts h x = Ok c) l cs)) /\
  clean_x_sortf_mapf_mts h (VList []) = Ok (VList [default_sortf_mapf_mts]) /\
  (forall t,
     clean_x_sortf_mapf_mts h (VTuple t) =
     clean_x_sortf_mapf_mts h (VList [VTuple t])).
Proof.
  split; [|split].
  - intros l cs Hl. split; [now apply clean_x_nonempty_list|].
    rewrite clean_x_nonempty_list by exact Hl.
    rewrite <- mapR_Forall2.
    destruct (mapR (clean_sortf_mapf_mts h) l) as [ys|e]; simpl.
    + split; congruence.
    + split; discriminate.
  - reflexivity.
  - intros [|x t]; reflexivity.
Qed.

Lemma clean_x_sortf_mapf_mts_elementwise_witness :
  clean_x_sortf_mapf_mts [] (VList [VTuple [VFunc 0; VNone; VInt 1]; VTuple []]) =
    Ok (VList [VTuple [VFunc 0; VNone; VBool true]; default_sortf_mapf_mts]).
Proof.
  apply (fun H => proj2 (proj1 (clean_x_sortf_mapf_mts_elementwise []) _ _ H)).
  - discriminate.
  - repeat constructor.
Defined.

(** ** Exceptions of other kinds that leave clean_dps and clean_pdps *)

(** A dictionary term without ['_new_name'] ends [dps_term] with
    [KeyError], before anything is written. *)
Lemma dps_term_unnamed sch o d t h :
  dict_get (cell h t) (VStr "_new_name") = None ->
  dps_term sch o d (VDict t) h = (Raise (KeyError (VStr "_new_name")), h).
Proof.
  intros Hg. unfold dps_term, bind, getitem, reading, py_getitem. simpl.
  now rewrite Hg.
Qed.

(** C3 at malformed inputs: a dictionary term without ['_new_name'] leaves
    [clean_dps] with [KeyError]; a series list whose first element is a
    string leaves both functions with [AttributeError]; a tuple of two
    elements or more in place of the series list leaves both with the
    [TypeError] of string formatting. *)
Theorem clean_dps_other_exceptions sch h s l x y :
  clean_dps Sample.models (VList [VDict 0]) Sample.unnamed_heap =
    (Raise (KeyError (VStr "_new_name")), Sample.unnamed_heap) /\
  clean_dps sch (VList (VStr s :: l)) h = (Raise (AttributeError "keys"), h) /\
  clean_pdps sch (VList (VStr s :: l)) h = (Raise (AttributeError "keys"), h) /\
  clean_dps sch (VTuple (x :: y :: l)) h =
    (Raise (TypeError "not all arguments converted during string formatting"),
     h) /\
  clean_pdps sch (VTuple (x :: y :: l)) h =
    (Raise (TypeError "not all arguments converted during string formatting"),
     h).
Proof.
  split; [vm_compute; reflexivity|]. repeat split; reflexivity.
Qed.

(** ** Empty terms *)

(** C4 at [[{'options': {}, 'terms': []}]]: [clean_pcso] has no test for
    an empty ['terms'] list and returns the empty map, while [clean_dps] on
    the same input raises "'terms' cannot be empty.". *)
Theorem clean_pcso_accepts_empty_terms :
  clean_pcso (VList [VDict 0]) Sample.pool Sample.empty_terms_heap =
    (Ok (VDict 2), Sample.empty_terms_heap ++ [[]]) /\
  clean_dps Sample.models (VList [VDict 0]) Sample.empty_terms_heap =
    (Raise (APIInputError [Lit "'terms' cannot be empty."]),
     Sample.empty_terms_heap).
Proof. split; vm_compute; reflexivity. Qed.

(** ** clean_cso on a dictionary *)

Arguments series_data : simpl never.

Lemma series_data_known ds s :
  s ∈ series_keys ds -> exists n, series_data ds (VStr s) = Ok n.
Proof.
  unfold series_keys, series_data. intros Hin.
  apply list_elem_of_fmap in Hin as [[k e] [-> Hin]]. simpl.
  destruct (find _ _) eqn:Hf; [eauto|].
  apply list_elem_of_In in Hin.
  apply (find_none _ _ Hf) in Hin. simpl in Hin.
  now rewrite String.eqb_refl in Hin.
Qed.

Lemma py_in_strs_raise x keys e :
  py_in_strs x keys = Raise e -> e = TypeError "unhashable type".
Proof.
  destruct x; simpl; try discriminate; try congruence.
  destruct (forallb _ _); [discriminate | congruence].
Qed.

(** The four ways [cso_check] ends on an entry whose key names a series
    and whose value is a dictionary. *)
Lemma cso_check_dict ds h s b :
  s ∈ series_keys ds ->
  cso_check ds h (VStr s, VDict b) =
  match dict_get (cell h b) (VStr "_x_axis_term") with
  | None => Raise (no_x_axis_term (VDict b))
  | Some x =>
      match py_in_strs x (series_keys ds) with
      | Raise e => Raise e
      | Ok false => Raise (not_a_series ds x)
      | Ok true =>
          (data <- series_data ds (VStr s) ;;
           x_data <- series_data ds x ;;
           if negb (Nat.eqb data x_data)
           then Raise (not_same_table (VStr s) x)
           else Ok tt)%R
      end
  end.
Proof.
  intros Hs. unfold cso_check. simpl.
  rewrite bool_decide_eq_true_2 by exact Hs. simpl.
  destruct (dict_get _ _) as [x|]; simpl; [|reflexivity].
  destruct (py_in_strs x (series_keys ds)) as [[|]|e] eqn:Hx; simpl;
    try reflexivity.
  apply py_in_strs_raise in Hx as ->. reflexivity.
Qed.

Lemma py_in_strs_true x keys :
  py_in_strs x keys = Ok true <-> exists s, x = VStr s /\ s ∈ keys.
Proof.
  split.
  - destruct x; simpl; try (destruct (forallb _ _)); try discriminate.
    intros [= H]. apply bool_decide_eq_true in H. eauto.
  - intros (s & -> & Hs). simpl. now rewrite bool_decide_eq_true_2.
Qed.

(** What [cso_check] does on any entry, by cases on the entry. *)
Lemma cso_check_cases ds h sok sod :
  (exists s b, sok = VStr s /\ sod = VDict b /\ s ∈ series_keys ds) \/
  (exists e, cso_check ds h (sok, sod) = Raise e /\
             forall k x, e <> not_same_table k x).
Proof.
  unfold cso_check. simpl fst. simpl snd.
  destruct (py_in_strs sok (series_keys ds)) as [[|]|e] eqn:Hk; simpl.
  - apply py_in_strs_true in Hk as (s & -> & Hs).
    destruct sod; simpl;
      try (right; eexists; split; [reflexivity | intros; discriminate]).
    left. eauto.
  - right. eexists. split; [reflexivity | intros; discriminate].
  - right. apply py_in_strs_raise in Hk as ->.
    eexists. split; [reflexivity | intros; discriminate].
Qed.

Lemma cso_check_ok ds h item :
  cso_check ds h item = Ok tt <-> linked ds h item.
Proof.
  split.
  - destruct item as [sok sod].
    destruct (cso_check_cases ds h sok sod)
      as [(s & b & -> & -> & Hs) | (e & -> & _)]; [|discriminate].
    rewrite cso_check_dict by exact Hs.
    destruct (dict_get (cell h b) (VStr "_x_axis_term")) as [x|] eqn:Hx;
      [|discriminate].
    destruct (py_in_strs x (series_keys ds)) as [[|]|e] eqn:Hxk;
      try discriminate.
    apply py_in_strs_true in Hxk as (x' & -> & Hx').
    destruct (series_data_known ds s Hs) as [n Hn].
    destruct (series_data_known ds x' Hx') as [m Hm].
    rewrite Hn, Hm. simpl.
    destruct (Nat.eqb n m) eqn:Hnm; simpl; [|discriminate].
    apply Nat.eqb_eq in Hnm as ->. intros _.
    exists s, b, x'. rewrite Hn, Hm. auto.
  - intros (s & b & x & -> & Hs & Hx & Hxk & Hd).
    rewrite cso_check_dict by exact Hs. rewrite Hx. simpl.
    rewrite bool_decide_eq_true_2 by exact Hxk.
    destruct (series_data_known ds s Hs) as [n Hn].
    destruct (series_data_known ds x Hxk) as [m Hm].
    rewrite Hn, Hm in Hd |- *. injection Hd as ->. simpl.
    now rewrite Nat.eqb_refl.
Qed.

Lemma cso_check_mismatch ds h item k x :
  cso_check ds h item = Raise (not_same_table k x) ->
  series_data ds k <> series_data ds x.
Proof.
  destruct item as [sok sod].
  destruct (cso_check_cases ds h sok sod)
    as [(s & b & -> & -> & Hs) | (e & -> & Hne)].
  - rewrite cso_check_dict by exact Hs.
    destruct (dict_get (cell h b) (VStr "_x_axis_term")) as [y|] eqn:Hy;
      [|discriminate].
    destruct (py_in_strs y (series_keys ds)) as [[|]|e] eqn:Hyk;
      try discriminate.
    + apply py_in_strs_true in Hyk as (y' & -> & Hy').
      destruct (series_data_known ds s Hs) as [n Hn].
      destruct (series_data_known ds y' Hy') as [m Hm].
      rewrite Hn, Hm. simpl.
      destruct (Nat.eqb n m) eqn:Hnm; simpl; [discriminate|].
      intros [= <- <-]. rewrite Hn, Hm. intros [= ->].
      now rewrite Nat.eqb_refl in Hnm.
    + apply py_in_strs_raise in Hyk as ->. discriminate.
  - intros [= ->]. now destruct (Hne k x).
Qed.

(** A loop of checks that only read the heap. *)
Lemma for_each_checks_ok {A} (f : heap -> A -> result unit) l h :
  Forall (fun x => f h x = Ok tt) l ->
  for_each l (fun _ x => reading (fun h => f h x)) tt h = (Ok tt, h).
Proof.
  induction 1 as [|x l Hx _ IH]; simpl; [reflexivity|].
  unfold bind, reading. rewrite Hx. exact IH.
Qed.

Lemma for_each_checks_raise {A} (f : heap -> A -> result unit) pre x post h e :
  Forall (fun x => f h x = Ok tt) pre ->
  f h x = Raise e ->
  for_each (pre ++ x :: post) (fun _ x => reading (fun h => f h x)) tt h =
    (Raise e, h).
Proof.
  induction 1 as [|y l Hy _ IH]; simpl; intros Hx.
  - unfold bind, reading. now rewrite Hx.
  - unfold bind, reading. rewrite Hy. now apply IH.
Qed.

Lemma for_each_checks_inv {A} (f : heap -> A -> result unit) l h r h' :
  for_each l (fun _ x => reading (fun h => f h x)) tt h = (r, h') ->
  h' = h /\
  match r with
  | Ok _ => Forall (fun x => f h x = Ok tt) l
  | Raise e => exists x, x ∈ l /\ f h x = Raise e
  end.
Proof.
  induction l as [|x l IH]; simpl.
  - intros [= <- <-]. split; [reflexivity | constructor].
  - unfold bind at 1, reading at 1.
    destruct (f h x) as [[]|e] eqn:Hx.
    + intros H. apply IH in H as [-> H]. split; [reflexivity|].
      destruct r as [u|e].
      * now constructor.
      * destruct H as (y & Hy & He). exists y. split; [now right | exact He].
    + intros [= <- <-]. split; [reflexivity|].
      exists x. split; [now left | exact Hx].
Qed.

(** *** Empty terms, in general *)

Lemma dict_mem_keys d k :
  dict_mem d k = existsb (fun k' => key_eqb k' k) (map fst d).
Proof.
  unfold dict_mem. induction d as [|[k' v] d IH]; simpl; [reflexivity|].
  now destruct (key_eqb k' k).
Qed.

Lemma require_keys_present s keys h :
  Forall (fun k => dict_mem (cell h s) (VStr k) = true) keys ->
  require_keys (VDict s) keys h = (Ok tt, h).
Proof.
  intros Hk. unfold require_keys.
  apply (for_each_checks_ok
           (fun h _key =>
              (ks <- py_keys h (VDict s) ;;
               if negb (existsb (fun k => key_eqb k (VStr _key)) ks)
               then Raise (APIInputError
                      [FmtS (VDict s); Lit " is missing the '";
                       FmtS (VStr _key); Lit "' key."])
               else Ok tt)%R)).
  eapply Forall_impl; [exact Hk|]. intros k Hm. simpl.
  now rewrite <- dict_mem_keys, Hm.
Qed.

Lemma dict_get_mem d k v : dict_get d k = Some v -> dict_mem d k = true.
Proof. unfold dict_mem. now intros ->. Qed.

(** An element of the series list with an empty ['terms'] is rejected by
    [_convert_dps_to_dict], [_convert_pdps_to_dict] and
    [_convert_cso_to_dict] ... *)
Lemma dps_sd_empty_terms sch d s o h :
  dict_get (cell h s) (VStr "options") = Some (VDict o) ->
  dict_get (cell h s) (VStr "terms") = Some (VList []) ->
  dps_sd sch d (VDict s) h =
    (Raise (APIInputError [Lit "'terms' cannot be empty."]), h).
Proof.
  intros Ho Ht. unfold dps_sd, bind.
  rewrite require_keys_present
    by (repeat constructor; eapply dict_get_mem; eassumption).
  unfold reading, py_getitem. simpl. now rewrite Ho, Ht.
Qed.

Lemma pdps_sd_empty_terms sch d s o tm h :
  dict_get (cell h s) (VStr "options") = Some (VDict o) ->
  dict_get (cell h s) (VStr "terms") = Some (VDict tm) ->
  cell h tm = [] ->
  pdps_sd sch d (VDict s) h =
    (Raise (APIInputError [Lit "'terms' cannot be empty."]), h).
Proof.
  intros Ho Ht Hc. unfold pdps_sd, bind.
  rewrite require_keys_present
    by (repeat constructor; eapply dict_get_mem; eassumption).
  unfold reading, py_getitem. simpl. now rewrite Ho, Ht, Hc.
Qed.

Lemma cso_stod_empty_terms d s o tm h :
  dict_get (cell h s) (VStr "options") = Some (VDict o) ->
  dict_get (cell h s) (VStr "terms") = Some (VDict tm) ->
  cell h tm = [] ->
  cso_stod d (VDict s) h =
    (Raise (APIInputError [Lit "'terms' dict cannot be empty."]), h).
Proof.
  intros Ho Ht Hc.
  unfold cso_stod, bind, reading, stod_item, py_getitem, except_KeyError.
  simpl. rewrite Ho. simpl. rewrite Ht. simpl. now rewrite Hc.
Qed.

(** ... and passed over by [_convert_pcso_to_dict]: the map is returned
    as it was. *)
Lemma pcso_stod_empty_terms d s o h :
  dict_get (cell h s) (VStr "options") = Some (VDict o) ->
  dict_get (cell h s) (VStr "terms") = Some (VList []) ->
  pcso_stod d (VDict s) h = (Ok d, h).
Proof.
  intros Ho Ht.
  unfold pcso_stod, bind, reading, stod_item, py_getitem, except_KeyError.
  simpl. rewrite Ho. simpl. now rewrite Ht.
Qed.

Lemma clean_cso_dict_run ds h a :
  clean_cso (VDict a) ds h =
  match for_each (cell h a)
          (fun _ item => reading (fun h => cso_check ds h item)) tt h with
  | (Ok _, h') => (Ok (VDict a), h')
  | (Raise e, h') => (Raise e, h')
  end.
Proof.
  simpl. unfold clean_cso_dict, bind, reading, ret.
  now destruct (for_each _ _ _ _) as [[[]|e] h'].
Qed.

Lemma clean_cso_dict_ok ds h a :
  clean_cso (VDict a) ds h = (Ok (VDict a), h) <->
  Forall (linked ds h) (cell h a).
Proof.
  rewrite clean_cso_dict_run. split.
  - destruct (for_each _ _ _ _) as [[[]|e] h'] eqn:Hl; [|discriminate].
    intros _. apply for_each_checks_inv in Hl as [_ Hl].
    eapply Forall_impl; [exact Hl|]. intros x. apply cso_check_ok.
  - intros H. rewrite (for_each_checks_ok (cso_check ds)); [reflexivity|].
    eapply Forall_impl; [exact H|]. intros x. apply cso_check_ok.
Qed.

Lemma clean_cso_dict_raise ds h a pre item post e :
  cell h a = pre ++ item :: post ->
  Forall (linked ds h) pre ->
  cso_check ds h item = Raise e ->
  clean_cso (VDict a) ds h = (Raise e, h).
Proof.
  intros Hc Hpre He. rewrite clean_cso_dict_run, Hc.
  rewrite (for_each_checks_raise (cso_check ds) pre item post h e);
    [reflexivity | | exact He].
  eapply Forall_impl; [exact Hpre|]. intros x. apply cso_check_ok.
Qed.

Lemma clean_cso_dict_mismatch ds h a k x h' :
  clean_cso (VDict a) ds h = (Raise (not_same_table k x), h') ->
  series_data ds k <> series_data ds x.
Proof.
  rewrite clean_cso_dict_run.
  destruct (for_each _ _ _ _) as [[[]|e] h''] eqn:Hl; [discriminate|].
  intros [= -> ->]. apply for_each_checks_inv in Hl as [_ (y & _ & Hy)].
  eapply cso_check_mismatch, Hy.
Qed.

(** C5: on a dictionary of series options, [clean_cso] returns that
    dictionary, leaving it as it is, exactly when every entry is linked to
    an x-axis series of the same table.  At the first entry that is not (its
    key naming a series, its value a dictionary): without ['_x_axis_term']
    the error asks for one; with one that names no series the error lists
    the series; with one that names a series, the error is the mismatch
    error exactly when the two data tables differ. *)
Theorem clean_cso_x_axis_term ds h a :
  (clean_cso (VDict a) ds h = (Ok (VDict a), h) <->
   Forall (linked ds h) (cell h a)) /\
  (forall pre s b post,
     cell h a = pre ++ (VStr s, VDict b) :: post ->
     Forall (linked ds h) pre ->
     s ∈ series_keys ds ->
     (dict_get (cell h b) (VStr "_x_axis_term") = None ->
      clean_cso (VDict a) ds h = (Raise (no_x_axis_term (VDict b)), h)) /\
     (forall x,
        dict_get (cell h b) (VStr "_x_axis_term") = Some (VStr x) ->
        (x ∉ series_keys ds ->
         clean_cso (VDict a) ds h = (Raise (not_a_series ds (VStr x)), h)) /\
        (x ∈ series_keys ds ->
         (series_data ds (VStr s) <> series_data ds (VStr x) <->
          clean_cso (VDict a) ds h =
            (Raise (not_same_table (VStr s) (VStr x)), h)) /\
         (series_data ds (VStr s) = series_data ds (VStr x) ->
          Forall (linked ds h) post ->
          clean_cso (VDict a) ds h = (Ok (VDict a), h))))).
Proof.
  split; [apply clean_cso_dict_ok|].
  intros pre s b post Hc Hpre Hs. split; [|intros x Hx; split].
  - intros Hx. eapply clean_cso_dict_raise; [exact Hc | exact Hpre |].
    rewrite cso_check_dict by exact Hs. now rewrite Hx.
  - intros Hxk. eapply clean_cso_dict_raise; [exact Hc | exact Hpre |].
    rewrite cso_check_dict by exact Hs. rewrite Hx. simpl.
    now rewrite bool_decide_eq_false_2.
  - intros Hxk.
    destruct (series_data_known ds s Hs) as [n Hn].
    destruct (series_data_known ds x Hxk) as [m Hm].
    assert (Hitem : cso_check ds h (VStr s, VDict b) =
                    if Nat.eqb n m then Ok tt
                    else Raise (not_same_table (VStr s) (VStr x))).
    { rewrite cso_check_dict by exact Hs. rewrite Hx. simpl.
      rewrite bool_decide_eq_true_2 by exact Hxk. rewrite Hn, Hm. simpl.
      now destruct (Nat.eqb n m). }
    split.
    + split.
      * intros Hne. eapply clean_cso_dict_raise; [exact Hc | exact Hpre |].
        rewrite Hitem. destruct (Nat.eqb n m) eqn:E; [|reflexivity].
        apply Nat.eqb_eq in E. congruence.
      * apply clean_cso_dict_mismatch.
    + rewrite Hn, Hm. intros [= ->] Hpost. apply clean_cso_dict_ok. rewrite Hc.
      apply Forall_app. split; [exact Hpre|]. constructor; [|exact Hpost].
      apply cso_check_ok. rewrite Hitem. now rewrite Nat.eqb_refl.
Qed.

Lemma clean_cso_x_axis_term_witness :
  clean_cso (VDict 0) Sample.pool Sample.cso_heap =
    (Ok (VDict 0), Sample.cso_heap) /\
  clean_cso (VDict 2) Sample.pool Sample.cso_heap =
    (Raise (not_same_table (VStr "z") (VStr "x")), Sample.cso_heap).
Proof.
  split.
  - apply (proj1 (clean_cso_x_axis_term Sample.pool Sample.cso_heap 0)).
    repeat constructor. exists "y", 1, "x". repeat split; vm_compute; auto.
    all: set_solver.
  - apply (proj2 (clean_cso_x_axis_term Sample.pool Sample.cso_heap 2)
             [] "z" 1 [] eq_refl (Forall_nil_2 _)).
    + vm_compute. set_solver.
    + reflexivity.
    + vm_compute. set_solver.
    + vm_compute. discriminate.
Defined.

(** ** Reasoning about computations on the heap *)

Lemma bind_ok_inv {A B} (m : M A) (k : A -> M B) h b h' :
  bind m k h = (Ok b, h') ->
  exists a h1, m h = (Ok a, h1) /\ k a h1 = (Ok b, h').
Proof.
  unfold bind. destruct (m h) as [[a|e] h1]; [eauto | discriminate].
Qed.

Lemma bind_inv {A B} (m : M A) (k : A -> M B) h r h' :
  bind m k h = (r, h') ->
  (exists a h1, m h = (Ok a, h1) /\ k a h1 = (r, h')) \/
  (exists e, m h = (Raise e, h') /\ r = Raise e).
Proof.
  unfold bind. destruct (m h) as [[a|e] h1]; [eauto|].
  intros [= <- <-]. eauto.
Qed.

Lemma reading_ok_inv {A} (f : heap -> result A) h a h' :
  reading f h = (Ok a, h') -> h' = h /\ f h = Ok a.
Proof. unfold reading. intros [= -> ->]. auto. Qed.

Lemma lift_ok_inv {A} (r : result A) h a h' :
  lift r h = (Ok a, h') -> h' = h /\ r = Ok a.
Proof. unfold lift. intros [= -> ->]. auto. Qed.

Lemma ret_ok_inv {A} (x a : A) h h' :
  ret x h = (Ok a, h') -> h' = h /\ a = x.
Proof. unfold ret. intros [= -> ->]. auto. Qed.

(** Split a successful [bind] in hypothesis [H] into its two runs. *)
Ltac bind_ok H x h Hx :=
  apply bind_ok_inv in H as (x & h & Hx & H).

(** A property that every successful run of the body establishes holds
    after a loop that ran the body at least once. *)
Lemma for_each_ok_post {A S} (Q : S -> Prop) (body : S -> A -> M S) l s h s' h' :
  (forall s x h s' h', body s x h = (Ok s', h') -> Q s') ->
  for_each l body s h = (Ok s', h') ->
  (l = [] /\ s' = s) \/ Q s'.
Proof.
  intros Hbody. revert s h. induction l as [|x l IH]; intros s h; simpl.
  - intros H. apply ret_ok_inv in H as [_ ->]. auto.
  - intros H. bind_ok H s1 h1 H1.
    right. apply IH in H as [[-> ->] | H]; [|exact H].
    eapply Hbody, H1.
Qed.

Lemma dict_set_nonempty d k v : dict_set d k v <> [].
Proof. destruct d as [|[k' v'] d]; simpl; [|destruct (key_eqb k' k)]; discriminate. Qed.

Lemma raise_format1_not_ok {A} pre conv post arg (a : A) :
  raise_format1 pre conv post arg <> Ok a.
Proof.
  unfold raise_format1. destruct (format1 pre conv post arg); discriminate.
Qed.

(** ** The maps that clean_dps and clean_pdps return *)

Lemma dps_term_nonempty sch options d term h d' h' :
  dps_term sch options d term h = (Ok d', h') -> d' <> [].
Proof.
  unfold dps_term. intros H. bind_ok H named h1 H1. cbv zeta in H.
  bind_ok H hs h2 H2. destruct hs; simpl in H.
  - bind_ok H x3 h3 H3. bind_ok H x4 h4 H4. bind_ok H x5 h5 H5.
    bind_ok H x6 h6 H6. bind_ok H x7 h7 H7. bind_ok H x8 h8 H8.
    bind_ok H x9 h9 H9. bind_ok H x10 h10 H10. bind_ok H x11 h11 H11.
    bind_ok H x12 h12 H12. apply ret_ok_inv in H as [_ ->].
    apply dict_set_nonempty.
  - apply lift_ok_inv in H as [_ H]. now apply raise_format1_not_ok in H.
Qed.

Lemma dps_sd_nonempty sch d sd h d' h' :
  dps_sd sch d sd h = (Ok d', h') -> d' <> [].
Proof.
  unfold dps_sd. intros H. bind_ok H u h1 H1. bind_ok H options h2 H2.
  destruct options;
    try (apply lift_ok_inv in H as [_ H]; now apply raise_format1_not_ok in H).
  bind_ok H terms h3 H3.
  destruct terms as [| | | | |term_list| | | | |];
    try (apply lift_ok_inv in H as [_ H]; now apply raise_format1_not_ok in H).
  destruct term_list as [|t ts]; [discriminate|].
  eapply (for_each_ok_post (fun d => d <> [])) in H as [[? _]|H];
    [discriminate | exact H |].
  intros. eapply dps_term_nonempty; eauto.
Qed.

Lemma pdps_term_nonempty sch options d item h d' h' :
  pdps_term sch options d item h = (Ok d', h') -> d' <> [].
Proof.
  unfold pdps_term. intros H. cbv zeta in H.
  repeat (let x := fresh "x" in let h := fresh "h" in let Hx := fresh "Hx" in
          bind_ok H x h Hx).
  apply ret_ok_inv in H as [_ ->]. apply dict_set_nonempty.
Qed.

Lemma pdps_sd_nonempty sch d sd h d' h' :
  pdps_sd sch d sd h = (Ok d', h') -> d' <> [].
Proof.
  unfold pdps_sd. intros H. bind_ok H u h1 H1. bind_ok H options h2 H2.
  destruct options;
    try (apply lift_ok_inv in H as [_ H]; now apply raise_format1_not_ok in H).
  bind_ok H terms h3 H3.
  destruct terms;
    try (apply lift_ok_inv in H as [_ H]; now apply raise_format1_not_ok in H).
  bind_ok H nonempty h4 H4. apply reading_ok_inv in H4 as [-> [= <-]].
  simpl in H. destruct (cell h3 a0) as [|it items] eqn:Hc; [discriminate|].
  simpl negb in H. cbv iota in H.
  bind_ok H its h5 H5. apply reading_ok_inv in H5 as [-> [= <-]].
  rewrite Hc in H.
  eapply (for_each_ok_post (fun d => d <> [])) in H as [[? _]|H];
    [discriminate | exact H |].
  intros. eapply pdps_term_nonempty; eauto.
Qed.

Lemma alloc_ok_inv d h a h' :
  alloc d h = (Ok a, h') -> a = length h /\ h' = h ++ [d].
Proof. unfold alloc. intros [= <- <-]. auto. Qed.

Lemma cell_alloc h d : cell (h ++ [d]) (length h) = d.
Proof.
  unfold cell. rewrite lookup_app_r by lia. now rewrite Nat.sub_diag.
Qed.

Lemma convert_result_truthy {A}
    (body : dict -> A -> M dict) (l : list A) h v h' :
  (forall d x h d' h', body d x h = (Ok d', h') -> d' <> []) ->
  l <> [] ->
  (series_dict <- for_each l body [] ;;
   r <- alloc series_dict ;; ret (VDict r))%M h = (Ok v, h') ->
  isinstance_dict v = true /\ truthy h' v = true.
Proof.
  intros Hbody Hl H. bind_ok H d h1 H1. bind_ok H r h2 H2.
  apply alloc_ok_inv in H2 as [-> ->]. apply ret_ok_inv in H as [-> ->].
  split; [reflexivity|]. simpl. rewrite cell_alloc.
  eapply (for_each_ok_post (fun d => d <> [])) in H1 as [[? _]|H1];
    [contradiction | | exact Hbody].
  now destruct d.
Qed.

Lemma clean_dps_ok_inv sch series h v h' :
  clean_dps sch series h = (Ok v, h') ->
  isinstance_dict v = true /\ truthy h' v = true.
Proof.
  unfold clean_dps. intros H. bind_ok H ne h1 H1.
  apply reading_ok_inv in H1 as [-> [= <-]].
  destruct (truthy h series) eqn:Ht; simpl in H; [|discriminate].
  destruct series;
    try (apply lift_ok_inv in H as [_ H]; now apply raise_format1_not_ok in H).
  eapply convert_result_truthy; [| |exact H].
  - intros. eapply dps_sd_nonempty; eauto.
  - now destruct vs.
Qed.

Lemma clean_pdps_ok_inv sch series h v h' :
  clean_pdps sch series h = (Ok v, h') ->
  isinstance_dict v = true /\ truthy h' v = true.
Proof.
  unfold clean_pdps. intros H. bind_ok H ne h1 H1.
  apply reading_ok_inv in H1 as [-> [= <-]].
  destruct (truthy h series) eqn:Ht; simpl in H; [|discriminate].
  destruct series;
    try (apply lift_ok_inv in H as [_ H]; now apply raise_format1_not_ok in H).
  eapply convert_result_truthy; [| |exact H].
  - intros. eapply pdps_sd_nonempty; eauto.
  - now destruct vs.
Qed.

(** C2, as first stated: the map that [clean_dps] returns is accepted and
    returned unchanged by [clean_dps].  It is rejected. *)
Lemma clean_dps_not_idempotent :
  ~ (forall sch series h v h',
       clean_dps sch series h = (Ok v, h') ->
       clean_dps sch v h' = (Ok v, h')).
Proof.
  intros H.
  destruct (clean_dps Sample.models Sample.dps_series Sample.dps_heap)
    as [[v|e] h'] eqn:E.
  - specialize (H _ _ _ _ _ E). vm_compute in E. injection E as <- <-.
    vm_compute in H. discriminate H.
  - vm_compute in E. discriminate E.
Qed.

(** C2 (amended): [clean_dps] and [clean_pdps] accept a series list only.
    The map that either returns is a dictionary that is not empty, and each
    function answers its own result with the input error
    "Expecting a list in place of: ...", leaving the heap as it is. *)
Theorem clean_dps_rejects_its_result sch series h v h' :
  (clean_dps sch series h = (Ok v, h') ->
   clean_dps sch v h' = (Raise (expecting_list v), h')) /\
  (clean_pdps sch series h = (Ok v, h') ->
   clean_pdps sch v h' = (Raise (expecting_list v), h')).
Proof.
  split; intros H.
  - apply clean_dps_ok_inv in H as [Hd Ht].
    apply clean_dps_not_list; [exact Ht | |]; now destruct v.
  - apply clean_pdps_ok_inv in H as [Hd Ht].
    apply clean_pdps_not_list; [exact Ht | |]; now destruct v.
Qed.

Lemma clean_dps_rejects_its_result_witness :
  let run := clean_dps Sample.models Sample.dps_series Sample.dps_heap in
  clean_dps Sample.models (VDict 12) (snd run) =
    (Raise (expecting_list (VDict 12)), snd run).
Proof.
  apply (proj1 (clean_dps_rejects_its_result
                  Sample.models Sample.dps_series Sample.dps_heap (VDict 12) _)).
  vm_compute. reflexivity.
Defined.

(** ** Splitting and joining a field lookup *)

Lemma string_length_append (s t : string) :
  String.length (s ++ t) = String.length s + String.length t.
Proof. induction s as [|c s IH]; simpl; [reflexivity | now rewrite IH]. Qed.

Lemma is_underscore_eq c : is_underscore c = true -> c = "_"%char.
Proof. apply Ascii.eqb_eq. Qed.

Lemma split_dunder_cons c s' :
  split_dunder (String c s') =
  match s' with
  | String c' rest =>
      if is_underscore c && is_underscore c'
      then EmptyString :: split_dunder rest
      else match split_dunder s' with
           | seg :: segs => String c seg :: segs
           | [] => [String c EmptyString]
           end
  | EmptyString => [String c EmptyString]
  end.
Proof. destruct s'; reflexivity. Qed.

Lemma split_dunder_nonempty s : split_dunder s <> [].
Proof.
  destruct s as [|c s']; [discriminate|]. rewrite split_dunder_cons.
  destruct s' as [|c' rest]; [discriminate|].
  destruct (is_underscore c && is_underscore c'); [discriminate|].
  destruct (split_dunder (String c' rest)); discriminate.
Qed.

Lemma join_cons sep x y l :
  join sep (x :: y :: l) = (x ++ sep ++ join sep (y :: l))%string.
Proof. reflexivity. Qed.

Lemma join_cons_char sep c seg segs :
  join sep (String c seg :: segs) = String c (join sep (seg :: segs)).
Proof. destruct segs; reflexivity. Qed.

(** Joining the segments of a term gives the term back. *)
Lemma join_split_dunder s : join "__" (split_dunder s) = s.
Proof.
  remember (String.length s) as n eqn:Hn.
  revert s Hn. induction n as [n IH] using lt_wf_ind. intros s Hn.
  destruct s as [|c s']; [reflexivity|]. rewrite split_dunder_cons.
  destruct s' as [|c' rest]; [reflexivity|].
  destruct (is_underscore c && is_underscore c') eqn:Hu.
  - apply andb_true_iff in Hu as [Hc Hc'].
    apply is_underscore_eq in Hc as ->. apply is_underscore_eq in Hc' as ->.
    destruct (split_dunder rest) as [|seg segs] eqn:Hr;
      [now apply split_dunder_nonempty in Hr|].
    rewrite join_cons, <- Hr.
    rewrite (IH (String.length rest)); [reflexivity | | reflexivity].
    subst n. simpl. lia.
  - destruct (split_dunder (String c' rest)) as [|seg segs] eqn:Hr;
      [now apply split_dunder_nonempty in Hr|].
    rewrite join_cons_char, <- Hr.
    rewrite (IH (String.length (String c' rest))); [reflexivity | | reflexivity].
    subst n. simpl. lia.
Qed.

(** The rest of a lookup, joined again, splits into the same segments:
    the recursive call sees the segments that are left. *)
Lemma split_join_tail s :
  tl (split_dunder s) <> [] ->
  split_dunder (join "__" (tl (split_dunder s))) = tl (split_dunder s).
Proof.
  induction s as [|c s' IH]; [now intros []|].
  rewrite split_dunder_cons. destruct s' as [|c' rest]; [now intros []|].
  destruct (is_underscore c && is_underscore c').
  - intros _. simpl tl. now rewrite join_split_dunder.
  - destruct (split_dunder (String c' rest)) as [|seg segs] eqn:Hr;
      [now intros []|].
    simpl tl in *. exact IH.
Qed.

Lemma join_tail_shorter s :
  tl (split_dunder s) <> [] ->
  String.length (join "__" (tl (split_dunder s))) < String.length s.
Proof.
  intros Ht. rewrite <- (join_split_dunder s) at 2.
  destruct (split_dunder s) as [|t0 [|t1 rest]]; [easy | easy |].
  rewrite join_cons. simpl tl.
  rewrite !string_length_append. simpl. lia.
Qed.

(** ** The recursion of _validate_field_lookup_term *)

Lemma knownb_spec query term : knownb query term = true <-> known query term.
Proof.
  unfold knownb, known. rewrite orb_true_iff, !bool_decide_eq_true. tauto.
Qed.

Lemma rec_succ fuel sch model term query :
  validate_field_lookup_term_rec (S fuel) sch model (VStr term) query =
  lookup_equation
    (fun m t => validate_field_lookup_term_rec fuel sch m (VStr t) query)
    sch model term query.
Proof.
  simpl. unfold lookup_equation, knownb.
  destruct (bool_decide (term ∈ annotations query)); reflexivity.
Qed.

Lemma lookup_equation_ext self1 self2 sch model term query :
  (forall m, tl (split_dunder term) <> [] ->
     self1 m (join "__" (tl (split_dunder term))) =
     self2 m (join "__" (tl (split_dunder term)))) ->
  lookup_equation self1 sch model term query =
  lookup_equation self2 sch model term query.
Proof.
  intros H. unfold lookup_equation.
  destruct (knownb query term); [reflexivity|]. cbv zeta.
  destruct (_meta sch model) as [meta|]; [|reflexivity]. simpl.
  destruct (get_all_field_names sch meta) as [names|]; [|reflexivity]. simpl.
  destruct (negb _); [reflexivity|].
  destruct (Nat.eqb _ 1) eqn:Hlen; [reflexivity|].
  destruct (get_field _ _) as [field|]; [|reflexivity]. simpl.
  apply H. apply Nat.eqb_neq in Hlen.
  pose proof (split_dunder_nonempty term).
  destruct (split_dunder term) as [|t0 [|t1 rest]]; simpl in *; congruence.
Qed.

Lemma rec_fuel_enough fuel sch model term query :
  String.length term < fuel ->
  validate_field_lookup_term_rec fuel sch model (VStr term) query =
  validate_field_lookup_term_rec (S (String.length term)) sch model
    (VStr term) query.
Proof.
  remember (String.length term) as n eqn:Hn.
  revert fuel model term Hn. induction n as [n IH] using lt_wf_ind.
  intros fuel model term Hn Hlt.
  destruct fuel as [|fuel]; [lia|].
  rewrite !rec_succ. apply lookup_equation_ext. intros m Ht.
  pose proof (join_tail_shorter term Ht) as Hs. rewrite <- Hn in Hs.
  rewrite (IH _ Hs fuel m _ eq_refl) by lia.
  rewrite (IH _ Hs n m _ eq_refl) by lia.
  reflexivity.
Qed.

Lemma validate_field_lookup_term_unfold sch model term query :
  _validate_field_lookup_term sch model (VStr term) query =
  lookup_equation
    (fun m t => _validate_field_lookup_term sch m (VStr t) query)
    sch model term query.
Proof.
  unfold _validate_field_lookup_term. simpl term_size. rewrite rec_succ.
  apply lookup_equation_ext. intros m Ht.
  apply rec_fuel_enough, join_tail_shorter, Ht.
Qed.

Lemma for_eachR_raise_inv {A S} (body : S -> A -> result S) l s e :
  for_eachR l body s = Raise e ->
  exists s' x, x ∈ l /\ body s' x = Raise e.
Proof.
  revert s. induction l as [|x l IH]; intros s; simpl; [discriminate|].
  destruct (body s x) as [s1|e1] eqn:Hx; simpl.
  - intros H. apply IH in H as (s' & y & Hy & H).
    exists s', y. split; [now right | exact H].
  - intros [= <-]. exists s, x. split; [now left | exact Hx].
Qed.

Lemma meta_raise sch model e :
  _meta sch model = Raise e -> e = AttributeError "_meta".
Proof.
  destruct model as [m|]; simpl; [destruct (sch !! m)|]; congruence.
Qed.

Lemma get_all_field_names_raise sch meta e :
  get_all_field_names sch meta = Raise e -> e = AttributeError "_meta".
Proof.
  unfold get_all_field_names.
  destruct (for_eachR _ _ _) as [names|e'] eqn:Hl; simpl; [discriminate|].
  intros [= <-]. apply for_eachR_raise_inv in Hl as (acc & f & _ & Hf).
  unfold add_field_names in Hf.
  destruct (_ && _ && _); [discriminate|].
  destruct (negb (String.eqb (field_model f) (model meta))); simpl in Hf.
  - destruct (sch !! field_model f) as [fm|]; simpl in Hf; [|congruence].
    destruct (String.eqb _ _); [discriminate|].
    destruct (attname f); discriminate.
  - destruct (attname f); discriminate.
Qed.

Lemma get_field_raise meta n e :
  get_field meta n = Raise e -> e = FieldDoesNotExist n.
Proof. unfold get_field. destruct (find _ _); congruence. Qed.

(** The fuel never runs out. *)
Lemma validate_field_lookup_term_total sch model term query :
  _validate_field_lookup_term sch model term query <> Raise RecursionError.
Proof.
  destruct term as [| | |s| | | | | | |];
    try (unfold _validate_field_lookup_term; simpl;
         repeat match goal with
                | |- context [if ?b then _ else _] => destruct b
                end; simpl; discriminate).
  revert model. remember (String.length s) as n eqn:Hn. revert s Hn.
  induction n as [n IH] using lt_wf_ind. intros s Hn model.
  rewrite validate_field_lookup_term_unfold. unfold lookup_equation.
  destruct (knownb query s); [discriminate|]. cbv zeta.
  destruct (_meta sch model) as [meta|e] eqn:Hm; simpl.
  2:{ apply meta_raise in Hm as ->. discriminate. }
  destruct (get_all_field_names sch meta) as [names|e] eqn:Hnames; simpl.
  2:{ apply get_all_field_names_raise in Hnames as ->. discriminate. }
  destruct (negb _); [discriminate|].
  destruct (Nat.eqb _ 1) eqn:Hlen.
  - destruct (get_field _ _) as [f|e] eqn:Hf; simpl.
    + unfold py_verbose_name. destruct (verbose_name f); discriminate.
    + apply get_field_raise in Hf as ->. discriminate.
  - destruct (get_field _ _) as [f|e] eqn:Hf; simpl.
    + eapply IH; [|reflexivity]. subst n. apply join_tail_shorter.
      apply Nat.eqb_neq in Hlen. pose proof (split_dunder_nonempty s).
      destruct (split_dunder s) as [|t0 [|t1 rest]]; simpl in *; congruence.
    + apply get_field_raise in Hf as ->. discriminate.
Qed.

(** ** The names get_all_field_names lists *)

Lemma add_field_names_ok sch meta acc f acc' :
  add_field_names sch meta acc f = Ok acc' ->
  forall n, n ∈ acc' <-> n ∈ acc \/ (listed sch meta f /\ names_field f n).
Proof.
  unfold add_field_names, listed, child_proxy, names_field.
  fold (generic_foreign_key f).
  destruct (generic_foreign_key f) eqn:Hg.
  { intros [= <-] n. split; [auto | intros [H | [[H _] _]]; [exact H | discriminate]]. }
  destruct (String.eqb (field_model f) (model meta)) eqn:Hm; simpl.
  - apply String.eqb_eq in Hm.
    assert (Hnp : ~ (field_model f <> model meta /\
                     exists fm, sch !! field_model f = Some fm /\
                                concrete_model fm = concrete_model meta))
      by (intros [Hne _]; contradiction).
    destruct (attname f) as [a|]; intros [= <-] n;
      rewrite ?elem_of_union, ?elem_of_singleton.
    + split.
      * intros [[H | ->] | ->]; [auto | right | right];
          (split; [split; [reflexivity | exact Hnp] | auto]).
      * intros [H | [_ [<- | [= <-]]]]; auto.
    + split.
      * intros [H | ->]; [auto | right].
        split; [split; [reflexivity | exact Hnp] | auto].
      * intros [H | [_ [<- | H]]]; [auto | auto | discriminate].
  - apply String.eqb_neq in Hm.
    destruct (sch !! field_model f) as [fm|] eqn:Hfm; simpl; [|discriminate].
    destruct (String.eqb (concrete_model fm) (concrete_model meta)) eqn:Hc.
    + apply String.eqb_eq in Hc. intros [= <-] n.
      split; [auto | intros [H | [[_ H] _]]; [exact H|]].
      destruct H. split; [exact Hm | eauto].
    + apply String.eqb_neq in Hc.
      assert (Hnp : ~ (field_model f <> model meta /\
                       exists fm0, Some fm = Some fm0 /\
                                   concrete_model fm0 = concrete_model meta)).
      { intros [_ (fm0 & [= <-] & H)]. contradiction. }
      destruct (attname f) as [a|]; intros [= <-] n;
        rewrite ?elem_of_union, ?elem_of_singleton.
      * split.
        -- intros [[H | ->] | ->]; [auto | right | right];
             (split; [split; [reflexivity | exact Hnp] | auto]).
        -- intros [H | [_ [<- | [= <-]]]]; auto.
      * split.
        -- intros [H | ->]; [auto | right].
           split; [split; [reflexivity | exact Hnp] | auto].
        -- intros [H | [_ [<- | H]]]; [auto | auto | discriminate].
Qed.

Lemma get_all_field_names_ok sch meta names :
  get_all_field_names sch meta = Ok names ->
  forall n, n ∈ names <->
            exists f, f ∈ get_fields meta /\ listed sch meta f /\ names_field f n.
Proof.
  unfold get_all_field_names.
  destruct (for_eachR _ _ _) as [set|e] eqn:Hl; simpl; [|discriminate].
  intros [= <-] n. rewrite elem_of_elements.
  assert (Hgen : forall l acc set,
            for_eachR l (add_field_names sch meta) acc = Ok set ->
            n ∈ set <->
            n ∈ acc \/ exists f, f ∈ l /\ listed sch meta f /\ names_field f n).
  { clear. induction l as [|f l IH]; intros acc set; simpl.
    - intros [= <-]. split; [auto | intros [H | (f & Hf & _)]; [exact H|]].
      now apply elem_of_nil in Hf.
    - destruct (add_field_names sch meta acc f) as [acc1|] eqn:Hf; simpl;
        [|discriminate].
      intros H. rewrite (IH _ _ H), (add_field_names_ok _ _ _ _ _ Hf n).
      split.
      + intros [[H1 | H1] | (g & Hg & H1)]; [auto | |].
        * right. exists f. split; [now left | exact H1].
        * right. exists g. split; [now right | exact H1].
      + intros [H1 | (g & Hg & H1)]; [auto|].
        apply elem_of_cons in Hg as [-> | Hg]; [auto|].
        right. exists g. auto. }
  rewrite (Hgen _ _ _ Hl). split; [intros [H | H]; [|exact H] | auto].
  now apply elem_of_empty in H.
Qed.

(** ** _validate_field_lookup_term on terms that resolve *)

Lemma lookup_known sch model term query :
  known query term ->
  _validate_field_lookup_term sch model (VStr term) query = Ok (VStr term).
Proof.
  intros Hk. rewrite validate_field_lookup_term_unfold. unfold lookup_equation.
  apply knownb_spec in Hk. now rewrite Hk.
Qed.

(** A lookup that resolves: the result is the rest of the lookup from the
    first segment on at which the query knows it, or else what reading the
    label of the last field gives. *)
Lemma lookup_resolves sch query model segs f :
  resolves sch model segs f ->
  forall term,
    split_dunder term = segs ->
    (exists k, k < length segs /\
               known query (join "__" (drop k segs)) /\
               _validate_field_lookup_term sch model (VStr term) query =
                 Ok (VStr (join "__" (drop k segs)))) \/
    _validate_field_lookup_term sch model (VStr term) query =
      py_verbose_name f.
Proof.
  induction 1 as [model meta names t0 f Hm Hn Ht Hf
                 |model meta names t0 f0 rest f Hm Hn Ht Hf Hrest Hres IH];
    intros term Hsplit.
  - destruct (knownb query term) eqn:Hk.
    + left. exists 0. rewrite drop_0, <- Hsplit, join_split_dunder.
      split; [rewrite Hsplit; simpl; lia|].
      split; [apply knownb_spec, Hk | apply lookup_known, knownb_spec, Hk].
    + right.
      rewrite validate_field_lookup_term_unfold. unfold lookup_equation.
      rewrite Hk, Hsplit, Hm. simpl. rewrite Hn. simpl.
      rewrite bool_decide_eq_true_2 by exact Ht. simpl. now rewrite Hf.
  - destruct (knownb query term) eqn:Hk.
    + left. exists 0. rewrite drop_0, <- Hsplit, join_split_dunder.
      split; [pose proof (split_dunder_nonempty term);
              destruct (split_dunder term); simpl; [easy | lia]|].
      split; [apply knownb_spec, Hk | apply lookup_known, knownb_spec, Hk].
    + assert (Htl : tl (split_dunder term) = rest) by now rewrite Hsplit.
      assert (Hne : tl (split_dunder term) <> []) by now rewrite Htl.
      assert (Hstep :
        _validate_field_lookup_term sch model (VStr term) query =
        _validate_field_lookup_term sch (next_model model f0)
          (VStr (join "__" rest)) query).
      { rewrite validate_field_lookup_term_unfold. unfold lookup_equation.
        rewrite Hk, Hsplit, Hm. simpl. rewrite Hn. simpl.
        rewrite bool_decide_eq_true_2 by exact Ht. simpl.
        destruct rest as [|t1 rest]; [contradiction|]. simpl Nat.eqb.
        cbv iota. rewrite Hf. reflexivity. }
      rewrite Hstep.
      destruct (IH (join "__" rest)) as [(k & Hlt & Hkn & Hv) | Hv].
      { rewrite <- Htl. apply split_join_tail, Hne. }
      * left. exists (S k). simpl. split; [lia | auto].
      * now right.
Qed.

Lemma lookup_unknown_field sch model term query meta names :
  ~ known query term ->
  _meta sch model = Ok meta ->
  get_all_field_names sch meta = Ok names ->
  hd EmptyString (split_dunder term) ∉ names ->
  _validate_field_lookup_term sch model (VStr term) query =
    Raise (field_does_not_exist (hd EmptyString (split_dunder term)) names).
Proof.
  intros Hk Hm Hn Ht.
  rewrite validate_field_lookup_term_unfold. unfold lookup_equation.
  destruct (knownb query term) eqn:Hkb; [now apply knownb_spec in Hkb|].
  cbv zeta. rewrite Hm. simpl. rewrite Hn. simpl.
  now rewrite bool_decide_eq_false_2 by exact Ht.
Qed.

Lemma lookup_without_label sch model term query f :
  resolves sch model (split_dunder term) f ->
  verbose_name f = None ->
  (forall k, k < length (split_dunder term) ->
             ~ known query (join "__" (drop k (split_dunder term)))) ->
  _validate_field_lookup_term sch model (VStr term) query =
    Raise (AttributeError "verbose_name").
Proof.
  intros Hres Hv Hk.
  destruct (lookup_resolves sch query _ _ _ Hres term eq_refl)
    as [(k & Hlt & Hkn & _) | ->].
  - now destruct (Hk k Hlt).
  - unfold py_verbose_name. now rewrite Hv.
Qed.

Lemma lookup_with_label sch model term query f label :
  resolves sch model (split_dunder term) f ->
  verbose_name f = Some label ->
  exists v,
    _validate_field_lookup_term sch model (VStr term) query = Ok v /\
    (v = VStr label \/
     exists k, k < length (split_dunder term) /\
               known query (join "__" (drop k (split_dunder term))) /\
               v = VStr (join "__" (drop k (split_dunder term)))).
Proof.
  intros Hres Hv.
  destruct (lookup_resolves sch query _ _ _ Hres term eq_refl)
    as [(k & Hlt & Hkn & H) | H].
  - eexists. split; [exact H|]. right. eauto.
  - exists (VStr label). split; [|now left].
    rewrite H. unfold py_verbose_name. now rewrite Hv.
Qed.

Lemma sample_book_resolves :
  resolves Sample.models (Some "Author") (split_dunder "book")
    (mkField "book" None true false (Some "Book") "Author" true false None).
Proof.
  eapply (resolves_last _ _ Sample.Author ["id"; "name"; "book"]);
    [reflexivity | vm_compute; reflexivity
    | apply (bool_decide_unpack _); vm_compute; exact I
    | reflexivity].
Qed.

(** C1: a lookup whose segments all resolve through the schema is not
    always accepted.  When the field of the last segment has no display
    label, as the object that stands for a reverse relation, and the query
    knows no part of the lookup, reading [verbose_name] raises
    [AttributeError]: neither a result nor the input error.  So it is for
    the lookup ['book'] on the model [Author], which [Book] refers to: the
    name resolves, and the message for an unknown name lists it among the
    valid lookups; [clean_dps] on a series of [Author] with the term
    ['book'] ends with that [AttributeError]. *)
Theorem lookup_reverse_relation :
  (forall sch model term query f,
     resolves sch model (split_dunder term) f ->
     verbose_name f = None ->
     (forall k, k < length (split_dunder term) ->
                ~ known query (join "__" (drop k (split_dunder term)))) ->
     _validate_field_lookup_term sch model (VStr term) query =
       Raise (AttributeError "verbose_name")) /\
  (exists f, resolves Sample.models (Some "Author") (split_dunder "book") f) /\
  _validate_field_lookup_term Sample.models (Some "Author") (VStr "book")
    (mkQuery [] []) = Raise (AttributeError "verbose_name") /\
  _validate_field_lookup_term Sample.models (Some "Author") (VStr "books")
    (mkQuery [] []) =
    Raise (field_does_not_exist "books" ["id"; "name"; "book"]) /\
  fst (clean_dps Sample.models (VList [VDict 0]) Sample.reverse_heap) =
    Raise (AttributeError "verbose_name").
Proof.
  split; [apply lookup_without_label|].
  split; [eexists; apply sample_book_resolves|].
  split; [|split]; vm_compute; reflexivity.
Qed.

(** X30. The validator returns the term when the query knows it as an
    annotation or an extra field; when every segment resolves through the
    schema and the last field has a display label, it returns without error,
    with that label (or, when the query knows the rest of the lookup from
    some segment on, that rest); and when the term is not known to the query
    and its first segment is not among the field names of the model, it
    raises the input error whose message lists those names: the names and
    attribute names of the fields of the model that are not left out. *)
Theorem validate_field_lookup_term_accepts sch model term query :
  (known query term ->
   _validate_field_lookup_term sch model (VStr term) query = Ok (VStr term)) /\
  (forall f label,
     resolves sch model (split_dunder term) f ->
     verbose_name f = Some label ->
     exists v,
       _validate_field_lookup_term sch model (VStr term) query = Ok v /\
       (v = VStr label \/
        exists k, k < length (split_dunder term) /\
                  known query (join "__" (drop k (split_dunder term))) /\
                  v = VStr (join "__" (drop k (split_dunder term))))) /\
  (forall meta names,
     ~ known query term ->
     _meta sch model = Ok meta ->
     get_all_field_names sch meta = Ok names ->
     hd EmptyString (split_dunder term) ∉ names ->
     _validate_field_lookup_term sch model (VStr term) query =
       Raise (field_does_not_exist (hd EmptyString (split_dunder term)) names) /\
     forall n, n ∈ names <->
               exists f, f ∈ get_fields meta /\ listed sch meta f /\
                         names_field f n).
Proof.
  split; [apply lookup_known | split].
  - intros f label. apply lookup_with_label.
  - intros meta names Hk Hm Hn Ht. split.
    + now apply lookup_unknown_field with meta.
    + now apply get_all_field_names_ok.
Qed.

Lemma validate_field_lookup_term_accepts_witness :
  (_validate_field_lookup_term Sample.models (Some "Book") (VStr "total")
     (qs_query Sample.books) = Ok (VStr "total")) /\
  (exists v,
     _validate_field_lookup_term Sample.models (Some "Book")
       (VStr "author__name") (qs_query Sample.books) = Ok v) /\
  (_validate_field_lookup_term Sample.models (Some "Book")
     (VStr "writer__name") (qs_query Sample.books) =
     Raise (field_does_not_exist "writer"
              ["id"; "author_id"; "author"; "title"])).
Proof.
  split; [|split].
  - apply (proj1 (validate_field_lookup_term_accepts
                    Sample.models (Some "Book") "total" (qs_query Sample.books))).
    left. simpl. apply list_elem_of_here.
  - destruct (proj1 (proj2 (validate_field_lookup_term_accepts
                Sample.models (Some "Book") "author__name"
                (qs_query Sample.books)))
                (mkField "name" (Some "name") false false None "Author"
                   false true (Some "full name")) "full name")
      as (v & Hv & _); [| reflexivity | eauto].
    eapply (resolves_step _ _ Sample.Book
              ["id"; "author_id"; "author"; "title"]);
      [reflexivity | vm_compute; reflexivity
      | apply (bool_decide_unpack _); vm_compute; exact I
      | reflexivity | discriminate |].
    eapply (resolves_last _ _ Sample.Author ["id"; "name"; "book"]);
      [reflexivity | vm_compute; reflexivity
      | apply (bool_decide_unpack _); vm_compute; exact I
      | reflexivity].
  - apply (proj2 (proj2 (validate_field_lookup_term_accepts
                    Sample.models (Some "Book") "writer__name"
                    (qs_query Sample.books))) Sample.Book).
    + intros [H | H]; apply (bool_decide_pack _) in H; vm_compute in H; exact H.
    + reflexivity.
    + vm_compute. reflexivity.
    + intros H. apply (bool_decide_pack _) in H. vm_compute in H. exact H.
Defined.

(** ** Weakest preconditions *)

Lemma wp_ok {A} I (m : M A) Q h a h' :
  wp I m Q h -> m h = (Ok a, h') -> Q a h'.
Proof. unfold wp. intros H E. now rewrite E in H. Qed.

Lemma wp_raised {A} I (m : M A) Q h e h' :
  wp I m Q h -> m h = (Raise e, h') -> I h'.
Proof. unfold wp. intros H E. now rewrite E in H. Qed.

Lemma wp_weaken {A} I (m : M A) (Q Q' : A -> heap -> Prop) h :
  wp I m Q h -> (forall a h', Q a h' -> Q' a h') -> wp I m Q' h.
Proof. unfold wp. destruct (m h) as [[a|e] h']; auto. Qed.

Lemma wp_bind {A B} I (m : M A) (k : A -> M B) Q h :
  wp I m (fun a h1 => wp I (k a) Q h1) h -> wp I (bind m k) Q h.
Proof. unfold wp, bind. now destruct (m h) as [[a|e] h1]. Qed.

Lemma wp_ret {A} I (a : A) (Q : A -> heap -> Prop) h :
  Q a h -> wp I (ret a) Q h.
Proof. auto. Qed.

Lemma wp_raise {A} I e (Q : A -> heap -> Prop) h :
  I h -> wp I (raise e) Q h.
Proof. auto. Qed.

Lemma wp_lift {A} I (r : result A) (Q : A -> heap -> Prop) h :
  (forall e, r = Raise e -> I h) ->
  (forall a, r = Ok a -> Q a h) ->
  wp I (lift r) Q h.
Proof. unfold wp, lift. destruct r; eauto. Qed.

Lemma wp_reading {A} I (f : heap -> result A) (Q : A -> heap -> Prop) h :
  (forall e, f h = Raise e -> I h) ->
  (forall a, f h = Ok a -> Q a h) ->
  wp I (reading f) Q h.
Proof. unfold wp, reading. destruct (f h); eauto. Qed.

Lemma wp_for_each {A S} I (J : S -> heap -> Prop) (body : S -> A -> M S) l s h :
  (forall s x h, x ∈ l -> J s h -> wp I (body s x) J h) ->
  J s h ->
  wp I (for_each l body s) J h.
Proof.
  revert s h. induction l as [|x l IH]; intros s h Hbody HJ; simpl.
  - now apply wp_ret.
  - apply wp_bind. eapply wp_weaken.
    + apply Hbody; [now left | exact HJ].
    + intros s1 h1 HJ1. apply IH; [|exact HJ1].
      intros s2 y h2 Hy. apply Hbody. now right.
Qed.

(** ** Cells of a heap that a computation leaves alone *)

Lemma cell_insert_ne (h : heap) a b c : a <> b -> cell (<[a := c]> h) b = cell h b.
Proof. intros Hne. unfold cell. now rewrite list_lookup_insert_ne. Qed.

Lemma cell_insert_eq (h : heap) a c : a < length h -> cell (<[a := c]> h) a = c.
Proof. intros Hlt. unfold cell. now rewrite list_lookup_insert_eq. Qed.

Lemma cell_app_l (h l : heap) a : a < length h -> cell (h ++ l) a = cell h a.
Proof. intros Hlt. unfold cell. now rewrite lookup_app_l. Qed.

Lemma cell_dangling (h : heap) a : length h <= a -> cell h a = [].
Proof. intros Hle. unfold cell. now rewrite lookup_ge_None_2. Qed.

Lemma cell_nonempty_valid (h : heap) a : cell h a <> [] -> a < length h.
Proof.
  intros Hne. destruct (decide (a < length h)) as [|Hge]; [assumption|].
  destruct Hne. apply cell_dangling. lia.
Qed.

Lemma frame_refl n (h : heap) : n <= length h -> frame n h h.
Proof. intros Hn. repeat split; auto. Qed.

Lemma frame_insert n hi (h : heap) a c :
  frame n hi h -> n <= a -> frame n hi (<[a := c]> h).
Proof.
  intros (Hn & Hl & Hc) Ha. repeat split; [exact Hn | |].
  - now rewrite length_insert.
  - intros b Hb. rewrite cell_insert_ne by lia. now apply Hc.
Qed.

Lemma frame_app n hi (h l : heap) : frame n hi h -> frame n hi (h ++ l).
Proof.
  intros (Hn & Hl & Hc). repeat split; [exact Hn | |].
  - rewrite length_app. lia.
  - intros b Hb. rewrite cell_app_l by lia. now apply Hc.
Qed.

Lemma frame_trans n m h1 h2 h3 :
  frame n h1 h2 -> frame m h2 h3 -> n <= m -> frame n h1 h3.
Proof.
  intros (Hn & Hl & Hc) (Hn' & Hl' & Hc') Hnm. repeat split; [exact Hn | lia |].
  intros a Ha. rewrite Hc' by lia. now apply Hc.
Qed.

Section Frame.
Context (n : nat) (hi : heap).

(** Reads. *)
Lemma wp_read {A} (f : heap -> result A) (Q : A -> heap -> Prop) h :
  frame n hi h ->
  (forall a, f h = Ok a -> Q a h) ->
  wp (frame n hi) (reading f) Q h.
Proof. intros HI HQ. apply wp_reading; auto. Qed.

Lemma wp_pure {A} (r : result A) (Q : A -> heap -> Prop) h :
  frame n hi h ->
  (forall a, r = Ok a -> Q a h) ->
  wp (frame n hi) (lift r) Q h.
Proof. intros HI HQ. apply wp_lift; auto. Qed.

(** Writes to a dictionary at or above [n]. *)
Lemma wp_py_setitem a k v (Q : unit -> heap -> Prop) h :
  frame n hi h -> n <= a ->
  (forall h', frame n hi h' -> length h' = length h -> hashable k = true ->
              Q tt h') ->
  wp (frame n hi) (py_setitem a k v) Q h.
Proof.
  intros HI Ha HQ. unfold wp, py_setitem.
  destruct (hashable k); [|exact HI].
  apply HQ; [now apply frame_insert | apply length_insert | reflexivity].
Qed.

Lemma wp_py_setdefault a k v (Q : unit -> heap -> Prop) h :
  frame n hi h -> n <= a ->
  (forall h', frame n hi h' -> length h' = length h -> Q tt h') ->
  wp (frame n hi) (py_setdefault a k v) Q h.
Proof.
  intros HI Ha HQ. unfold wp, py_setdefault.
  destruct (hashable k); [|exact HI].
  destruct (dict_mem (cell h a) k); [now apply HQ|].
  apply HQ; [now apply frame_insert | apply length_insert].
Qed.

Lemma wp_py_update a other (Q : unit -> heap -> Prop) h :
  frame n hi h -> n <= a ->
  (forall h', frame n hi h' -> length h' = length h -> Q tt h') ->
  wp (frame n hi) (py_update a other) Q h.
Proof.
  intros HI Ha HQ. unfold wp, py_update.
  destruct (update_pairs h other); [|exact HI].
  apply HQ; [now apply frame_insert | apply length_insert].
Qed.

(** New dictionaries. *)
Lemma wp_alloc d (Q : addr -> heap -> Prop) h :
  frame n hi h ->
  (forall h', frame n hi h' -> length h < length h' -> Q (length h) h') ->
  wp (frame n hi) (alloc d) Q h.
Proof.
  intros HI HQ. unfold wp, alloc.
  apply HQ; [now apply frame_app | rewrite length_app; simpl; lia].
Qed.

Lemma wp_deepcopy_dict o (Q : addr -> heap -> Prop) h :
  frame n hi h ->
  (forall h', frame n hi h' -> length h <= length h' ->
              (o < length h -> o + length h < length h') ->
              Q (o + length h) h') ->
  wp (frame n hi) (deepcopy_dict o) Q h.
Proof.
  intros HI HQ. unfold wp, deepcopy_dict, deepcopy. simpl.
  apply HQ; [now apply frame_app | |];
    rewrite length_app, length_map; lia.
Qed.
End Frame.

(** ** What one term of a DataPool series does to the heap *)

Lemma after_del_length term (h : heap) : length (after_del term h) = length h.
Proof.
  destruct term; simpl; try reflexivity.
  destruct (dict_mem _ _); [apply length_insert | reflexivity].
Qed.

Lemma dict_mem_nonempty d k : dict_mem d k = true -> d <> [].
Proof. now destruct d. Qed.

(** Every outcome of [dps_term] leaves the dictionaries that existed before
    as [del term['_new_name']] left them; when it succeeds, the term had a
    name, and the map has the name bound to a record that did not exist
    before. *)
Lemma dps_term_spec sch o d term h :
  wp (frame (length h) (after_del term h)) (dps_term sch o d term)
    (fun d' h' =>
       frame (length h) (after_del term h) h' /\
       exists n rec,
         term_name h term = Some n /\ hashable n = true /\
         d' = dict_set d n (VDict rec) /\
         length h <= rec /\ rec < length h') h.
Proof.
  pose proof (after_del_length term h) as Hlen.
  unfold dps_term. apply wp_bind.
  assert (Htail : forall nn opts h1,
    frame (length h) (after_del term h) h1 ->
    length h <= opts ->
    term_name h term = Some nn -> hashable nn = true ->
    wp (frame (length h) (after_del term h)) (ret (nn, opts))
      (fun named h2 =>
         wp (frame (length h) (after_del term h))
           (let _new_name := fst named in
            let sd_term := snd named in
            let series_dict := dict_set d _new_name (VDict sd_term) in
            has_source <- has_key sd_term "source" ;;
            if negb has_source
            then lift (raise_format1 "" FmtS " is missing the 'source' key."
                         (VDict sd_term))
            else
              source <- getitem sd_term "source" ;;
              source <- lift (_validate_source source) ;;
              setitem sd_term "source" source ;;;
              py_setdefault sd_term (VStr "field") _new_name ;;;
              source <- getitem sd_term "source" ;;
              m <- lift (py_model source) ;;
              field <- getitem sd_term "field" ;;
              q <- lift (py_query source) ;;
              fa <- lift (_validate_field_lookup_term sch m field q) ;;
              let fa := if negb (key_eqb _new_name field) then _new_name else fa in
              py_setdefault sd_term (VStr "field_alias") fa ;;;
              ret series_dict)%M
           (fun d' h' =>
              frame (length h) (after_del term h) h' /\
              exists n rec,
                term_name h term = Some n /\ hashable n = true /\
                d' = dict_set d n (VDict rec) /\
                length h <= rec /\ rec < length h') h2) h1).
  { intros nn opts h1 F1 Hopts Hname Hhash. apply wp_ret. cbv zeta.
    simpl fst. simpl snd.
    apply wp_bind, wp_read; [exact F1|]. intros b [= <-].
    destruct (dict_mem (cell h1 opts) (VStr "source")) eqn:Hsrc; simpl negb;
      cbv iota.
    2:{ apply wp_pure; [exact F1|]. intros a Ha.
        now apply raise_format1_not_ok in Ha. }
    assert (Hvalid : opts < length h1)
      by (eapply cell_nonempty_valid, dict_mem_nonempty, Hsrc).
    apply wp_bind, wp_read; [exact F1|]. intros source _.
    apply wp_bind, wp_pure; [exact F1|]. intros source' _.
    apply wp_bind, wp_py_setitem; [exact F1 | exact Hopts|]. intros h2 F2 L2 _.
    apply wp_bind, wp_py_setdefault; [exact F2 | exact Hopts|]. intros h3 F3 L3.
    apply wp_bind, wp_read; [exact F3|]. intros source2 _.
    apply wp_bind, wp_pure; [exact F3|]. intros m _.
    apply wp_bind, wp_read; [exact F3|]. intros field _.
    apply wp_bind, wp_pure; [exact F3|]. intros q _.
    apply wp_bind, wp_pure; [exact F3|]. intros fa _.
    apply wp_bind, wp_py_setdefault; [exact F3 | exact Hopts|]. intros h4 F4 L4.
    apply wp_ret. split; [exact F4|].
    exists nn, opts. repeat split; auto. lia. }
  destruct term as [| | |s| | |t| | | |];
    try (apply wp_raise; simpl; apply frame_refl; lia).
  - (* a string *)
    apply wp_bind, wp_deepcopy_dict; [simpl; apply frame_refl; lia|].
    intros h1 F1 L1 _. apply Htail; [exact F1 | lia | reflexivity | reflexivity].
  - (* a dictionary *)
    apply wp_bind, wp_reading.
    { unfold py_getitem. simpl hashable. cbv iota. intros e.
      destruct (dict_get (cell h t) (VStr "_new_name")) eqn:Hg; [discriminate|].
      intros _. simpl. unfold dict_mem, new_name. rewrite Hg.
      apply frame_refl. lia. }
    intros nn Hnn. unfold py_getitem in Hnn. simpl hashable in Hnn.
    cbv iota in Hnn.
    destruct (dict_get (cell h t) (VStr "_new_name")) as [x|] eqn:Hg;
      [|discriminate].
    injection Hnn as ->.
    assert (Hmem : dict_mem (cell h t) new_name = true)
      by (unfold dict_mem, new_name; now rewrite Hg).
    assert (Hafter : after_del (VDict t) h =
                     <[t := dict_del (cell h t) new_name]> h)
      by (simpl; now rewrite Hmem).
    apply wp_bind. unfold wp at 1, py_delitem. simpl hashable. cbv iota.
    fold new_name. rewrite Hmem, <- Hafter.
    assert (F0 : frame (length h) (after_del (VDict t) h) (after_del (VDict t) h))
      by (apply frame_refl; lia).
    apply wp_bind, wp_deepcopy_dict; [exact F0|]. intros h1 F1 L1 _.
    apply wp_bind, wp_py_update; [exact F1 | lia |]. intros h2 F2 L2.
    destruct (hashable nn) eqn:Hh.
    + apply Htail; [exact F2 | lia | exact Hg | exact Hh].
    + apply wp_raise. exact F2.
Qed.

(** ** Equality of keys *)

Lemma key_eqb_tuple l1 l2 : key_eqb (VTuple l1) (VTuple l2) = keys_eqb l1 l2.
Proof.
  destruct l1, l2; reflexivity.
Qed.

Lemma key_eqb_refl k : hashable k = true -> key_eqb k k = true.
Proof.
  induction k as [| | | |vs IH|vs IH| | | | |] using value_elements_ind;
    intros Hh; try discriminate.
  - reflexivity.
  - apply Bool.eqb_reflx.
  - apply Z.eqb_refl.
  - apply String.eqb_refl.
  - rewrite key_eqb_tuple. simpl in Hh.
    induction IH as [|x vs Hx _ IHvs]; [reflexivity|].
    simpl in *. apply andb_true_iff in Hh as [Hh1 Hh2].
    rewrite Hx by exact Hh1. now apply IHvs.
  - apply Nat.eqb_refl.
  - apply Nat.eqb_refl.
  - apply Nat.eqb_refl.
  - apply Nat.eqb_refl.
Qed.

Lemma key_eqb_sym k1 k2 : key_eqb k1 k2 = key_eqb k2 k1.
Proof.
  revert k2.
  induction k1 as [| | | |vs IH|vs IH| | | | |] using value_elements_ind;
    intros k2; destruct k2; try reflexivity.
  - simpl. now destruct b, b0.
  - simpl. apply Z.eqb_sym.
  - simpl. apply String.eqb_sym.
  - rewrite !key_eqb_tuple. revert vs0.
    induction IH as [|x vs Hx _ IHvs]; intros [|y vs0]; try reflexivity.
    simpl. now rewrite Hx, IHvs.
  - simpl. apply Nat.eqb_sym.
  - simpl. apply Nat.eqb_sym.
  - simpl. apply Nat.eqb_sym.
  - simpl. apply Nat.eqb_sym.
Qed.

Lemma key_eqb_trans k1 k2 k3 :
  key_eqb k1 k2 = true -> key_eqb k2 k3 = true -> key_eqb k1 k3 = true.
Proof.
  revert k2 k3.
  induction k1 as [| |n|s|vs IH|vs IH| |q|i|i|i] using value_elements_ind;
    intros k2 k3; destruct k2, k3; try discriminate; try reflexivity;
    rewrite ?key_eqb_tuple; simpl;
    rewrite ?Z.eqb_eq, ?Nat.eqb_eq, ?String.eqb_eq, ?Bool.eqb_true_iff;
    try congruence;
    try (repeat match goal with b : bool |- _ => destruct b end;
         intros; subst; congruence || lia).
  revert vs0 vs1.
  induction IH as [|x vs Hx _ IHvs]; intros [|y vs0] [|z vs1];
    try discriminate; try reflexivity.
  simpl. rewrite !andb_true_iff. intros [H1 H2] [H3 H4].
  split; [eapply Hx; eassumption | eapply IHvs; eassumption].
Qed.

Lemma key_eqb_false_l k k1 k2 :
  key_eqb k k1 = true -> key_eqb k1 k2 = false -> key_eqb k k2 = false.
Proof.
  intros H1 H2. destruct (key_eqb k k2) eqn:H; [|reflexivity].
  rewrite key_eqb_sym in H1.
  now rewrite (key_eqb_trans _ _ _ H1 H) in H2.
Qed.

Lemma key_eqb_str k s : key_eqb k (VStr s) = true -> k = VStr s.
Proof.
  destruct k; try discriminate. simpl. intros H.
  now apply String.eqb_eq in H as ->.
Qed.

(** ** Dictionaries *)

Lemma dict_get_set_same d k v :
  hashable k = true -> dict_get (dict_set d k v) k = Some v.
Proof.
  intros Hh. induction d as [|[k' v'] d IH]; simpl.
  - now rewrite key_eqb_refl.
  - destruct (key_eqb k' k) eqn:Hk; simpl; rewrite Hk; [reflexivity | exact IH].
Qed.

Lemma dict_get_set_other d k v k' :
  key_eqb k k' = false -> dict_get (dict_set d k v) k' = dict_get d k'.
Proof.
  intros Hne. induction d as [|[k0 v0] d IH]; simpl.
  - now rewrite Hne.
  - destruct (key_eqb k0 k) eqn:Hk; simpl.
    + now rewrite (key_eqb_false_l _ _ _ Hk Hne).
    + now rewrite IH.
Qed.

Lemma dict_update_single d k v : dict_update d [(k, v)] = dict_set d k v.
Proof. reflexivity. Qed.

Lemma dict_get_del_same d s :
  unique_keys d -> dict_get (dict_del d (VStr s)) (VStr s) = None.
Proof.
  induction d as [|[k v] d IH]; simpl; [reflexivity|]. intros [Hk Hu].
  destruct (key_eqb k (VStr s)) eqn:E.
  - apply key_eqb_str in E as ->. exact Hk.
  - simpl. rewrite E. now apply IH.
Qed.

Lemma dict_get_del_other d s s' :
  s <> s' -> dict_get (dict_del d (VStr s)) (VStr s') = dict_get d (VStr s').
Proof.
  intros Hne. induction d as [|[k v] d IH]; simpl; [reflexivity|].
  destruct (key_eqb k (VStr s)) eqn:E.
  - apply key_eqb_str in E as ->. simpl.
    now apply String.eqb_neq in Hne as ->.
  - simpl. now rewrite IH.
Qed.

(** ** A run of clean_dps, entry by entry *)

Lemma old_cells_start (h0 : heap) : old_cells h0 [] h0.
Proof. split; [lia|]. intros a _. reflexivity. Qed.

Lemma old_cells_equiv h0 D D' h :
  (forall a, a ∈ D <-> a ∈ D') -> old_cells h0 D h -> old_cells h0 D' h.
Proof.
  intros Hiff [Hl Hc]. split; [exact Hl|]. intros a Ha. rewrite Hc by exact Ha.
  destruct (bool_decide (a ∈ D)) eqn:E.
  - apply bool_decide_eq_true in E.
    rewrite bool_decide_eq_true_2; [reflexivity | now apply Hiff].
  - apply bool_decide_eq_false in E.
    rewrite bool_decide_eq_false_2; [reflexivity|]. intros H. now apply Hiff in H.
Qed.

Lemma cell_unique_keys (h : heap) a : Forall unique_keys h -> unique_keys (cell h a).
Proof.
  intros Hu. unfold cell. destruct (h !! a) as [d|] eqn:Ha; simpl; [|exact I].
  eapply Forall_lookup_1; eassumption.
Qed.

Lemma old_cells_get h0 D h a s :
  old_cells h0 D h -> a < length h0 -> s <> "_new_name" ->
  dict_get (cell h a) (VStr s) = dict_get (cell h0 a) (VStr s).
Proof.
  intros [_ Hc] Ha Hs. rewrite Hc by exact Ha.
  destruct (bool_decide (a ∈ D)); [|reflexivity].
  apply dict_get_del_other. congruence.
Qed.

(** A successful term, seen from the heap the run started in. *)
Lemma dps_term_old sch h0 D o d term h d' h' :
  Forall unique_keys h0 ->
  old_cells h0 D h ->
  (forall a, term = VDict a -> a < length h0) ->
  dps_term sch o d term h = (Ok d', h') ->
  old_cells h0 (term_addr term ++ D) h' /\
  (forall a, term = VDict a ->
             (a ∉ D) /\ dict_mem (cell h0 a) new_name = true) /\
  (forall a, length h0 <= a -> a < length h -> cell h' a = cell h a) /\
  exists n rec,
    term_name h0 term = Some n /\ hashable n = true /\
    d' = dict_set d n (VDict rec) /\
    length h <= rec /\ rec < length h'.
Proof.
  intros Hu [Hl Hc] Hclosed Hrun.
  pose proof (wp_ok _ _ _ _ _ _ (dps_term_spec sch o d term h) Hrun)
    as [(_ & Hl' & Hf) (n & rec & Hn & Hh & -> & Hrec)].
  rewrite after_del_length in Hl'.
  destruct term as [| | |s| | |t| | | |]; try discriminate.
  - (* a string: nothing is deleted *)
    simpl in *. split; [|split; [|split]].
    + split; [lia|]. intros a Ha. rewrite Hf by lia. now apply Hc.
    + intros a Ha. discriminate Ha.
    + intros a _ Ha. now apply Hf.
    + exists n, rec. auto.
  - (* a dictionary: it loses the name, once *)
    specialize (Hclosed t eq_refl). simpl in Hn.
    assert (HtD : t ∉ D).
    { intros HtD. rewrite Hc, bool_decide_eq_true_2 in Hn by assumption.
      unfold new_name in Hn. rewrite dict_get_del_same in Hn; [discriminate|].
      now apply cell_unique_keys. }
    assert (Hcell : cell h t = cell h0 t)
      by (rewrite Hc, bool_decide_eq_false_2 by assumption; reflexivity).
    assert (Hmem : dict_mem (cell h t) new_name = true)
      by (unfold dict_mem; now rewrite Hn).
    simpl in Hf. rewrite Hmem in Hf.
    split; [|split; [|split]].
    + split; [lia|]. intros a Ha. rewrite Hf by lia.
      destruct (decide (a = t)) as [-> | Hne].
      * rewrite cell_insert_eq by lia. rewrite Hcell.
        rewrite bool_decide_eq_true_2; [reflexivity|]. simpl. now left.
      * rewrite cell_insert_ne by congruence. rewrite Hc by exact Ha.
        simpl. destruct (bool_decide (a ∈ D)) eqn:E.
        -- apply bool_decide_eq_true in E.
           rewrite bool_decide_eq_true_2; [reflexivity | now right].
        -- apply bool_decide_eq_false in E.
           rewrite bool_decide_eq_false_2; [reflexivity|].
           intros [?|?]%elem_of_cons; contradiction.
    + intros a Ha. injection Ha as <-. split; [exact HtD | now rewrite <- Hcell].
    + intros a Ha1 Ha2. rewrite Hf by exact Ha2.
      apply cell_insert_ne. lia.
    + exists n, rec. simpl. rewrite <- Hcell. auto.
Qed.

Lemma dps_run_cons sch e es d h :
  dps_run sch (e :: es) d h =
  bind (dps_term sch (fst e) d (snd e)) (dps_run sch es) h.
Proof. reflexivity. Qed.

(** The dictionaries of the initial heap after a successful run. *)
Lemma dps_run_old sch h0 es :
  Forall unique_keys h0 ->
  forall D d h d' h',
    old_cells h0 D h ->
    Forall (fun e => forall a, snd e = VDict a -> a < length h0) es ->
    dps_run sch es d h = (Ok d', h') ->
    old_cells h0 (dict_terms es ++ D) h' /\
    length h <= length h' /\
    (forall a, length h0 <= a -> a < length h -> cell h' a = cell h a) /\
    (forall a, a ∈ dict_terms es ->
               (a ∉ D) /\ dict_mem (cell h0 a) new_name = true) /\
    NoDup (dict_terms es).
Proof.
  intros Hu. induction es as [|e es IH]; intros D d h d' h' Hold Hcl Hrun.
  - apply ret_ok_inv in Hrun as [-> ->]. simpl.
    split; [exact Hold | split; [lia | split; [reflexivity | split]]].
    + intros a Ha. now apply elem_of_nil in Ha.
    + constructor.
  - rewrite dps_run_cons in Hrun. bind_ok Hrun d1 h1 H1.
    inversion Hcl as [|? ? Hcle Hcles]; subst.
    destruct (dps_term_old sch h0 D (fst e) d (snd e) h d1 h1 Hu Hold Hcle H1)
      as (Hold1 & Hdel & Hkeep & n & rec & _ & _ & _ & Hrec1 & Hrec2).
    destruct (IH _ _ _ _ _ Hold1 Hcles Hrun)
      as (Hold' & Hlen & Hkeep' & Hdel' & Hnd).
    assert (Hl1 : length h <= length h1) by lia.
    split; [|split; [lia | split; [|split]]].
    + eapply old_cells_equiv; [|exact Hold'].
      intros a. unfold dict_terms. simpl. rewrite !elem_of_app. tauto.
    + intros a Ha1 Ha2. rewrite Hkeep' by lia. now apply Hkeep.
    + intros a Ha. unfold dict_terms in Ha. simpl in Ha.
      apply elem_of_app in Ha as [Ha | Ha].
      * destruct (snd e) as [| | | | | |t| | | |] eqn:Et; simpl in Ha;
          try now apply elem_of_nil in Ha.
        apply list_elem_of_singleton in Ha as ->. now apply Hdel.
      * destruct (Hdel' a Ha) as [Hn Hm]. split; [|exact Hm].
        intros HD. apply Hn, elem_of_app. now right.
    + unfold dict_terms. simpl. apply NoDup_app. split; [|split; [|exact Hnd]].
      * destruct (snd e) as [| | | | | |t| | | |]; simpl; try constructor.
        -- intros HH. now apply elem_of_nil in HH.
        -- constructor.
      * intros a Ha Ha'. destruct (Hdel' a Ha') as [Hn _].
        apply Hn, elem_of_app. now left.
Qed.

Lemma for_each_map {A B S} (f : A -> B) (body : S -> B -> M S) l s h :
  for_each (map f l) body s h = for_each l (fun s x => body s (f x)) s h.
Proof.
  revert s h. induction l as [|x l IH]; intros s h; simpl; [reflexivity|].
  unfold bind. destruct (body s (f x) h) as [[s1|e] h1]; [apply IH | reflexivity].
Qed.

Lemma for_each_app {A S} (body : S -> A -> M S) l1 l2 s h :
  for_each (l1 ++ l2) body s h =
  bind (for_each l1 body s) (for_each l2 body) h.
Proof.
  revert s h. induction l1 as [|x l1 IH]; intros s h; simpl.
  - reflexivity.
  - unfold bind. destruct (body s x h) as [[s1|e] h1]; [|reflexivity].
    rewrite IH. reflexivity.
Qed.

Lemma py_getitem_ok_inv h v s x :
  py_getitem h v (VStr s) = Ok x ->
  exists a, v = VDict a /\ dict_get (cell h a) (VStr s) = Some x.
Proof.
  destruct v; try discriminate. simpl.
  destruct (dict_get _ _) as [y|] eqn:E; [|discriminate].
  intros [= <-]. eauto.
Qed.

Lemma require_keys_heap sd keys h r h' :
  require_keys sd keys h = (r, h') -> h' = h.
Proof.
  unfold require_keys. intros H.
  now apply (for_each_checks_inv
               (fun h _key =>
                  (ks <- py_keys h sd ;;
                   if negb (existsb (fun k => key_eqb k (VStr _key)) ks)
                   then Raise (APIInputError
                          [FmtS sd; Lit " is missing the '"; FmtS (VStr _key);
                           Lit "' key."])
                   else Ok tt)%R)) in H as [-> _].
Qed.

(** A successful element of the series list is a dictionary with a
    dictionary of options and a list of terms, and runs the loop over its
    terms. *)
Lemma dps_sd_ok_inv sch d sd h d' h' :
  dps_sd sch d sd h = (Ok d', h') ->
  exists s o ts,
    sd = VDict s /\
    dict_get (cell h s) (VStr "options") = Some (VDict o) /\
    dict_get (cell h s) (VStr "terms") = Some (VList ts) /\
    for_each ts (dps_term sch o) d h = (Ok d', h').
Proof.
  unfold dps_sd. intros H. bind_ok H u h1 H1.
  apply require_keys_heap in H1 as ->.
  bind_ok H options h2 H2. apply reading_ok_inv in H2 as [-> H2].
  apply py_getitem_ok_inv in H2 as (s & -> & Hopt).
  destruct options as [| | | | | |o| | | |];
    try (apply lift_ok_inv in H as [_ H]; now apply raise_format1_not_ok in H).
  bind_ok H terms h3 H3. apply reading_ok_inv in H3 as [-> H3].
  apply py_getitem_ok_inv in H3 as (s' & [= <-] & Hterms).
  destruct terms as [| | | | |ts| | | | |];
    try (apply lift_ok_inv in H as [_ H]; now apply raise_format1_not_ok in H).
  destruct ts as [|t ts]; [discriminate|].
  exists s, o, (t :: ts). auto.
Qed.

(** The loop over the series list is the loop over its entries. *)
Lemma convert_dps_as_run sch h0 :
  Forall unique_keys h0 ->
  forall l D d h d' h',
    old_cells h0 D h ->
    Forall (fun sd => forall s, sd = VDict s -> s < length h0) l ->
    Forall (fun e => forall a, snd e = VDict a -> a < length h0)
      (entries h0 l) ->
    for_each l (dps_sd sch) d h = (Ok d', h') ->
    dps_run sch (entries h0 l) d h = (Ok d', h').
Proof.
  intros Hu. induction l as [|sd l IH]; intros D d h d' h' Hold Hsd Hcl Hrun.
  - exact Hrun.
  - simpl in Hrun. bind_ok Hrun d1 h1 H1.
    apply dps_sd_ok_inv in H1 as (s & o & ts & -> & Hopt & Hterms & H1).
    inversion Hsd as [|? ? Hs Hsd']; subst. specialize (Hs s eq_refl).
    rewrite (old_cells_get h0 D h s "options" Hold Hs) in Hopt by discriminate.
    rewrite (old_cells_get h0 D h s "terms" Hold Hs) in Hterms by discriminate.
    unfold entries in *. simpl in *. rewrite Hopt, Hterms in *.
    apply Forall_app in Hcl as [Hcl1 Hcl2].
    unfold dps_run. rewrite for_each_app. unfold bind.
    assert (H1' : dps_run sch (map (pair o) ts) d h = (Ok d1, h1))
      by (unfold dps_run; now rewrite for_each_map).
    unfold dps_run in H1'. rewrite H1'.
    destruct (dps_run_old sch h0 _ Hu D d h d1 h1 Hold Hcl1 H1') as (Hold1 & _).
    eapply IH; eassumption.
Qed.

Lemma convert_dps_ok_inv sch l h v h' :
  _convert_dps_to_dict sch l h = (Ok v, h') ->
  exists d h1,
    for_each l (dps_sd sch) [] h = (Ok d, h1) /\
    v = VDict (length h1) /\ h' = h1 ++ [d].
Proof.
  unfold _convert_dps_to_dict. intros H. bind_ok H d h1 H1. bind_ok H r h2 H2.
  apply alloc_ok_inv in H2 as [-> ->]. apply ret_ok_inv in H as [-> ->].
  eauto.
Qed.

Lemma clean_dps_list_ok_inv sch l h v h' :
  clean_dps sch (VList l) h = (Ok v, h') ->
  _convert_dps_to_dict sch l h = (Ok v, h').
Proof.
  unfold clean_dps. intros H. bind_ok H ne h1 H1.
  apply reading_ok_inv in H1 as [-> [= <-]].
  destruct l; [discriminate | exact H].
Qed.

(** A successful [clean_dps], as the run over the entries of its input
    followed by the creation of the result. *)
Lemma clean_dps_as_run sch l h0 v h' :
  closed_input h0 l ->
  clean_dps sch (VList l) h0 = (Ok v, h') ->
  exists d h1,
    dps_run sch (entries h0 l) [] h0 = (Ok d, h1) /\
    v = VDict (length h1) /\ h' = h1 ++ [d].
Proof.
  intros (Hu & Hsd & Hcl) H.
  apply clean_dps_list_ok_inv, convert_dps_ok_inv in H
    as (d & h1 & Hloop & -> & ->).
  exists d, h1. split; [|auto].
  eapply convert_dps_as_run; eauto using old_cells_start.
Qed.

Lemma dps_term_deletes sch o d t h r h1 :
  t < length h ->
  dict_mem (cell h t) new_name = true ->
  dps_term sch o d (VDict t) h = (r, h1) ->
  cell h1 t = dict_del (cell h t) new_name.
Proof.
  intros Ht Hm Hrun.
  assert (F : frame (length h) (after_del (VDict t) h) h1).
  { pose proof (dps_term_spec sch o d (VDict t) h) as Hwp.
    destruct r as [d'|e].
    - now apply (wp_ok _ _ _ _ _ _ Hwp) in Hrun as [F _].
    - now apply (wp_raised _ _ _ _ _ _ Hwp) in Hrun. }
  destruct F as (_ & _ & Hf). rewrite Hf by exact Ht.
  simpl. rewrite Hm. now apply cell_insert_eq.
Qed.

(** C10: whatever its outcome, [dps_term] on a term that is a dictionary
    with ['_new_name'] leaves that dictionary, the caller's own, without the
    key.  A successful [clean_dps] on a closed input leaves every dictionary
    of the caller as it was, but for the dictionaries given as terms: each of
    those had ['_new_name'] and has lost it.  The options dictionaries are
    untouched (they are copied); the term dictionaries are changed in
    place. *)
Theorem clean_dps_mutates_terms sch series_list h0 :
  (forall o d t h r h1,
     t < length h ->
     dict_mem (cell h t) new_name = true ->
     dps_term sch o d (VDict t) h = (r, h1) ->
     cell h1 t = dict_del (cell h t) new_name) /\
  (forall v h',
     closed_input h0 series_list ->
     clean_dps sch (VList series_list) h0 = (Ok v, h') ->
     forall a, a < length h0 ->
       if bool_decide (a ∈ dict_terms (entries h0 series_list))
       then dict_mem (cell h0 a) new_name = true /\
            cell h' a = dict_del (cell h0 a) new_name /\
            dict_mem (cell h' a) new_name = false
       else cell h' a = cell h0 a).
Proof.
  split; [apply dps_term_deletes|].
  intros v h' Hclosed Hrun a Ha.
  destruct (clean_dps_as_run _ _ _ _ _ Hclosed Hrun) as (d & h1 & H1 & -> & ->).
  destruct Hclosed as (Hu & Hsd & Hcl).
  destruct (dps_run_old sch h0 _ Hu [] [] h0 d h1 (old_cells_start h0) Hcl H1)
    as ([Hl Hc] & _ & _ & Hdel & _).
  rewrite cell_app_l by lia. rewrite Hc by exact Ha. rewrite app_nil_r.
  destruct (bool_decide _) eqn:E; [|reflexivity].
  apply bool_decide_eq_true in E. destruct (Hdel a E) as [_ Hm].
  split; [exact Hm | split; [reflexivity|]].
  unfold dict_mem, new_name. rewrite dict_get_del_same; [reflexivity|].
  now apply cell_unique_keys.
Qed.

Lemma sample_dps_closed : closed_input Sample.dps_heap [VDict 0].
Proof.
  split; [|split].
  - repeat constructor.
  - constructor; [|constructor]. intros s [= <-]. simpl. lia.
  - unfold entries. simpl. constructor; [|constructor; [|constructor]];
      simpl; intros a Ha; [discriminate Ha|].
    injection Ha as <-. lia.
Qed.

Lemma clean_dps_mutates_terms_witness :
  let h' := snd (clean_dps Sample.models Sample.dps_series Sample.dps_heap) in
  cell h' 2 = [(VStr "field", VStr "author__name")] /\
  cell h' 1 = cell Sample.dps_heap 1.
Proof.
  pose proof (proj2 (clean_dps_mutates_terms
                       Sample.models [VDict 0] Sample.dps_heap)
                (VDict 12)
                (snd (clean_dps Sample.models Sample.dps_series Sample.dps_heap))
                sample_dps_closed) as H.
  split.
  - apply (H ltac:(vm_compute; reflexivity) 2 ltac:(simpl; lia)).
  - apply (H ltac:(vm_compute; reflexivity) 1 ltac:(simpl; lia)).
Defined.

(** ** Names that are already in the map *)





(** ** The map a run builds *)

Lemma elem_of_dict_set d k v kv :
  kv ∈ dict_set d k v -> kv ∈ d \/ snd kv = v.
Proof.
  induction d as [|[k0 v0] d IH]; simpl.
  - intros ->%list_elem_of_singleton. now right.
  - destruct (key_eqb k0 k).
    + intros [-> | H]%elem_of_cons; [now right | left; now right].
    + intros [-> | H]%elem_of_cons; [left; now left|].
      destruct (IH H) as [H' | H']; [left; now right | now right].
Qed.

Lemma dict_set_unique_keys d k v :
  unique_keys d -> unique_keys (dict_set d k v).
Proof.
  induction d as [|[k0 v0] d IH]; simpl; [auto|]. intros [Hk Hu].
  destruct (key_eqb k0 k) eqn:E; simpl.
  - auto.
  - split; [|now apply IH].
    rewrite dict_get_set_other; [exact Hk|]. now rewrite key_eqb_sym.
Qed.




(** ** What one term of a PivotDataPool series does to the heap *)

Section PivotFrame.
Context (n : nat) (hi : heap).

Lemma wp_require_keys sd keys (Q : unit -> heap -> Prop) h :
  frame n hi h ->
  (Q tt h) ->
  wp (frame n hi) (require_keys sd keys) Q h.
Proof.
  intros HI HQ. unfold wp.
  destruct (require_keys sd keys h) as [[[]|e] h'] eqn:E;
    apply require_keys_heap in E as ->; assumption.
Qed.

Lemma wp_clean_categories sch categories source
    (Q : value * value -> heap -> Prop) h :
  frame n hi h ->
  (forall r h', frame n hi h' -> length h <= length h' -> Q r h') ->
  wp (frame n hi) (_clean_categories sch categories source) Q h.
Proof.
  intros HI HQ. unfold _clean_categories.
  apply wp_bind, wp_pure; [exact HI|]. intros c _.
  apply wp_bind, wp_pure; [exact HI|]. intros fa _.
  apply wp_bind, wp_alloc; [exact HI|]. intros h1 F1 L1.
  apply wp_ret, HQ; [exact F1 | lia].
Qed.

Lemma wp_validate_legend_by sch legend_by source
    (Q : value * value -> heap -> Prop) h :
  frame n hi h ->
  (forall r h', frame n hi h' -> length h <= length h' -> Q r h') ->
  wp (frame n hi) (_validate_legend_by sch legend_by source) Q h.
Proof.
  intros HI HQ. unfold _validate_legend_by.
  apply wp_bind, wp_read; [exact HI|]. intros lg _.
  destruct (negb (isinstance_list lg)); [now apply wp_raise|].
  apply wp_bind, wp_pure; [exact HI|]. intros fa _.
  apply wp_bind, wp_alloc; [exact HI|]. intros h1 F1 L1.
  apply wp_ret, HQ; [exact F1 | lia].
Qed.

Lemma wp_py_update_method v other (Q : unit -> heap -> Prop) h :
  frame n hi h ->
  (forall a, v = VDict a -> n <= a) ->
  (forall h', frame n hi h' -> length h' = length h -> Q tt h') ->
  wp (frame n hi) (py_update_method v other) Q h.
Proof.
  intros HI Hv HQ. destruct v; try now apply wp_raise.
  apply wp_py_update; auto.
Qed.

Lemma wp_merge_field_aliases fa_actual fa_cat fa_lgby
    (Q : value -> heap -> Prop) h :
  frame n hi h ->
  (forall r h', frame n hi h' -> length h <= length h' -> Q r h') ->
  wp (frame n hi) (_merge_field_aliases fa_actual fa_cat fa_lgby) Q h.
Proof.
  intros HI HQ. unfold _merge_field_aliases. apply wp_bind.
  assert (Hcopy : wp (frame n hi) (py_copy fa_lgby)
            (fun fa h1 => frame n hi h1 /\ length h <= length h1 /\
                          forall a, fa = VDict a -> n <= a) h).
  { destruct fa_lgby;
      try (apply wp_ret; split; [exact HI | split; [lia | discriminate]]).
    simpl. apply wp_bind. unfold copy_dict.


    unfold wp at 1, alloc. apply wp_ret.
    split; [now apply frame_app|]. split; [rewrite length_app; lia|].
    intros b [= <-]. destruct HI as (? & ? & _). lia. }
  eapply wp_weaken; [exact Hcopy|]. intros fa h1 (F1 & L1 & Hfa).
  apply wp_bind, wp_py_update_method; [exact F1 | exact Hfa|]. intros h2 F2 L2.
  apply wp_bind, wp_py_update_method; [exact F2 | exact Hfa|]. intros h3 F3 L3.
  apply wp_ret, HQ; [exact F3 | lia].
Qed.
End PivotFrame.

(** Every outcome of [pdps_term] leaves the dictionaries that existed
    before as they were; when it succeeds, the map has the key of the term
    bound to a record that did not exist before. *)
Lemma pdps_term_spec sch o d item h :
  wp (frame (length h) h) (pdps_term sch o d item)
    (fun d' h' =>
       frame (length h) h h' /\
       exists rec,
         d' = dict_set d (fst item) (VDict rec) /\
         length h <= rec /\ rec < length h') h.
Proof.
  assert (F0 : frame (length h) h h) by (apply frame_refl; lia).
  unfold pdps_term. cbv zeta. apply wp_bind.
  assert (Htv : wp (frame (length h) h)
            (if isinstance_Aggregate (snd item)
             then alloc [(VStr "func", snd item)]
             else match snd item with
                  | VDict a => ret a
                  | _ => lift (raise_format1
                           "Expecting a dict or django Aggregate in place of: "
                           FmtS "" (snd item))
                  end)
            (fun _ h1 => frame (length h) h h1 /\ length h <= length h1) h).
  { destruct (isinstance_Aggregate (snd item)).
    - apply wp_alloc; [exact F0|]. intros h1 F1 L1. split; [exact F1 | lia].
    - destruct (snd item);
        try (apply wp_pure; [exact F0|]; intros a Ha;
             now apply raise_format1_not_ok in Ha).
      apply wp_ret. auto. }
  eapply wp_weaken; [exact Htv|]. clear Htv. intros tv h1 [F1 L1].
  apply wp_bind, wp_deepcopy_dict; [exact F1|]. intros h2 F2 L2 _.
  set (opts := o + length h1).
  assert (Hopts : length h <= opts) by (unfold opts; lia).
  apply wp_bind, wp_py_update; [exact F2 | exact Hopts|]. intros h3 F3 L3.
  apply wp_bind, wp_require_keys; [exact F3|].
  apply wp_bind, wp_read; [exact F3|]. intros source Hsource.
  assert (Hvalid : opts < length h3).
  { apply py_getitem_ok_inv in Hsource as (a & [= <-] & Hg).
    apply cell_nonempty_valid. intros Hc. now rewrite Hc in Hg. }
  apply wp_bind, wp_pure; [exact F3|]. intros source' _.
  apply wp_bind, wp_py_setitem; [exact F3 | exact Hopts|]. intros h4 F4 L4 _.
  apply wp_bind, wp_read; [exact F4|]. intros func _.
  apply wp_bind, wp_pure; [exact F4|]. intros u _.
  apply wp_bind, wp_read; [exact F4|]. intros categories _.
  apply wp_bind, wp_read; [exact F4|]. intros source2 _.
  apply wp_bind, wp_clean_categories; [exact F4|]. intros cat h5 F5 L5.
  apply wp_bind, wp_py_setitem; [exact F5 | exact Hopts|]. intros h6 F6 L6 _.
  apply wp_bind, wp_read; [exact F6|]. intros has_legend_by _.
  apply wp_bind.
  assert (Hlg : wp (frame (length h) h)
            (if (has_legend_by : bool)
             then legend_by <- getitem opts "legend_by" ;;
                  source <- getitem opts "source" ;;
                  lg <- _validate_legend_by sch legend_by source ;;
                  setitem opts "legend_by" (fst lg) ;;;
                  ret (snd lg)
             else empty <- alloc [] ;;
                  setitem opts "legend_by" (VTuple []) ;;;
                  ret (VDict empty))%M
            (fun _ h7 => frame (length h) h h7 /\ length h6 <= length h7) h6).
  { destruct has_legend_by.
    - apply wp_bind, wp_read; [exact F6|]. intros legend_by _.
      apply wp_bind, wp_read; [exact F6|]. intros source3 _.
      apply wp_bind, wp_validate_legend_by; [exact F6|]. intros lg h7 F7 L7.
      apply wp_bind, wp_py_setitem; [exact F7 | exact Hopts|].
      intros h8 F8 L8 _. apply wp_ret. split; [exact F8 | lia].
    - apply wp_bind, wp_alloc; [exact F6|]. intros h7 F7 L7.
      apply wp_bind, wp_py_setitem; [exact F7 | exact Hopts|].
      intros h8 F8 L8 _. apply wp_ret. split; [exact F8 | lia]. }
  eapply wp_weaken; [exact Hlg|]. clear Hlg. intros fa_lgby h7 [F7 L7].
  apply wp_bind, wp_read; [exact F7|]. intros has_top_n _.
  apply wp_bind.
  assert (Htop : wp (frame (length h) h)
            (if (has_top_n : bool)
             then top_n_per_cat <- getitem opts "top_n_per_cat" ;;
                  lift (_validate_top_n_per_cat top_n_per_cat)
             else setitem opts "top_n_per_cat" (VInt 0))%M
            (fun _ h8 => frame (length h) h h8 /\ length h7 <= length h8) h7).
  { destruct has_top_n.
    - apply wp_bind, wp_read; [exact F7|]. intros top _.
      apply wp_pure; [exact F7|]. intros u' _. split; [exact F7 | lia].
    - apply wp_py_setitem; [exact F7 | exact Hopts|].
      intros h8 F8 L8 _. split; [exact F8 | lia]. }
  eapply wp_weaken; [exact Htop|]. clear Htop. intros u' h8 [F8 L8].
  apply wp_bind, wp_read; [exact F8|]. intros has_field_aliases _.
  apply wp_bind.
  assert (Hfa : wp (frame (length h) h)
            (if (has_field_aliases : bool)
             then getitem opts "field_aliases"
             else empty <- alloc [] ;;
                  setitem opts "field_aliases" (VDict empty) ;;;
                  ret (VDict empty))%M
            (fun _ h9 => frame (length h) h h9 /\ length h8 <= length h9) h8).
  { destruct has_field_aliases.
    - apply wp_read; [exact F8|]. intros fa _. split; [exact F8 | lia].
    - apply wp_bind, wp_alloc; [exact F8|]. intros h9 F9 L9.
      apply wp_bind, wp_py_setitem; [exact F9 | exact Hopts|].
      intros h10 F10 L10 _. apply wp_ret. split; [exact F10 | lia]. }
  eapply wp_weaken; [exact Hfa|]. clear Hfa. intros fa_actual h9 [F9 L9].
  apply wp_bind, wp_merge_field_aliases; [exact F9|]. intros fa h10 F10 L10.
  apply wp_bind, wp_py_setitem; [exact F10 | exact Hopts|]. intros h11 F11 L11 _.
  apply wp_ret. split; [exact F11|]. exists opts. repeat split; auto. lia.
Qed.

(** ** A run of clean_pdps, entry by entry *)



Lemma frame_length n (h h' : heap) : frame n h h' -> length h <= length h'.
Proof. now intros (_ & H & _). Qed.




Lemma pdps_sd_ok_inv sch d sd h d' h' :
  pdps_sd sch d sd h = (Ok d', h') ->
  exists s o tm,
    sd = VDict s /\
    dict_get (cell h s) (VStr "options") = Some (VDict o) /\
    dict_get (cell h s) (VStr "terms") = Some (VDict tm) /\
    for_each (cell h tm) (pdps_term sch o) d h = (Ok d', h').
Proof.
  unfold pdps_sd. intros H. bind_ok H u h1 H1.
  apply require_keys_heap in H1 as ->.
  bind_ok H options h2 H2. apply reading_ok_inv in H2 as [-> H2].
  apply py_getitem_ok_inv in H2 as (s & -> & Hopt).
  destruct options as [| | | | | |o| | | |];
    try (apply lift_ok_inv in H as [_ H]; now apply raise_format1_not_ok in H).
  bind_ok H terms h3 H3. apply reading_ok_inv in H3 as [-> H3].
  apply py_getitem_ok_inv in H3 as (s' & [= <-] & Hterms).
  destruct terms as [| | | | | |tm| | | |];
    try (apply lift_ok_inv in H as [_ H]; now apply raise_format1_not_ok in H).
  bind_ok H ne h4 H4. apply reading_ok_inv in H4 as [-> [= <-]].
  simpl in H. destruct (cell h tm) as [|it items] eqn:Hc; [discriminate|].
  simpl negb in H. cbv iota in H.
  bind_ok H its h5 H5. apply reading_ok_inv in H5 as [-> [= <-]].
  exists s, o, tm. auto.
Qed.



(** ** Last write wins *)





(** ** The triples clean_sortf_mapf_mts returns *)

Lemma slot_ok_test h f :
  truthy h f && negb (callable f) = false <-> slot_ok h f.
Proof.
  unfold slot_ok. destruct (truthy h f), (callable f); simpl; intuition congruence.
Qed.

Lemma clean_sortf_mapf_mts_ok h v r :
  clean_sortf_mapf_mts h v = Ok r <->
  (truthy h v = false /\ r = default_sortf_mapf_mts) \/
  (exists f g x, v = VTuple [f; g; x] /\ slot_ok h f /\ slot_ok h g /\
                 r = VTuple [f; g; VBool (truthy h x)]).
Proof.
  unfold clean_sortf_mapf_mts, default_sortf_mapf_mts. split.
  - destruct (truthy h v) eqn:Ht; simpl.
    + destruct v; simpl; try discriminate.
      destruct vs as [|f [|g [|x [|y vs]]]];
        unfold raise_format1, format1; simpl; try discriminate.
      * destruct (truthy h f && negb (callable f)) eqn:Hf; [discriminate|].
        destruct (truthy h g && negb (callable g)) eqn:Hg; [discriminate|].
        intros [= <-]. right. exists f, g, x.
        repeat split; try reflexivity; now apply slot_ok_test.
    + intros [= <-]. now left.
  - intros [[Ht ->] | (f & g & x & -> & Hf & Hg & ->)].
    + now rewrite Ht.
    + simpl. apply slot_ok_test in Hf, Hg. now rewrite Hf, Hg.
Qed.

Lemma clean_sortf_mapf_mts_fixed h v r :
  clean_sortf_mapf_mts h v = Ok r -> clean_sortf_mapf_mts h r = Ok r.
Proof.
  intros H. apply clean_sortf_mapf_mts_ok in H.
  destruct H as [[_ ->] | (f & g & x & -> & Hf & Hg & ->)].
  - reflexivity.
  - apply clean_sortf_mapf_mts_ok. right. exists f, g, (VBool (truthy h x)).
    repeat split; auto.
Qed.

(** X5. [clean_sortf_mapf_mts] returns exactly on the inputs whose truth
    value is false, with the default triple, and on the triples whose first
    two elements are each false or callable, with the third made a boolean
    (a false element such as [0] is kept as it is, not replaced by [None]).
    A triple it returns is returned unchanged when cleaned again. *)
Theorem clean_sortf_mapf_mts_idempotent h v r :
  (clean_sortf_mapf_mts h v = Ok r <->
   (truthy h v = false /\ r = default_sortf_mapf_mts) \/
   (exists f g x, v = VTuple [f; g; x] /\ slot_ok h f /\ slot_ok h g /\
                  r = VTuple [f; g; VBool (truthy h x)])) /\
  (clean_sortf_mapf_mts h v = Ok r -> clean_sortf_mapf_mts h r = Ok r).
Proof.
  split; [apply clean_sortf_mapf_mts_ok | apply clean_sortf_mapf_mts_fixed].
Qed.

Lemma clean_sortf_mapf_mts_idempotent_witness :
  clean_sortf_mapf_mts [] (VTuple [VFunc 0; VInt 0; VBool true]) =
    Ok (VTuple [VFunc 0; VInt 0; VBool true]).
Proof.
  apply (proj2 (clean_sortf_mapf_mts_idempotent []
                  (VTuple [VFunc 0; VInt 0; VStr "yes"])
                  (VTuple [VFunc 0; VInt 0; VBool true]))).
  reflexivity.
Defined.

Lemma mapR_fixed {A} (f : A -> result A) l cs :
  (forall x c, f x = Ok c -> f c = Ok c) ->
  mapR f l = Ok cs -> mapR f cs = Ok cs /\ length cs = length l.
Proof.
  intros Hf. revert cs. induction l as [|x l IH]; simpl; intros cs.
  - intros [= <-]. auto.
  - destruct (f x) as [c|] eqn:Hx; simpl; [|discriminate].
    destruct (mapR f l) as [cs'|] eqn:Hl; simpl; [|discriminate].
    intros [= <-]. destruct (IH cs' eq_refl) as [IH1 IH2]. simpl.
    rewrite (Hf _ _ Hx). simpl. rewrite IH1. simpl. auto.
Qed.

Lemma clean_x_tuple h t :
  clean_x_sortf_mapf_mts h (VTuple t) = clean_x_sortf_mapf_mts h (VList [VTuple t]).
Proof. destruct t; reflexivity. Qed.

Lemma mapR_fixed_all {A} (f : A -> result A) cs :
  mapR f cs = Ok cs -> Forall (fun c => f c = Ok c) cs.
Proof.
  induction cs as [|c cs IH]; simpl; [constructor|].
  destruct (f c) as [y|] eqn:Hc; simpl; [|discriminate].
  destruct (mapR f cs) as [ys|] eqn:Hcs; simpl; [|discriminate].
  intros [= -> ->]. constructor; auto.
Qed.

(** X6. What [clean_x_sortf_mapf_mts] returns is a list that is not empty,
    each element of which [clean_sortf_mapf_mts] returns unchanged; cleaning
    the result again returns it unchanged. *)
Theorem clean_x_sortf_mapf_mts_idempotent h v r :
  clean_x_sortf_mapf_mts h v = Ok r ->
  (exists cs, r = VList cs /\ cs <> [] /\
              Forall (fun c => clean_sortf_mapf_mts h c = Ok c) cs) /\
  clean_x_sortf_mapf_mts h r = Ok r.
Proof.
  assert (Hlist : forall l cs, l <> [] ->
            mapR (clean_sortf_mapf_mts h) l = Ok cs ->
            cs <> [] /\
            Forall (fun c => clean_sortf_mapf_mts h c = Ok c) cs /\
            clean_x_sortf_mapf_mts h (VList cs) = Ok (VList cs)).
  { intros l cs Hl Hm.
    destruct (mapR_fixed _ _ _ (clean_sortf_mapf_mts_fixed h) Hm) as [Hfix Hlen].
    assert (Hcs : cs <> []) by (destruct cs, l; simpl in *; congruence).
    repeat split; [exact Hcs| |].
    - now apply mapR_fixed_all.
    - rewrite clean_x_nonempty_list by exact Hcs. now rewrite Hfix. }
  assert (Hrun : forall l, l <> [] ->
            clean_x_sortf_mapf_mts h (VList l) = Ok r ->
            (exists cs, r = VList cs /\ cs <> [] /\
               Forall (fun c => clean_sortf_mapf_mts h c = Ok c) cs) /\
            clean_x_sortf_mapf_mts h r = Ok r).
  { intros l Hl. rewrite clean_x_nonempty_list by exact Hl.
    destruct (mapR (clean_sortf_mapf_mts h) l) as [cs|] eqn:Hm; simpl;
      [|discriminate].
    intros [= <-]. destruct (Hlist l cs Hl Hm) as (H1 & H2 & H3).
    split; [exists cs; auto | exact H3]. }
  destruct (truthy h v) eqn:Ht.
  - destruct v; try (unfold clean_x_sortf_mapf_mts; rewrite Ht; simpl; discriminate).
    + rewrite clean_x_tuple. apply Hrun. discriminate.
    + apply Hrun. destruct vs; [discriminate Ht | discriminate].
  - unfold clean_x_sortf_mapf_mts at 1. rewrite Ht. simpl. intros [= <-].
    split; [|reflexivity].
    exists [VTuple [VNone; VNone; VBool false]].
    repeat split; [discriminate|]. repeat constructor.
Qed.

Lemma clean_x_sortf_mapf_mts_idempotent_witness :
  clean_x_sortf_mapf_mts []
    (VList [VTuple [VFunc 0; VNone; VBool true]; default_sortf_mapf_mts]) =
  Ok (VList [VTuple [VFunc 0; VNone; VBool true]; default_sortf_mapf_mts]).
Proof.
  apply (clean_x_sortf_mapf_mts_idempotent []
           (VList [VTuple [VFunc 0; VNone; VInt 1]; VTuple []])).
  reflexivity.
Defined.

(** ** _merge_field_aliases *)

Lemma dict_get_eqb d k k' : key_eqb k k' = true -> dict_get d k = dict_get d k'.
Proof.
  intros Hk. induction d as [|[k0 v] d IH]; simpl; [reflexivity|].
  destruct (key_eqb k0 k) eqn:H0.
  - now rewrite (key_eqb_trans _ _ _ H0 Hk).
  - destruct (key_eqb k0 k') eqn:H1; [|exact IH].
    rewrite key_eqb_sym in Hk.
    now rewrite (key_eqb_trans _ _ _ H1 Hk) in H0.
Qed.

Lemma dict_get_set_eqb d k v k' :
  key_eqb k k' = true -> dict_get (dict_set d k v) k' = Some v.
Proof.
  intros Hk. induction d as [|[k0 v0] d IH]; simpl.
  - now rewrite Hk.
  - destruct (key_eqb k0 k) eqn:H0; simpl.
    + now rewrite (key_eqb_trans _ _ _ H0 Hk).
    + destruct (key_eqb k0 k') eqn:H1; [|exact IH].
      rewrite key_eqb_sym in Hk.
      now rewrite (key_eqb_trans _ _ _ H1 Hk) in H0.
Qed.

Lemma dict_get_update d d2 k :
  unique_keys d2 ->
  dict_get (dict_update d d2) k =
  match dict_get d2 k with Some v => Some v | None => dict_get d k end.
Proof.
  unfold dict_update. revert d.
  induction d2 as [|[k2 v2] d2 IH]; simpl; intros d Hu; [reflexivity|].
  destruct Hu as [Hk2 Hu]. rewrite IH by exact Hu.
  destruct (key_eqb k2 k) eqn:Hk.
  - rewrite <- (dict_get_eqb d2 _ _ Hk), Hk2.
    now apply dict_get_set_eqb.
  - now rewrite dict_get_set_other by exact Hk.
Qed.

Lemma insert_alloc (h : heap) (x y : dict) : <[length h := x]> (h ++ [y]) = h ++ [x].
Proof.
  rewrite insert_app_r_alt by lia. now rewrite Nat.sub_diag.
Qed.

Lemma merge_field_aliases_run h a c l :
  a < length h -> c < length h ->
  _merge_field_aliases (VDict a) (VDict c) (VDict l) h =
    (Ok (VDict (length h)),
     h ++ [dict_update (dict_update (cell h l) (cell h c)) (cell h a)]).
Proof.
  intros Ha Hc.
  unfold _merge_field_aliases, py_copy, copy_dict, py_update_method, py_update,
    bind, ret, alloc, update_pairs.
  rewrite (cell_app_l h _ c) by exact Hc.
  rewrite cell_alloc, insert_alloc.
  rewrite (cell_app_l h _ a) by exact Ha.
  now rewrite cell_alloc, insert_alloc.
Qed.

(** X1. [_merge_field_aliases] on three dictionaries returns a new
    dictionary and leaves the three as they were; a key of the result has
    the value of [fa_actual] when it is there, else the value of [fa_cat],
    else the value of [fa_lgby]. *)
Theorem merge_field_aliases_precedence h fa_actual fa_cat fa_lgby :
  fa_actual < length h -> fa_cat < length h ->
  unique_keys (cell h fa_actual) -> unique_keys (cell h fa_cat) ->
  exists fa,
    _merge_field_aliases (VDict fa_actual) (VDict fa_cat) (VDict fa_lgby) h =
      (Ok (VDict (length h)), h ++ [fa]) /\
    forall k,
      dict_get fa k =
      match dict_get (cell h fa_actual) k with
      | Some v => Some v
      | None =>
          match dict_get (cell h fa_cat) k with
          | Some v => Some v
          | None => dict_get (cell h fa_lgby) k
          end
      end.
Proof.
  intros Ha Hc Hua Huc.
  exists (dict_update (dict_update (cell h fa_lgby) (cell h fa_cat))
            (cell h fa_actual)).
  split; [now apply merge_field_aliases_run|].
  intros k. rewrite dict_get_update by exact Hua.
  now rewrite dict_get_update by exact Huc.
Qed.

Lemma merge_field_aliases_precedence_witness :
  exists fa,
    _merge_field_aliases (VDict 0) (VDict 1) (VDict 2)
      [[(VStr "a", VStr "X")]; [(VStr "a", VStr "Y")]; [(VStr "a", VStr "Z")]] =
      (Ok (VDict 3),
       [[(VStr "a", VStr "X")]; [(VStr "a", VStr "Y")]; [(VStr "a", VStr "Z")]]
         ++ [fa]) /\
    dict_get fa (VStr "a") = Some (VStr "X").
Proof.
  destruct (merge_field_aliases_precedence
              [[(VStr "a", VStr "X")]; [(VStr "a", VStr "Y")];
               [(VStr "a", VStr "Z")]] 0 1 2) as (fa & Hrun & Hget);
    [simpl; lia | simpl; lia | simpl; auto | simpl; auto |].
  exists fa. split; [exact Hrun|]. rewrite Hget. reflexivity.
Defined.

(** ** _clean_categories and _validate_legend_by *)

Lemma lookup_ok_str sch m c q v :
  _validate_field_lookup_term sch m c q = Ok v -> exists s, c = VStr s.
Proof.
  unfold _validate_field_lookup_term. simpl.
  destruct c; simpl; eauto; try discriminate;
    try (destruct (forallb hashable vs); discriminate).
Qed.

Lemma labelled_str sch source c v : labelled sch source c v -> exists s, c = VStr s.
Proof. intros (q & _ & H). eapply lookup_ok_str, H. Qed.

Lemma key_eqb_str_l k s : key_eqb (VStr s) k = true -> k = VStr s.
Proof. rewrite key_eqb_sym. apply key_eqb_str. Qed.

Lemma dict_set_keys d k v kv :
  kv ∈ dict_set d k v -> fst kv ∈ map fst d \/ kv = (k, v).
Proof.
  induction d as [|[k0 v0] d IH]; simpl.
  - intros H. apply list_elem_of_singleton in H. auto.
  - destruct (key_eqb k0 k).
    + intros H. apply elem_of_cons in H as [-> | H]; left; simpl.
      * apply elem_of_cons. auto.
      * apply elem_of_cons. right. apply list_elem_of_fmap. eauto.
    + intros H. apply elem_of_cons in H as [-> | H].
      * left. simpl. apply elem_of_cons. auto.
      * destruct (IH H) as [H1 | H1]; auto. left. apply elem_of_cons. auto.
Qed.

Lemma dict_mem_set d k v k' :
  hashable k = true ->
  dict_mem (dict_set d k v) k' = key_eqb k k' || dict_mem d k'.
Proof.
  intros Hh. unfold dict_mem. destruct (key_eqb k k') eqn:Hk; simpl.
  - now rewrite dict_get_set_eqb.
  - now rewrite dict_get_set_other.
Qed.

Lemma alias_step_inv sch source acc c d :
  (m <- py_model source ;;
   q <- py_query source ;;
   fa <- _validate_field_lookup_term sch m c q ;;
   if hashable c then Ok (dict_set acc c fa)
   else Raise (TypeError "unhashable type"))%R = Ok d ->
  exists v, labelled sch source c v /\ hashable c = true /\ d = dict_set acc c v.
Proof.
  destruct source; simpl; try discriminate.
  destruct (_validate_field_lookup_term _ _ _ _) as [v|] eqn:Hv; simpl;
    [|discriminate].
  destruct (hashable c) eqn:Hh; [|discriminate].
  intros [= <-]. exists v. repeat split; auto. now exists q.
Qed.

Lemma alias_fields_acc sch source l :
  forall acc d,
    for_eachR l
      (fun field_aliases c =>
         (m <- py_model source ;;
          q <- py_query source ;;
          fa <- _validate_field_lookup_term sch m c q ;;
          if hashable c then Ok (dict_set field_aliases c fa)
          else Raise (TypeError "unhashable type"))%R) acc = Ok d ->
    (unique_keys acc -> unique_keys d) /\
    ((forall k v, dict_get acc k = Some v -> labelled sch source k v) ->
     (forall k v, dict_get d k = Some v -> labelled sch source k v)) /\
    (forall k, dict_mem acc k = true \/ k ∈ l -> dict_mem d k = true) /\
    (forall kv, kv ∈ d -> fst kv ∈ map fst acc \/ fst kv ∈ l).
Proof.
  induction l as [|c l IH]; simpl; intros acc d.
  - intros [= <-]. repeat split; auto.
    + intros k [H | H]; [exact H | inversion H].
    + intros kv H. left. apply list_elem_of_fmap. eauto.
  - match goal with |- bindR ?b _ = _ -> _ => destruct b as [acc1|] eqn:Hb end;
      simpl; [|discriminate].
    intros Hl. apply alias_step_inv in Hb as (v & Hv & Hh & ->).
    destruct (IH _ _ Hl) as (IH1 & IH2 & IH3 & IH4).
    repeat split.
    + intros Hu. apply IH1. now apply dict_set_unique_keys.
    + intros Hc. apply IH2. intros k v0 Hk.
      destruct (key_eqb c k) eqn:Hck.
      * rewrite dict_get_set_eqb in Hk by exact Hck. injection Hk as <-.
        destruct (labelled_str _ _ _ _ Hv) as [s ->].
        now rewrite (key_eqb_str_l _ _ Hck).
      * rewrite dict_get_set_other in Hk by exact Hck. eauto.
    + intros k Hk. apply IH3. rewrite dict_mem_set by exact Hh.
      destruct Hk as [Hk | Hk].
      * left. rewrite Hk. apply orb_true_r.
      * apply elem_of_cons in Hk as [-> | Hk]; [|now right].
        left. rewrite key_eqb_refl by exact Hh. reflexivity.
    + intros kv Hkv. destruct (IH4 kv Hkv) as [H | H].
      * apply list_elem_of_fmap in H as (kv' & -> & H).
        apply dict_set_keys in H as [H | ->]; [now left|].
        right. apply elem_of_cons. now left.
      * right. apply elem_of_cons. now right.
Qed.

Lemma alias_fields_ok sch source l d :
  alias_fields sch source l = Ok d -> aliases_of sch source l d.
Proof.
  intros H. apply alias_fields_acc in H as (H1 & H2 & H3 & H4).
  repeat split.
  - apply H1. exact I.
  - intros c Hc. specialize (H3 c (or_intror Hc)). unfold dict_mem in H3.
    destruct (dict_get d c) as [v|] eqn:Hg; [|discriminate].
    exists v. split; [|reflexivity]. apply (H2 ltac:(discriminate) _ _ Hg).
  - intros kv Hkv. destruct (H4 kv Hkv) as [H | H]; [inversion H | exact H].
Qed.

Lemma alias_fields_complete sch source l :
  Forall (fun c => exists v, labelled sch source c v) l ->
  exists d, alias_fields sch source l = Ok d.
Proof.
  unfold alias_fields. generalize (@nil (value * value)).
  induction l as [|c l IH]; simpl; intros acc Hl; [eauto|].
  inversion Hl as [|? ? (v & Hv) Hl']; subst.
  destruct (labelled_str _ _ _ _ Hv) as [s ->].
  destruct Hv as (q & -> & Hv). simpl. rewrite Hv. simpl. apply IH, Hl'.
Qed.

Ltac categories_cases categories :=
  unfold _clean_categories, as_categories, bind, lift, ret, alloc;
  destruct categories as [| | | |vs|vs| | | | |]; simpl; try discriminate;
  try (destruct vs; [try discriminate|]; simpl).

Lemma clean_categories_ok_inv sch categories source h cats fa h' :
  _clean_categories sch categories source h = (Ok (cats, fa), h') ->
  cats = as_categories categories /\
  elems cats <> [] /\
  fa = VDict (length h) /\
  exists d, h' = h ++ [d] /\ aliases_of sch source (elems cats) d.
Proof.
  categories_cases categories;
    (destruct (alias_fields _ _ _) as [d|] eqn:Hd; [|discriminate]);
    intros [= <- <- <-];
    (repeat split; [discriminate|]);
    exists d; (split; [reflexivity | now apply alias_fields_ok]).
Qed.

Lemma clean_categories_complete sch categories source h :
  isinstance_str categories || isinstance_list categories
    || isinstance_tuple categories = true ->
  elems (as_categories categories) <> [] ->
  Forall (fun c => exists v, labelled sch source c v)
    (elems (as_categories categories)) ->
  exists d,
    _clean_categories sch categories source h =
      (Ok (as_categories categories, VDict (length h)), h ++ [d]).
Proof.
  intros Ht Hne Hall.
  destruct (alias_fields_complete _ _ _ Hall) as [d Hd]. exists d.
  revert Ht Hne Hd.
  categories_cases categories; intros Ht Hne Hd; try congruence;
    now rewrite Hd.
Qed.

Lemma clean_categories_raise_heap sch categories source h e h' :
  _clean_categories sch categories source h = (Raise e, h') -> h' = h.
Proof.
  categories_cases categories; try (now intros [= _ <-]);
    (destruct (alias_fields _ _ _); [discriminate | now intros [= _ <-]]).
Qed.

(** X2. When [_clean_categories] returns, the categories are the input, a
    string standing for the list of that string; they are not empty; the
    alias map is a new dictionary whose keys are the categories, each with
    the label [_validate_field_lookup_term] gives it on the model of the
    source.  It returns whenever the input is a string or a sequence that
    is not empty and every category is a valid lookup. *)
Theorem clean_categories_aliases sch categories source h :
  (forall cats fa h',
     _clean_categories sch categories source h = (Ok (cats, fa), h') ->
     cats = as_categories categories /\
     elems cats <> [] /\
     fa = VDict (length h) /\
     exists d, h' = h ++ [d] /\ aliases_of sch source (elems cats) d) /\
  (isinstance_str categories || isinstance_list categories
     || isinstance_tuple categories = true ->
   elems (as_categories categories) <> [] ->
   Forall (fun c => exists v, labelled sch source c v)
     (elems (as_categories categories)) ->
   exists d,
     _clean_categories sch categories source h =
       (Ok (as_categories categories, VDict (length h)), h ++ [d])).
Proof.
  split.
  - intros cats fa h'. apply clean_categories_ok_inv.
  - apply clean_categories_complete.
Qed.

Lemma clean_categories_aliases_witness :
  exists d,
    _clean_categories Sample.models (VTuple [VStr "title"; VStr "author__name"])
      (VQuerySet Sample.books) [] =
    (Ok (VTuple [VStr "title"; VStr "author__name"], VDict 0), [] ++ [d]).
Proof.
  apply (proj2 (clean_categories_aliases Sample.models
           (VTuple [VStr "title"; VStr "author__name"])
           (VQuerySet Sample.books) [])).
  - reflexivity.
  - discriminate.
  - repeat constructor; eexists; exists Sample.books;
      (split; [reflexivity | vm_compute; reflexivity]).
Defined.

(** X3. [_clean_categories] rejects the empty list with an input error;
    on the empty tuple the formatting of that message raises [TypeError];
    a value that is no string, list or tuple gets the input error about the
    type; a category that is no valid lookup makes the call fail; and a call
    that fails has added nothing to the heap. *)
Theorem clean_categories_rejects sch source h :
  _clean_categories sch (VList []) source h =
    (Raise (APIInputError
       [Lit "'categories' tuple or list must contain at least one valid model field. Got ";
        FmtS (VList []); Lit "."]), h) /\
  _clean_categories sch (VTuple []) source h =
    (Raise (TypeError "not enough arguments for format string"), h) /\
  (forall categories,
     isinstance_str categories || isinstance_list categories
       || isinstance_tuple categories = false ->
     _clean_categories sch categories source h =
       (Raise (APIInputError
          [Lit "'categories' must be one of the following types: basestring, tuple or list. Got ";
           FmtS categories; Lit " of type "; FmtType categories;
           Lit " instead."]), h)) /\
  (forall categories c,
     c ∈ elems (as_categories categories) ->
     (forall v, ~ labelled sch source c v) ->
     exists e, _clean_categories sch categories source h = (Raise e, h)) /\
  (forall categories e h',
     _clean_categories sch categories source h = (Raise e, h') -> h' = h).
Proof.
  split; [reflexivity|]. split; [reflexivity|]. split; [|split].
  - intros categories Ht. now destruct categories.
  - intros categories c Hc Hno.
    destruct (_clean_categories sch categories source h) as [[[cats fa]|e] h']
      eqn:H.
    + apply clean_categories_ok_inv in H as (-> & _ & _ & d & _ & _ & Hl & _).
      destruct (Hl c Hc) as (v & Hv & _). now destruct (Hno v).
    + exists e. now rewrite (clean_categories_raise_heap _ _ _ _ _ _ H).
  - intros categories e h'. apply clean_categories_raise_heap.
Qed.

Lemma clean_categories_rejects_witness :
  exists e,
    _clean_categories Sample.models (VList [VStr "title"; VStr "publisher"])
      (VQuerySet Sample.books) [] = (Raise e, []).
Proof.
  apply (proj1 (proj2 (proj2 (proj2
           (clean_categories_rejects Sample.models (VQuerySet Sample.books) []))))
         (VList [VStr "title"; VStr "publisher"]) (VStr "publisher")).
  - simpl. apply elem_of_cons. right. apply elem_of_cons. now left.
  - intros v (q & [= <-] & H). vm_compute in H. discriminate H.
Defined.

Lemma validate_legend_by_list sch l source h :
  _validate_legend_by sch (VList l) source h =
  match alias_fields sch source l with
  | Ok d => (Ok (VList l, VDict (length h)), h ++ [d])
  | Raise e => (Raise e, h)
  end.
Proof.
  unfold _validate_legend_by, bind, reading, lift, ret, alloc.
  destruct l; simpl; [reflexivity|].
  now destruct (alias_fields _ _ _).
Qed.

(** X4. [_validate_legend_by] answers every input whose truth value is
    false with the empty list and an empty alias map, without looking at the
    source; it rejects every other value that is not a list, a tuple
    included; for a list it returns the list and the alias map of its
    elements, and does so whenever every element is a valid lookup. *)
Theorem validate_legend_by_cases sch legend_by source h :
  (truthy h legend_by = false ->
   _validate_legend_by sch legend_by source h =
     (Ok (VList [], VDict (length h)), h ++ [[]])) /\
  (truthy h legend_by = true -> isinstance_list legend_by = false ->
   _validate_legend_by sch legend_by source h =
     (Raise (APIInputError [Lit "'legend_by' must be a list"]), h)) /\
  (forall l,
     legend_by = VList l ->
     (forall lg fa h',
        _validate_legend_by sch legend_by source h = (Ok (lg, fa), h') ->
        lg = VList l /\ fa = VDict (length h) /\
        exists d, h' = h ++ [d] /\ aliases_of sch source l d) /\
     (Forall (fun c => exists v, labelled sch source c v) l ->
      exists d,
        _validate_legend_by sch legend_by source h =
          (Ok (VList l, VDict (length h)), h ++ [d]))).
Proof.
  split; [|split].
  - intros Ht. unfold _validate_legend_by, bind, reading. rewrite Ht. reflexivity.
  - intros Ht Hl. unfold _validate_legend_by, bind, reading. rewrite Ht. simpl.
    now rewrite Hl.
  - intros l ->. rewrite validate_legend_by_list. split.
    + intros lg fa h'.
      destruct (alias_fields sch source l) as [d|] eqn:Hd; [|discriminate].
      intros [= <- <- <-]. repeat split. exists d.
      split; [reflexivity | now apply alias_fields_ok].
    + intros Hall. destruct (alias_fields_complete _ _ _ Hall) as [d ->].
      now exists d.
Qed.

Lemma validate_legend_by_cases_witness :
  _validate_legend_by Sample.models (VTuple []) VNone [] =
    (Ok (VList [], VDict 0), [] ++ [[]]) /\
  _validate_legend_by Sample.models (VTuple [VStr "title"])
    (VQuerySet Sample.books) [] =
    (Raise (APIInputError [Lit "'legend_by' must be a list"]), []).
Proof.
  split.
  - apply (proj1 (validate_legend_by_cases Sample.models (VTuple []) VNone [])).
    reflexivity.
  - apply (proj1 (proj2 (validate_legend_by_cases Sample.models
                           (VTuple [VStr "title"]) (VQuerySet Sample.books) [])));
      reflexivity.
Defined.

(** ** clean_pcso on a dictionary, and the list forms *)

Lemma pcso_check_ok ds item :
  pcso_check ds item = Ok tt <-> named_options ds item.
Proof.
  destruct item as [sok sod]. unfold pcso_check, named_options. simpl. split.
  - destruct (py_in_strs sok (series_keys ds)) as [[|]|] eqn:Hk; simpl;
      try discriminate.
    apply py_in_strs_true in Hk as (s & -> & Hs).
    destruct sod; simpl; try discriminate. intros _. eauto.
  - intros (s & b & [= -> ->] & Hs). simpl.
    now rewrite bool_decide_eq_true_2.
Qed.

Lemma clean_pcso_dict_run ds h a :
  clean_pcso (VDict a) ds h =
  match for_each (cell h a)
          (fun _ item => reading (fun _ => pcso_check ds item)) tt h with
  | (Ok _, h') => (Ok (VDict a), h')
  | (Raise e, h') => (Raise e, h')
  end.
Proof. reflexivity. Qed.

Lemma clean_pcso_dict_inv ds h a r h' :
  clean_pcso (VDict a) ds h = (r, h') ->
  h' = h /\
  match r with
  | Ok v => v = VDict a /\ Forall (named_options ds) (cell h a)
  | Raise e => exists item, item ∈ cell h a /\ pcso_check ds item = Raise e
  end.
Proof.
  rewrite clean_pcso_dict_run.
  destruct (for_each _ _ _ _) as [[u|e] h1] eqn:Hl; intros [= <- <-];
    apply (for_each_checks_inv (fun _ item => pcso_check ds item)) in Hl
      as [-> Hl]; (split; [reflexivity|]).
  - split; [reflexivity|]. eapply Forall_impl; [exact Hl|].
    intros item. apply pcso_check_ok.
  - exact Hl.
Qed.

Lemma clean_pcso_dict_ok ds h a :
  clean_pcso (VDict a) ds h = (Ok (VDict a), h) <->
  Forall (named_options ds) (cell h a).
Proof.
  split.
  - intros H. now apply clean_pcso_dict_inv in H as (_ & _ & H).
  - intros H. rewrite clean_pcso_dict_run.
    rewrite (for_each_checks_ok (fun _ item => pcso_check ds item));
      [reflexivity|].
    eapply Forall_impl; [exact H|]. intros item. apply pcso_check_ok.
Qed.

Lemma clean_pcso_dict_raise ds h a pre item post e :
  cell h a = pre ++ item :: post ->
  Forall (named_options ds) pre ->
  pcso_check ds item = Raise e ->
  clean_pcso (VDict a) ds h = (Raise e, h).
Proof.
  intros Hc Hpre He. rewrite clean_pcso_dict_run, Hc.
  rewrite (for_each_checks_raise (fun _ item => pcso_check ds item) pre item post h e);
    [reflexivity | | exact He].
  eapply Forall_impl; [exact Hpre|]. intros x. apply pcso_check_ok.
Qed.

(** X7. On a dictionary [clean_pcso] returns the same dictionary exactly
    when every key names a series of the datasource and every value is a
    dictionary; it never writes to the heap; at the first entry that fails,
    the error says that the key is no series of the datasource, or, when it
    is, that the value is not a dictionary. *)
Theorem clean_pcso_dict_checks ds h a :
  (clean_pcso (VDict a) ds h = (Ok (VDict a), h) <->
   Forall (named_options ds) (cell h a)) /\
  (forall r h', clean_pcso (VDict a) ds h = (r, h') ->
                h' = h /\ forall v, r = Ok v -> v = VDict a) /\
  (forall pre sok sod post,
     cell h a = pre ++ (sok, sod) :: post ->
     Forall (named_options ds) pre ->
     (hashable sok = true ->
      ~ (exists s, sok = VStr s /\ s ∈ series_keys ds) ->
      clean_pcso (VDict a) ds h = (Raise (not_a_pivot_series ds sok), h)) /\
     (forall s, sok = VStr s -> s ∈ series_keys ds ->
        isinstance_dict sod = false ->
        clean_pcso (VDict a) ds h = (Raise (options_not_dict sod), h))).
Proof.
  split; [apply clean_pcso_dict_ok|]. split.
  - intros r h' H. apply clean_pcso_dict_inv in H as [-> H].
    split; [reflexivity|]. intros v ->. apply H.
  - intros pre sok sod post Hc Hpre. split.
    + intros Hh Hno. eapply clean_pcso_dict_raise; eauto.
      unfold pcso_check. simpl.
      destruct (py_in_strs sok (series_keys ds)) as [[|]|] eqn:Hk; simpl.
      * apply py_in_strs_true in Hk. now destruct Hno.
      * reflexivity.
      * destruct sok; simpl in Hk, Hh; try discriminate;
          rewrite Hh in Hk; discriminate.
    + intros s -> Hs Hd. eapply clean_pcso_dict_raise; eauto.
      unfold pcso_check. simpl. rewrite bool_decide_eq_true_2 by exact Hs.
      simpl. now rewrite Hd.
Qed.

Lemma clean_pcso_dict_checks_witness :
  clean_pcso (VDict 0) Sample.pool Sample.cso_heap =
    (Ok (VDict 0), Sample.cso_heap).
Proof.
  apply (proj1 (clean_pcso_dict_checks Sample.pool Sample.cso_heap 0)).
  repeat constructor. exists "y", 1. split; [reflexivity|].
  apply elem_of_cons. right. apply elem_of_cons. now left.
Defined.

Lemma convert_pcso_value l h v h' :
  _convert_pcso_to_dict l h = (Ok v, h') -> exists a, v = VDict a /\ length h' = S a.
Proof.
  unfold _convert_pcso_to_dict, bind, alloc, ret.
  destruct (for_each _ _ _ _) as [[d|e] h1]; [|discriminate].
  intros [= <- <-]. exists (length h1). split; [reflexivity|].
  rewrite length_app. simpl. lia.
Qed.

Lemma convert_cso_value l h v h' :
  _convert_cso_to_dict l h = (Ok v, h') -> exists a, v = VDict a /\ length h' = S a.
Proof.
  unfold _convert_cso_to_dict, bind, alloc, ret.
  destruct (for_each _ _ _ _) as [[d|e] h1]; [|discriminate].
  intros [= <- <-]. exists (length h1). split; [reflexivity|].
  rewrite length_app. simpl. lia.
Qed.

Lemma clean_cso_dict_inv ds h a r h' :
  clean_cso (VDict a) ds h = (r, h') ->
  h' = h /\ forall v, r = Ok v -> v = VDict a.
Proof.
  rewrite clean_cso_dict_run.
  destruct (for_each _ _ _ _) as [[u|e] h1] eqn:Hl; intros [= <- <-];
    apply (for_each_checks_inv (cso_check ds)) in Hl as [-> Hl];
    (split; [reflexivity|]); [now intros v [= <-] | discriminate].
Qed.

Lemma clean_pcso_list ds l h :
  clean_pcso (VList l) ds h =
  (series_options <- _convert_pcso_to_dict l ;;
   clean_pcso series_options ds)%M h.
Proof.
  unfold clean_pcso at 1. unfold bind.
  destruct (_convert_pcso_to_dict l h) as [[v|e] h1] eqn:Hc; [|reflexivity].
  destruct (convert_pcso_value _ _ _ _ Hc) as (a & -> & _).
  change (clean_pcso_dict ds a h1) with (clean_pcso (VDict a) ds h1).
  destruct (clean_pcso (VDict a) ds h1) as [[w|e] h2] eqn:Hd; [|reflexivity].
  apply clean_pcso_dict_inv in Hd as (-> & -> & _). reflexivity.
Qed.

Lemma clean_cso_list ds l h :
  clean_cso (VList l) ds h =
  (series_options <- _convert_cso_to_dict l ;;
   clean_cso series_options ds)%M h.
Proof.
  unfold clean_cso at 1. unfold bind.
  destruct (_convert_cso_to_dict l h) as [[v|e] h1] eqn:Hc; [|reflexivity].
  destruct (convert_cso_value _ _ _ _ Hc) as (a & -> & _).
  change (clean_cso_dict ds a h1) with (clean_cso (VDict a) ds h1).
  destruct (clean_cso (VDict a) ds h1) as [[w|e] h2] eqn:Hd; [|reflexivity].
  apply clean_cso_dict_inv in Hd as (-> & Hw). now rewrite (Hw w eq_refl).
Qed.

(** X8. On a list, [clean_pcso] is [_convert_pcso_to_dict] followed by
    [clean_pcso] on the dictionary it built, and [clean_cso] is
    [_convert_cso_to_dict] followed by [clean_cso] on that dictionary. *)
Theorem clean_options_list_composes ds l h :
  clean_pcso (VList l) ds h =
    (series_options <- _convert_pcso_to_dict l ;;
     clean_pcso series_options ds)%M h /\
  clean_cso (VList l) ds h =
    (series_options <- _convert_cso_to_dict l ;;
     clean_cso series_options ds)%M h.
Proof. split; [apply clean_pcso_list | apply clean_cso_list]. Qed.

Lemma clean_pcso_fixed ds x h v h' :
  clean_pcso x ds h = (Ok v, h') -> clean_pcso v ds h' = (Ok v, h').
Proof.
  destruct x; try (simpl; unfold lift, raise_format1, format1; simpl; discriminate).
  - simpl. unfold lift, raise_format1.
    destruct (format1 _ _ _ _); discriminate.
  - rewrite clean_pcso_list. intros H.
    apply bind_ok_inv in H as (v0 & h1 & Hc & H).
    destruct (convert_pcso_value _ _ _ _ Hc) as (a & -> & _).
    pose proof H as H'. apply clean_pcso_dict_inv in H' as (-> & -> & _).
    exact H.
  - intros H. pose proof H as H'.
    apply clean_pcso_dict_inv in H' as (-> & -> & _). exact H.
Qed.

Lemma clean_cso_fixed ds x h v h' :
  clean_cso x ds h = (Ok v, h') -> clean_cso v ds h' = (Ok v, h').
Proof.
  destruct x; try discriminate.
  - rewrite clean_cso_list. intros H.
    apply bind_ok_inv in H as (v0 & h1 & Hc & H).
    destruct (convert_cso_value _ _ _ _ Hc) as (a & -> & _).
    pose proof H as H'. apply clean_cso_dict_inv in H' as (-> & Hv).
    now rewrite (Hv v eq_refl) in *.
  - intros H. pose proof H as H'.
    apply clean_cso_dict_inv in H' as (-> & Hv).
    now rewrite (Hv v eq_refl) in *.
Qed.

(** X9. [clean_pcso] and [clean_cso] accept what they return: given their
    result again, in the heap they left, they return it unchanged and leave
    the heap as it is. *)
Theorem clean_options_idempotent ds x h v h' :
  (clean_pcso x ds h = (Ok v, h') -> clean_pcso v ds h' = (Ok v, h')) /\
  (clean_cso x ds h = (Ok v, h') -> clean_cso v ds h' = (Ok v, h')).
Proof. split; [apply clean_pcso_fixed | apply clean_cso_fixed]. Qed.

(** ** The dictionaries of the caller *)

Lemma frame_self (h : heap) : frame (length h) h h.
Proof. apply frame_refl. lia. Qed.

Lemma frame_step (h0 h h' : heap) :
  frame (length h0) h0 h -> frame (length h) h h' -> frame (length h0) h0 h'.
Proof.
  intros F0 F. eapply frame_trans; [exact F0 | exact F|].
  now apply frame_length in F0.
Qed.

Lemma preserving_run {A} (m : M A) h r h' :
  preserving m -> m h = (r, h') -> frame (length h) h h'.
Proof.
  intros Hm E. specialize (Hm h). unfold wp in Hm. rewrite E in Hm.
  now destruct r.
Qed.

Lemma preserving_intro {A} (m : M A) :
  (forall h r h', m h = (r, h') -> frame (length h) h h') -> preserving m.
Proof.
  intros H h. unfold wp. destruct (m h) as [[a|e] h'] eqn:E; eapply H, E.
Qed.

Lemma preserving_ret {A} (a : A) : preserving (ret a).
Proof. intros h. apply frame_self. Qed.

Lemma preserving_raise {A} e : preserving (@raise A e).
Proof. intros h. apply frame_self. Qed.

Lemma preserving_lift {A} (r : result A) : preserving (lift r).
Proof. intros h. unfold wp, lift. destruct r; apply frame_self. Qed.

Lemma preserving_reading {A} (f : heap -> result A) : preserving (reading f).
Proof. intros h. unfold wp, reading. destruct (f h); apply frame_self. Qed.

Lemma preserving_alloc d : preserving (alloc d).
Proof. intros h. unfold wp, alloc. apply frame_app, frame_self. Qed.

Lemma preserving_bind {A B} (m : M A) (k : A -> M B) :
  preserving m -> (forall a, preserving (k a)) -> preserving (bind m k).
Proof.
  intros Hm Hk. apply preserving_intro. intros h r h' E.
  apply bind_inv in E as [(a & h1 & Em & Ek) | (e & Em & _)].
  - eapply frame_step; [eapply preserving_run, Em; exact Hm|].
    eapply preserving_run, Ek. apply Hk.
  - eapply preserving_run, Em. exact Hm.
Qed.

Lemma preserving_for_each {A S} (body : S -> A -> M S) l :
  (forall s x, preserving (body s x)) ->
  forall s, preserving (for_each l body s).
Proof.
  intros Hb. induction l as [|x l IH]; intros s; simpl.
  - apply preserving_ret.
  - apply preserving_bind; [apply Hb | exact IH].
Qed.

Lemma preserving_require_keys sd keys : preserving (require_keys sd keys).
Proof.
  apply preserving_intro. intros h r h' E.
  apply require_keys_heap in E as ->. apply frame_self.
Qed.

Lemma preserving_pdps_term sch o d item : preserving (pdps_term sch o d item).
Proof.
  intros h. eapply wp_weaken; [apply pdps_term_spec|]. now intros d' h' [F _].
Qed.

Lemma preserving_deepcopy_dict o : preserving (deepcopy_dict o).
Proof.
  intros h. apply wp_deepcopy_dict; [apply frame_self|]. auto.
Qed.

(** A copy of the options that is updated and completed: the writes go to
    the copy. *)
Lemma preserving_copy_update {A} o other (k : addr -> M A) :
  (forall opts, preserving (k opts)) ->
  preserving (opts <- deepcopy_dict o ;; py_update opts other ;;; k opts)%M.
Proof.
  intros Hk h. apply wp_bind, wp_deepcopy_dict; [apply frame_self|].
  intros h1 F1 L1 _.
  apply wp_bind, wp_py_update; [exact F1 | lia|]. intros h2 F2 L2.
  unfold wp. destruct (k (o + length h) h2) as [[a|e] h3] eqn:E;
    (eapply frame_step; [exact F2 | eapply preserving_run, E; apply Hk]).
Qed.

Lemma preserving_pcso_term o d term : preserving (pcso_term o d term).
Proof.
  destruct term; try apply preserving_ret.
  - apply preserving_bind; [apply preserving_deepcopy_dict|].
    intros opts. apply preserving_ret.
  - apply preserving_bind; [apply preserving_reading|]. intros items.
    apply preserving_for_each. intros d' item.
    cbv beta zeta.
    destruct (negb (isinstance_dict (snd item))); [apply preserving_lift|].
    apply (preserving_copy_update o (snd item)
             (fun opts => ret (dict_set d' (fst item) (VDict opts)))).
    intros opts. apply preserving_ret.
Qed.

Lemma preserving_cso_yterm o tk d yterm : preserving (cso_yterm o tk d yterm).
Proof.
  destruct yterm; try apply preserving_lift.
  - intros h. simpl. apply wp_bind, wp_deepcopy_dict; [apply frame_self|].
    intros h1 F1 L1 _.
    apply wp_bind, wp_py_setitem; [exact F1 | lia|]. intros h2 F2 L2 _.
    apply wp_ret. exact F2.
  - intros h. simpl. apply wp_bind, wp_deepcopy_dict; [apply frame_self|].
    intros h1 F1 L1 _.
    apply wp_bind, wp_read; [exact F1|]. intros v _.
    apply wp_bind, wp_py_update; [exact F1 | lia|]. intros h2 F2 L2.
    apply wp_bind, wp_py_setitem; [exact F2 | lia|]. intros h3 F3 L3 _.
    apply wp_bind, wp_read; [exact F3|]. intros k _.
    apply wp_ret. exact F3.
Qed.

Lemma preserving_cso_term o d item : preserving (cso_term o d item).
Proof.
  unfold cso_term. destruct (snd item); try apply preserving_lift.
  apply preserving_for_each. intros d' y. apply preserving_cso_yterm.
Qed.

Lemma preserving_pdps_sd sch d sd : preserving (pdps_sd sch d sd).
Proof.
  unfold pdps_sd.
  apply preserving_bind; [apply preserving_require_keys|]. intros _.
  apply preserving_bind; [apply preserving_reading|]. intros options.
  destruct options; try apply preserving_lift.
  apply preserving_bind; [apply preserving_reading|]. intros terms.
  destruct terms; try apply preserving_lift.
  apply preserving_bind; [apply preserving_reading|]. intros nonempty.
  destruct (negb nonempty); [apply preserving_raise|].
  apply preserving_bind; [apply preserving_reading|]. intros items.
  apply preserving_for_each. intros d' item. apply preserving_pdps_term.
Qed.

Lemma preserving_pcso_stod d stod : preserving (pcso_stod d stod).
Proof.
  unfold pcso_stod.
  apply preserving_bind; [apply preserving_reading|]. intros options.
  destruct options; try apply preserving_lift.
  apply preserving_bind; [apply preserving_reading|]. intros terms.
  destruct terms; try apply preserving_lift.
  apply preserving_for_each. intros d' term. apply preserving_pcso_term.
Qed.

Lemma preserving_cso_stod d stod : preserving (cso_stod d stod).
Proof.
  unfold cso_stod.
  apply preserving_bind; [apply preserving_reading|]. intros options.
  destruct options; try apply preserving_lift.
  apply preserving_bind; [apply preserving_reading|]. intros terms.
  destruct terms; try apply preserving_lift.
  apply preserving_bind; [apply preserving_reading|]. intros nonempty.
  destruct (negb nonempty); [apply preserving_raise|].
  apply preserving_bind; [apply preserving_reading|]. intros items.
  apply preserving_for_each. intros d' item. apply preserving_cso_term.
Qed.

Lemma preserving_convert {A} (body : dict -> A -> M dict) l :
  (forall d x, preserving (body d x)) ->
  preserving (series_dict <- for_each l body [] ;;
              r <- alloc series_dict ;; ret (VDict r))%M.
Proof.
  intros Hb. apply preserving_bind; [now apply preserving_for_each|].
  intros d. apply preserving_bind; [apply preserving_alloc|].
  intros r. apply preserving_ret.
Qed.

Lemma preserving_clean_pdps sch series : preserving (clean_pdps sch series).
Proof.
  unfold clean_pdps.
  apply preserving_bind; [apply preserving_reading|]. intros nonempty.
  destruct (negb nonempty); [apply preserving_raise|].
  destruct series; try apply preserving_lift.
  apply preserving_convert, preserving_pdps_sd.
Qed.

Lemma preserving_checks {A} (f : heap -> A -> result unit) l :
  preserving (for_each l (fun _ x => reading (fun h => f h x)) tt).
Proof. apply preserving_for_each. intros _ x. apply preserving_reading. Qed.

Lemma preserving_clean_pcso_dict ds a : preserving (clean_pcso_dict ds a).
Proof.
  unfold clean_pcso_dict.
  apply preserving_bind; [apply preserving_reading|]. intros items.
  apply preserving_bind; [|intros _; apply preserving_ret].
  apply (preserving_checks (fun _ item => pcso_check ds item)).
Qed.

Lemma preserving_clean_cso_dict ds a : preserving (clean_cso_dict ds a).
Proof.
  unfold clean_cso_dict.
  apply preserving_bind; [apply preserving_reading|]. intros items.
  apply preserving_bind; [|intros _; apply preserving_ret].
  apply (preserving_checks (cso_check ds)).
Qed.

Lemma preserving_clean_pcso x ds : preserving (clean_pcso x ds).
Proof.
  destruct x; try apply preserving_lift; [|apply preserving_clean_pcso_dict].
  simpl. apply preserving_bind.
  - apply preserving_convert, preserving_pcso_stod.
  - intros v. apply preserving_bind; [|intros _; apply preserving_ret].
    destruct v; try apply preserving_ret. apply preserving_clean_pcso_dict.
Qed.

Lemma preserving_clean_cso x ds : preserving (clean_cso x ds).
Proof.
  destruct x; try apply preserving_raise; [|apply preserving_clean_cso_dict].
  simpl. apply preserving_bind.
  - apply preserving_convert, preserving_cso_stod.
  - intros v. apply preserving_bind; [|intros _; apply preserving_ret].
    destruct v; try apply preserving_ret. apply preserving_clean_cso_dict.
Qed.

Lemma cell_lookup (h : heap) a x : h !! a = Some x -> cell h a = x.
Proof. unfold cell. now intros ->. Qed.

Lemma frame_prefix (h h' : heap) :
  frame (length h) h h' -> exists new, h' = h ++ new.
Proof.
  intros (_ & Hl & Hc). exists (drop (length h) h').
  rewrite <- (take_drop (length h) h') at 1. f_equal.
  apply list_eq. intros a. destruct (decide (a < length h)) as [Ha|Ha].
  - rewrite lookup_take_lt by exact Ha.
    specialize (Hc a Ha).
    destruct (lookup_lt_is_Some_2 h a Ha) as [x Hx].
    destruct (lookup_lt_is_Some_2 h' a ltac:(lia)) as [y Hy].
    rewrite (cell_lookup _ _ _ Hx), (cell_lookup _ _ _ Hy) in Hc.
    rewrite Hx, Hy. congruence.
  - rewrite lookup_take_ge by lia. symmetry. apply lookup_ge_None_2. lia.
Qed.

(** X10. Whatever their input and their outcome, [clean_pdps],
    [clean_pcso] and [clean_cso] leave every dictionary of the caller as it
    was: the heap they leave is the heap they were given, followed by new
    dictionaries. *)
Theorem cleaners_keep_caller_dicts h r h' :
  (forall sch series,
     clean_pdps sch series h = (r, h') -> exists new, h' = h ++ new) /\
  (forall series_options ds,
     clean_pcso series_options ds h = (r, h') -> exists new, h' = h ++ new) /\
  (forall series_options ds,
     clean_cso series_options ds h = (r, h') -> exists new, h' = h ++ new).
Proof.
  repeat split; intros; apply frame_prefix;
    eapply preserving_run; try eassumption.
  - apply preserving_clean_pdps.
  - apply preserving_clean_pcso.
  - apply preserving_clean_cso.
Qed.

Lemma cleaners_keep_caller_dicts_witness :
  exists new,
    snd (clean_pdps Sample.models Sample.pdps_series Sample.pdps_heap) =
    Sample.pdps_heap ++ new.
Proof.
  apply (proj1 (cleaners_keep_caller_dicts Sample.pdps_heap
                  (fst (clean_pdps Sample.models Sample.pdps_series
                          Sample.pdps_heap)) _) Sample.models Sample.pdps_series).
  apply surjective_pairing.
Defined.

(** ** The records _convert_cso_to_dict builds *)

Lemma deepcopy_dict_ok_inv o h a h' :
  deepcopy_dict o h = (Ok a, h') ->
  a = o + length h /\ h' = h ++ map (shift_dict (length h)) h.
Proof. unfold deepcopy_dict, deepcopy. simpl. now intros [= <- <-]. Qed.

Lemma py_update_ok_inv a other h u h' :
  py_update a other h = (Ok u, h') ->
  exists d2, update_pairs h other = Ok d2 /\
             h' = <[a := dict_update (cell h a) d2]> h.
Proof.
  unfold py_update. destruct (update_pairs h other) as [d2|]; [|discriminate].
  intros [= _ <-]. eauto.
Qed.

Lemma py_setitem_ok_inv a k v h u h' :
  py_setitem a k v h = (Ok u, h') ->
  hashable k = true /\ h' = <[a := dict_set (cell h a) k v]> h.
Proof.
  unfold py_setitem. destruct (hashable k); [|discriminate].
  now intros [= _ <-].
Qed.

Lemma setitem_ok_inv a k v h u h' :
  setitem a k v h = (Ok u, h') ->
  h' = <[a := dict_set (cell h a) (VStr k) v]> h.
Proof. intros H. now apply py_setitem_ok_inv in H as [_ ->]. Qed.

Lemma getitem_ok_inv a k h v h' :
  getitem a k h = (Ok v, h') ->
  h' = h /\ dict_get (cell h a) (VStr k) = Some v.
Proof.
  unfold getitem. intros H. apply reading_ok_inv in H as [-> H].
  split; [reflexivity|].
  apply py_getitem_ok_inv in H as (b & [= <-] & H). exact H.
Qed.

Lemma for_each_invariant {A S} (J : S -> heap -> Prop) (body : S -> A -> M S) l :
  (forall s x h s' h', x ∈ l -> J s h -> body s x h = (Ok s', h') -> J s' h') ->
  forall s h s' h', J s h -> for_each l body s h = (Ok s', h') -> J s' h'.
Proof.
  induction l as [|x l IH]; intros Hb s h s' h' HJ; simpl.
  - now intros [= <- <-].
  - intros H. bind_ok H s1 h1 H1.
    eapply (IH (fun s y h s' h' Hy =>
                  Hb s y h s' h' (proj2 (elem_of_cons l y x) (or_intror Hy))));
      [|exact H].
    eapply Hb; [apply elem_of_cons; now left | exact HJ | exact H1].
Qed.

Lemma cso_yterm_ok_inv o tk d yterm h d' h' :
  o < length h ->
  cso_yterm o tk d yterm h = (Ok d', h') ->
  exists k rec,
    d' = dict_set d k (VDict rec) /\ length h <= rec /\ rec < length h' /\
    dict_get (cell h' rec) (VStr "_x_axis_term") = Some tk.
Proof.
  intros Ho. destruct yterm; simpl;
    try (intros H; apply lift_ok_inv in H as [_ H];
         now apply raise_format1_not_ok in H).
  - intros H. bind_ok H opts h1 H1. bind_ok H u h2 H2.
    apply ret_ok_inv in H as [-> ->].
    apply deepcopy_dict_ok_inv in H1 as [-> ->].
    apply setitem_ok_inv in H2 as ->.
    exists (VStr s), (o + length h).
    assert (Hlt : o + length h < length (h ++ map (shift_dict (length h)) h))
      by (rewrite length_app, length_map; lia).
    repeat split; [lia | now rewrite length_insert|].
    rewrite cell_insert_eq by exact Hlt. now apply dict_get_set_same.
  - intros H. bind_ok H opts h1 H1. bind_ok H v h2 H2. bind_ok H u h3 H3.
    bind_ok H u' h4 H4. bind_ok H k h5 H5. apply ret_ok_inv in H as [-> ->].
    apply deepcopy_dict_ok_inv in H1 as [-> ->].
    apply reading_ok_inv in H2 as [-> _].
    apply py_update_ok_inv in H3 as (d2 & _ & ->).
    apply setitem_ok_inv in H4 as ->.
    apply reading_ok_inv in H5 as [-> _].
    exists k, (o + length h).
    assert (Hlt : o + length h < length (h ++ map (shift_dict (length h)) h))
      by (rewrite length_app, length_map; lia).
    repeat split; [lia | now rewrite !length_insert|].
    rewrite cell_insert_eq by (now rewrite length_insert).
    now apply dict_get_set_same.
Qed.

Lemma x_linked_frame h h' kv :
  frame (length h) h h' -> x_linked h kv -> x_linked h' kv.
Proof.
  intros F (rec & x & Hv & Hlt & Hg). exists rec, x.
  destruct F as (_ & Hl & Hc). repeat split; [exact Hv | lia|].
  now rewrite Hc.
Qed.

Lemma cso_yterm_linked h0 o tk d yterm h d' h' :
  o < length h0 ->
  frame (length h0) h0 h /\ Forall (x_linked h) d ->
  cso_yterm o tk d yterm h = (Ok d', h') ->
  frame (length h0) h0 h' /\ Forall (x_linked h') d'.
Proof.
  intros Ho [F0 Hd] H.
  assert (F : frame (length h) h h')
    by (eapply preserving_run, H; apply preserving_cso_yterm).
  split; [eapply frame_step; eassumption|].
  apply cso_yterm_ok_inv in H as (k & rec & -> & Hge & Hlt & Hg);
    [|apply frame_length in F0; lia].
  apply Forall_forall. intros kv Hkv.
  apply elem_of_dict_set in Hkv as [Hkv | Hkv].
  - eapply x_linked_frame; [exact F|]. eapply Forall_forall in Hd; eauto.
  - exists rec, tk. auto.
Qed.

Lemma stod_item_ok_inv h stod key v :
  stod_item h stod key = Ok v ->
  exists s, stod = VDict s /\ dict_get (cell h s) (VStr key) = Some v.
Proof.
  unfold stod_item, except_KeyError.
  destruct (py_getitem h stod (VStr key)) as [x|e] eqn:Hg.
  - intros [= <-]. now apply py_getitem_ok_inv in Hg.
  - destruct e; try discriminate. intros H.
    now apply raise_format1_not_ok in H.
Qed.

Lemma cso_stod_linked h0 d stod h d' h' :
  (forall s, stod = VDict s ->
     s < length h0 /\
     forall o, dict_get (cell h0 s) (VStr "options") = Some (VDict o) ->
               o < length h0) ->
  frame (length h0) h0 h /\ Forall (x_linked h) d ->
  cso_stod d stod h = (Ok d', h') ->
  frame (length h0) h0 h' /\ Forall (x_linked h') d'.
Proof.
  intros Hc HJ H. unfold cso_stod in H. bind_ok H options h1 H1.
  apply reading_ok_inv in H1 as [-> H1].
  apply stod_item_ok_inv in H1 as (s & -> & Hopt).
  destruct (Hc s eq_refl) as [Hs Ho].
  destruct options;
    try (apply lift_ok_inv in H as [_ H]; now apply raise_format1_not_ok in H).
  assert (Ha : a < length h0).
  { apply Ho. destruct HJ as [(_ & _ & Hcell) _]. now rewrite <- Hcell. }
  bind_ok H terms h1 H1. apply reading_ok_inv in H1 as [-> _].
  destruct terms;
    try (apply lift_ok_inv in H as [_ H]; now apply raise_format1_not_ok in H).
  bind_ok H nonempty h1 H1. apply reading_ok_inv in H1 as [-> _].
  destruct (negb nonempty); [discriminate|].
  bind_ok H items h1 H1. apply reading_ok_inv in H1 as [-> _].
  revert H. apply (for_each_invariant
             (fun d h => frame (length h0) h0 h /\ Forall (x_linked h) d)); [|exact HJ].
  intros d1 item h1 d2 h2 _ HJ1. unfold cso_term.
  destruct (snd item);
    try (intros H; apply lift_ok_inv in H as [_ H];
         now apply raise_format1_not_ok in H).
  apply (for_each_invariant
             (fun d h => frame (length h0) h0 h /\ Forall (x_linked h) d)); [|exact HJ1].
  intros d3 y h3 d4 h4 _ HJ3. now apply cso_yterm_linked.
Qed.

Lemma convert_cso_linked l h r h' :
  closed_options h l ->
  _convert_cso_to_dict l h = (Ok r, h') ->
  exists a, r = VDict a /\ Forall (x_linked h') (cell h' a).
Proof.
  intros Hc H. unfold _convert_cso_to_dict in H.
  bind_ok H d h1 H1. bind_ok H a h2 H2. apply ret_ok_inv in H as [-> ->].
  apply alloc_ok_inv in H2 as [-> ->].
  exists (length h1). split; [reflexivity|]. rewrite cell_alloc.
  assert (HJ : frame (length h) h h1 /\ Forall (x_linked h1) d).
  { revert H1.
    apply (for_each_invariant
             (fun d h1 => frame (length h) h h1 /\ Forall (x_linked h1) d)).
    - intros d1 stod h2 d2 h3 Hin. apply cso_stod_linked.
      eapply Forall_forall in Hc; eauto.
    - split; [apply frame_self | constructor]. }
  destruct HJ as [_ HJ]. eapply Forall_impl; [exact HJ|].
  intros kv. apply x_linked_frame, frame_app, frame_self.
Qed.

(** X11. The record [_convert_cso_to_dict] builds for a y-term has
    ['_x_axis_term'] set to the key of the terms the y-term is listed under,
    whatever the options and the y-term say; and every record of the map it
    returns, on a list whose elements and options exist in the heap, has an
    ['_x_axis_term']. *)
Theorem convert_cso_x_axis_term :
  (forall o tk d yterm h d' h',
     o < length h ->
     cso_yterm o tk d yterm h = (Ok d', h') ->
     exists k rec,
       d' = dict_set d k (VDict rec) /\
       dict_get (cell h' rec) (VStr "_x_axis_term") = Some tk) /\
  (forall l h r h',
     closed_options h l ->
     _convert_cso_to_dict l h = (Ok r, h') ->
     exists a, r = VDict a /\
       forall kv, kv ∈ cell h' a ->
         exists rec x, snd kv = VDict rec /\
           dict_get (cell h' rec) (VStr "_x_axis_term") = Some x).
Proof.
  split.
  - intros o tk d yterm h d' h' Ho H.
    apply cso_yterm_ok_inv in H as (k & rec & -> & _ & _ & Hg); eauto.
  - intros l h r h' Hc H.
    destruct (convert_cso_linked _ _ _ _ Hc H) as (a & -> & Ha).
    exists a. split; [reflexivity|]. intros kv Hkv.
    eapply Forall_forall in Ha as (rec & x & Hv & _ & Hg); eauto.
Qed.

Lemma example_cso_closed : closed_options Examples.cso_list_heap [VDict 0].
Proof.
  constructor; [|constructor]. intros s [= <-]. split; [simpl; lia|].
  intros o [= <-]. simpl. lia.
Qed.

Lemma convert_cso_x_axis_term_witness :
  let run := _convert_cso_to_dict [VDict 0] Examples.cso_list_heap in
  exists a, fst run = Ok (VDict a) /\
    forall kv, kv ∈ cell (snd run) a ->
      exists rec x, snd kv = VDict rec /\
        dict_get (cell (snd run) rec) (VStr "_x_axis_term") = Some x.
Proof.
  intros run.
  destruct (proj2 convert_cso_x_axis_term [VDict 0] Examples.cso_list_heap
              (VDict 20) (snd run) example_cso_closed) as (a & Ha & H).
  - vm_compute. reflexivity.
  - exists a. split; [|exact H]. rewrite <- Ha. vm_compute. reflexivity.
Defined.

(** ** Terms of the series options *)

Lemma clean_options_idempotent_witness :
  let run := clean_pcso (VList [VDict 0]) Sample.pool Examples.pcso_list_heap in
  clean_pcso (VDict 16) Sample.pool (snd run) = (Ok (VDict 16), snd run).
Proof.
  intros run.
  apply (proj1 (clean_options_idempotent Sample.pool (VList [VDict 0])
                  Examples.pcso_list_heap (VDict 16) (snd run))).
  vm_compute. reflexivity.
Defined.

(** X17. [_convert_pcso_to_dict] passes over the terms that are neither a
    string nor a dictionary: the loop over a list of terms is the loop over
    its strings and dictionaries. *)
Theorem pcso_terms_skipped options term_list :
  forall series_options_dict h,
    for_each term_list (pcso_term options) series_options_dict h =
    for_each (List.filter pcso_visible term_list) (pcso_term options)
      series_options_dict h.
Proof.
  induction term_list as [|term l IH]; intros d h; [reflexivity|].
  destruct (pcso_visible term) eqn:Hv.
  - replace (List.filter pcso_visible (term :: l))
      with (term :: List.filter pcso_visible l) by (simpl; now rewrite Hv).
    change (bind (pcso_term options d term) (for_each l (pcso_term options)) h =
            bind (pcso_term options d term)
              (for_each (List.filter pcso_visible l) (pcso_term options)) h).
    unfold bind.
    destruct (pcso_term options d term h) as [[d1|e] h1];
      [apply IH | reflexivity].
  - replace (List.filter pcso_visible (term :: l))
      with (List.filter pcso_visible l) by (simpl; now rewrite Hv).
    destruct term; try discriminate Hv; apply IH.
Qed.

Lemma cso_yterm_dict_run o tk d y h k v rest :
  y < length h ->
  cell h y = (k, v) :: rest ->
  cso_yterm o tk d (VDict y) h =
  (opts <- deepcopy_dict o ;;
   py_update opts v ;;;
   setitem opts "_x_axis_term" tk ;;;
   ret (dict_set d k (VDict opts)))%M h.
Proof.
  intros Hy Hc.
  assert (Hy1 : cell (h ++ map (shift_dict (length h)) h) y = (k, v) :: rest)
    by (now rewrite cell_app_l).
  unfold cso_yterm, bind, deepcopy_dict, deepcopy, reading, first_value,
    first_key, py_update, setitem, py_setitem, ret.
  cbn [snd fst hashable]. rewrite Hy1. cbn [snd fst].
  destruct (update_pairs _ v); [|reflexivity].
  rewrite !cell_insert_ne by lia. now rewrite Hy1.
Qed.

Lemma cso_yterm_dict_empty o tk d y h :
  y < length h ->
  cell h y = [] ->
  cso_yterm o tk d (VDict y) h =
    (Raise (IndexError "list index out of range"),
     h ++ map (shift_dict (length h)) h).
Proof.
  intros Hy Hc. simpl. unfold bind, deepcopy_dict, deepcopy, reading, first_value.
  simpl. rewrite cell_app_l by exact Hy. now rewrite Hc.
Qed.

(** ** What _validate_field_lookup_term accepts, and how it fails *)

Lemma split_dunder_length s : 0 < length (split_dunder s).
Proof.
  pose proof (split_dunder_nonempty s). destruct (split_dunder s); simpl;
    [contradiction | lia].
Qed.

Lemma lookup_sound_str sch query n :
  forall term model v,
    String.length term = n ->
    _validate_field_lookup_term sch model (VStr term) query = Ok v ->
    (exists f label, resolves sch model (split_dunder term) f /\
                     verbose_name f = Some label /\ v = VStr label) \/
    (exists k model',
       k < length (split_dunder term) /\
       reaches sch model (take k (split_dunder term)) model' /\
       known query (join "__" (drop k (split_dunder term))) /\
       v = VStr (join "__" (drop k (split_dunder term)))).
Proof.
  induction n as [n IH] using lt_wf_ind. intros term model v Hn.
  rewrite validate_field_lookup_term_unfold. unfold lookup_equation.
  destruct (knownb query term) eqn:Hk.
  { intros [= <-]. right. exists 0, model.
    rewrite take_0, drop_0, join_split_dunder.
    split; [apply split_dunder_length|]. split; [constructor|].
    split; [now apply knownb_spec | reflexivity]. }
  cbv zeta.
  destruct (_meta sch model) as [meta|] eqn:Hm; simpl; [|discriminate].
  destruct (get_all_field_names sch meta) as [names|] eqn:Hnames; simpl;
    [|discriminate].
  destruct (bool_decide (hd EmptyString (split_dunder term) ∈ names)) eqn:Hin;
    simpl; [|discriminate].
  apply bool_decide_eq_true_1 in Hin.
  destruct (get_field meta (hd EmptyString (split_dunder term))) as [f0|] eqn:Hf.
  2:{ destruct (Nat.eqb _ 1); discriminate. }
  destruct (Nat.eqb (length (split_dunder term)) 1) eqn:Hlen; simpl.
  - unfold py_verbose_name.
    destruct (verbose_name f0) as [label|] eqn:Hlabel; [|discriminate].
    intros [= <-]. left. exists f0, label. split; [|auto].
    apply Nat.eqb_eq in Hlen.
    destruct (split_dunder term) as [|t0 [|t1 rest]]; try discriminate.
    simpl in *. econstructor; eauto.
  - apply Nat.eqb_neq in Hlen.
    assert (Hne : tl (split_dunder term) <> []).
    { pose proof (split_dunder_nonempty term).
      destruct (split_dunder term) as [|t0 [|t1 rest]]; simpl in *; congruence. }
    intros Hrec.
    eapply IH in Hrec; [| |reflexivity];
      [|subst n; now apply join_tail_shorter].
    rewrite (split_join_tail _ Hne) in Hrec.
    destruct (split_dunder term) as [|t0 rest] eqn:Hs; [contradiction|].
    simpl in *.
    destruct Hrec as [(f & label & Hres & Hlabel & ->)
                     | (k & model' & Hlt & Hr & Hkn & ->)].
    + left. exists f, label. split; [|auto]. eapply resolves_step; eauto.
    + right. exists (S k), model'. simpl.
      split; [lia|]. split; [econstructor; eauto | auto].
Qed.

(** X12. When [_validate_field_lookup_term] returns on a string, either
    every segment of the term resolves through the schema, the last field
    has a label and the result is that label, or the first segments lead
    through fields of the schema to a model and the rest of the term is an
    annotation or an extra field of the query, which is the result. *)
Theorem lookup_sound sch model term query v :
  _validate_field_lookup_term sch model (VStr term) query = Ok v ->
  (exists f label, resolves sch model (split_dunder term) f /\
                   verbose_name f = Some label /\ v = VStr label) \/
  (exists k model',
     k < length (split_dunder term) /\
     reaches sch model (take k (split_dunder term)) model' /\
     known query (join "__" (drop k (split_dunder term))) /\
     v = VStr (join "__" (drop k (split_dunder term)))).
Proof. now apply (lookup_sound_str sch query (String.length term)). Qed.

Lemma lookup_sound_witness :
  (exists f label, resolves Sample.models (Some "Book")
                     (split_dunder "author__name") f /\
                   verbose_name f = Some label /\
                   VStr "full name" = VStr label) \/
  (exists k model',
     k < length (split_dunder "author__name") /\
     reaches Sample.models (Some "Book")
       (take k (split_dunder "author__name")) model' /\
     known (qs_query Sample.books)
       (join "__" (drop k (split_dunder "author__name"))) /\
     VStr "full name" = VStr (join "__" (drop k (split_dunder "author__name")))).
Proof.
  apply (lookup_sound Sample.models (Some "Book") "author__name"
           (qs_query Sample.books)).
  vm_compute. reflexivity.
Defined.

Lemma get_field_listed sch meta names n :
  get_all_field_names sch meta = Ok names -> n ∈ names ->
  exists f, get_field meta n = Ok f.
Proof.
  intros Hn Hin. apply (get_all_field_names_ok _ _ _ Hn) in Hin
    as (f & Hf & _ & Hnf).
  unfold get_field. destruct (find (field_named n) (get_fields meta)) eqn:Hfind;
    [eauto|].
  apply list_elem_of_In in Hf.
  pose proof (find_none _ _ Hfind f Hf) as Hno. unfold field_named in Hno.
  destruct Hnf as [<- | Ha].
  - now rewrite String.eqb_refl in Hno.
  - rewrite Ha, String.eqb_refl, orb_true_r in Hno. discriminate.
Qed.

Lemma lookup_errors_str sch query n :
  forall term model e,
    String.length term = n ->
    _validate_field_lookup_term sch model (VStr term) query = Raise e ->
    (exists t0 names, e = field_does_not_exist t0 names) \/
    e = AttributeError "_meta" \/
    e = AttributeError "verbose_name".
Proof.
  induction n as [n IH] using lt_wf_ind. intros term model e Hn.
  rewrite validate_field_lookup_term_unfold. unfold lookup_equation.
  destruct (knownb query term); [discriminate|]. cbv zeta.
  destruct (_meta sch model) as [meta|e0] eqn:Hm; simpl.
  2:{ intros [= <-]. right. left. now apply meta_raise in Hm. }
  destruct (get_all_field_names sch meta) as [names|e0] eqn:Hnames; simpl.
  2:{ intros [= <-]. right. left.
      now apply get_all_field_names_raise in Hnames. }
  destruct (bool_decide (hd EmptyString (split_dunder term) ∈ names)) eqn:Hin;
    simpl.
  2:{ intros [= <-]. left. eauto. }
  apply bool_decide_eq_true_1 in Hin.
  destruct (get_field_listed _ _ _ _ Hnames Hin) as [f0 Hf]. rewrite Hf.
  destruct (Nat.eqb (length (split_dunder term)) 1) eqn:Hlen; simpl.
  { unfold py_verbose_name. destruct (verbose_name f0); [discriminate|].
    intros [= <-]. auto. }
  apply Nat.eqb_neq in Hlen.
  assert (Hne : tl (split_dunder term) <> []).
  { pose proof (split_dunder_nonempty term).
    destruct (split_dunder term) as [|t0 [|t1 rest]]; simpl in *; congruence. }
  intros Hrec. eapply IH in Hrec; [exact Hrec | | reflexivity].
  subst n. now apply join_tail_shorter.
Qed.

Lemma lookup_errors_any sch model term query e :
  _validate_field_lookup_term sch model term query = Raise e ->
  (exists t0 names, e = field_does_not_exist t0 names) \/
  e = AttributeError "_meta" \/
  e = AttributeError "verbose_name" \/
  (e = AttributeError "split" /\ isinstance_str term = false) \/
  e = TypeError "unhashable type".
Proof.
  destruct term as [| | |s| | | | | | |];
    try (unfold _validate_field_lookup_term; simpl;
         repeat match goal with
                | |- context [if ?b then _ else _] => destruct b
                end; simpl; intros [= <-]; auto 6).
  intros H. apply (lookup_errors_str sch query (String.length s)) in H;
    [|reflexivity]. destruct H as [H | [H | H]]; auto.
Qed.

Lemma lookup_of_unlabelled_field sch model term query meta names f0 :
  ~ known query term ->
  _meta sch model = Ok meta ->
  get_all_field_names sch meta = Ok names ->
  split_dunder term = [term] ->
  term ∈ names ->
  get_field meta term = Ok f0 ->
  verbose_name f0 = None ->
  _validate_field_lookup_term sch model (VStr term) query =
    Raise (AttributeError "verbose_name").
Proof.
  intros Hk Hm Hnames Hs Hin Hf Hv.
  rewrite validate_field_lookup_term_unfold. unfold lookup_equation.
  destruct (knownb query term) eqn:E; [now apply knownb_spec in E|].
  cbv zeta. rewrite Hs, Hm. simpl. rewrite Hnames. simpl.
  rewrite bool_decide_eq_true_2 by exact Hin. simpl. rewrite Hf. simpl.
  unfold py_verbose_name. now rewrite Hv.
Qed.

Lemma lookup_past_plain_field sch model term query meta names f0 :
  ~ known query term ->
  _meta sch model = Ok meta ->
  get_all_field_names sch meta = Ok names ->
  hd EmptyString (split_dunder term) ∈ names ->
  get_field meta (hd EmptyString (split_dunder term)) = Ok f0 ->
  tl (split_dunder term) <> [] ->
  next_model model f0 = None ->
  ~ known query (join "__" (tl (split_dunder term))) ->
  _validate_field_lookup_term sch model (VStr term) query =
    Raise (AttributeError "_meta").
Proof.
  intros Hk Hm Hnames Hin Hf Hne Hnext Hk'.
  rewrite validate_field_lookup_term_unfold. unfold lookup_equation.
  destruct (knownb query term) eqn:E; [now apply knownb_spec in E|].
  cbv zeta. rewrite Hm. simpl. rewrite Hnames. simpl.
  rewrite bool_decide_eq_true_2 by exact Hin. simpl.
  destruct (Nat.eqb (length (split_dunder term)) 1) eqn:Hlen.
  { apply Nat.eqb_eq in Hlen.
    destruct (split_dunder term) as [|t0 [|t1 rest]]; simpl in *; congruence. }
  rewrite Hf. simpl. rewrite Hnext.
  rewrite validate_field_lookup_term_unfold. unfold lookup_equation.
  destruct (knownb query (join "__" (tl (split_dunder term)))) eqn:E';
    [now apply knownb_spec in E'|].
  reflexivity.
Qed.

(** X13. The exceptions of [_validate_field_lookup_term]: the input
    error for a segment that is no field, [AttributeError] for a model that
    is missing ([None._meta]), [AttributeError] for a last field that has no
    [verbose_name], [AttributeError] for a term that is not a string,
    [TypeError] for a term that cannot be hashed; no [FieldDoesNotExist] and
    no recursion error.  A lookup that goes on past a field with no related
    model raises the [AttributeError] on [_meta], and a lookup of one
    segment that names a field without a label, as a reverse relation,
    raises the one on [verbose_name]: neither is an input error. *)
Theorem lookup_errors sch model query :
  (forall term e,
     _validate_field_lookup_term sch model term query = Raise e ->
     (exists t0 names, e = field_does_not_exist t0 names) \/
     e = AttributeError "_meta" \/
     e = AttributeError "verbose_name" \/
     (e = AttributeError "split" /\ isinstance_str term = false) \/
     e = TypeError "unhashable type") /\
  (forall term meta names f0,
     ~ known query term ->
     _meta sch model = Ok meta ->
     get_all_field_names sch meta = Ok names ->
     hd EmptyString (split_dunder term) ∈ names ->
     get_field meta (hd EmptyString (split_dunder term)) = Ok f0 ->
     tl (split_dunder term) <> [] ->
     next_model model f0 = None ->
     ~ known query (join "__" (tl (split_dunder term))) ->
     _validate_field_lookup_term sch model (VStr term) query =
       Raise (AttributeError "_meta")) /\
  (forall term meta names f0,
     ~ known query term ->
     _meta sch model = Ok meta ->
     get_all_field_names sch meta = Ok names ->
     split_dunder term = [term] ->
     term ∈ names ->
     get_field meta term = Ok f0 ->
     verbose_name f0 = None ->
     _validate_field_lookup_term sch model (VStr term) query =
       Raise (AttributeError "verbose_name")).
Proof.
  split; [|split].
  - intros term e. apply lookup_errors_any.
  - intros term meta names f0. apply lookup_past_plain_field.
  - intros term meta names f0. apply lookup_of_unlabelled_field.
Qed.

Lemma lookup_errors_witness :
  _validate_field_lookup_term Sample.models (Some "Book") (VStr "title__size")
    (qs_query Sample.books) = Raise (AttributeError "_meta") /\
  _validate_field_lookup_term Sample.models (Some "Author") (VStr "book")
    (qs_query Sample.books) = Raise (AttributeError "verbose_name").
Proof.
  split.
  - apply (proj1 (proj2 (lookup_errors Sample.models (Some "Book")
                           (qs_query Sample.books)))
             "title__size" Sample.Book ["id"; "author_id"; "author"; "title"]
             (mkField "title" (Some "title") false false None "Book" false true
                (Some "title"))).
    + intros [H | H]; vm_compute in H; [|inversion H].
      apply elem_of_cons in H as [H | H]; [discriminate | inversion H].
    + reflexivity.
    + vm_compute. reflexivity.
    + vm_compute. apply elem_of_cons. right. apply elem_of_cons. right.
      apply elem_of_cons. right. apply elem_of_cons. now left.
    + reflexivity.
    + discriminate.
    + reflexivity.
    + intros [H | H]; vm_compute in H; [|inversion H].
      apply elem_of_cons in H as [H | H]; [discriminate | inversion H].
  - apply (proj2 (proj2 (lookup_errors Sample.models (Some "Author")
                           (qs_query Sample.books)))
             "book" Sample.Author ["id"; "name"; "book"]
             (mkField "book" None true false (Some "Book") "Author" true false
                None)).
    + intros [H | H]; vm_compute in H; [|inversion H].
      apply elem_of_cons in H as [H | H]; [discriminate | inversion H].
    + reflexivity.
    + vm_compute. reflexivity.
    + reflexivity.
    + apply elem_of_cons. right. apply elem_of_cons. right.
      apply elem_of_cons. now left.
    + reflexivity.
    + reflexivity.
Defined.

Lemma get_all_field_names_nodup sch meta names :
  get_all_field_names sch meta = Ok names -> NoDup names.
Proof.
  unfold get_all_field_names.
  destruct (for_eachR _ _ _) as [set|]; simpl; [|discriminate].
  intros [= <-]. apply NoDup_elements.
Qed.

Lemma get_all_field_names_own sch meta :
  (forall f, f ∈ get_fields meta -> field_model f = model meta) ->
  exists names, get_all_field_names sch meta = Ok names.
Proof.
  intros Hown. unfold get_all_field_names.
  assert (H : forall l acc, (forall f, f ∈ l -> field_model f = model meta) ->
            exists set, for_eachR l (add_field_names sch meta) acc = Ok set).
  { induction l as [|f l IH]; intros acc Hl; simpl; [eauto|].
    assert (Hf : add_field_names sch meta acc f =
                 Ok (if generic_foreign_key f then acc
                     else match attname f with
                          | Some a => acc ∪ {[name f]} ∪ {[a]}
                          | None => acc ∪ {[name f]}
                          end)).
    { unfold add_field_names. fold (generic_foreign_key f).
      destruct (generic_foreign_key f); [reflexivity|].
      rewrite (Hl f) by (apply elem_of_cons; now left).
      rewrite String.eqb_refl. simpl. now destruct (attname f). }
    rewrite Hf. simpl. apply IH. intros g Hg. apply Hl, elem_of_cons. now right. }
  destruct (H (get_fields meta) ∅ Hown) as [set ->]. simpl. eauto.
Qed.

(** X14. The list [get_all_field_names] returns has no name twice.  For
    a model whose fields are all declared on the model itself it returns,
    and the names are the names and attribute names of the fields that are
    no generic foreign key. *)
Theorem get_all_field_names_own_fields sch meta :
  (forall names, get_all_field_names sch meta = Ok names -> NoDup names) /\
  ((forall f, f ∈ get_fields meta -> field_model f = model meta) ->
   exists names,
     get_all_field_names sch meta = Ok names /\
     forall n, n ∈ names <->
       exists f, f ∈ get_fields meta /\ generic_foreign_key f = false /\
                 names_field f n).
Proof.
  split; [intros names; apply get_all_field_names_nodup|].
  intros Hown. destruct (get_all_field_names_own sch meta Hown) as [names Hn].
  exists names. split; [exact Hn|]. intros n.
  rewrite (get_all_field_names_ok _ _ _ Hn n). unfold listed, child_proxy.
  split; intros (f & Hf & H & Hnf); exists f.
  - destruct H as [H _]. auto.
  - repeat split; auto. intros [Hne _]. now apply Hne, Hown.
Qed.

Lemma get_all_field_names_own_fields_witness :
  exists names,
    get_all_field_names Sample.models Sample.Book = Ok names /\
    forall n, n ∈ names <->
      exists f, f ∈ get_fields Sample.Book /\ generic_foreign_key f = false /\
                names_field f n.
Proof.
  apply (proj2 (get_all_field_names_own_fields Sample.models Sample.Book)).
  intros f Hf. simpl in Hf.
  apply elem_of_cons in Hf as [-> | Hf]; [reflexivity|].
  apply elem_of_cons in Hf as [-> | Hf]; [reflexivity|].
  apply elem_of_cons in Hf as [-> | Hf]; [reflexivity | inversion Hf].
Defined.

(** ** The records of clean_dps *)

Lemma py_setdefault_ok_inv a k v h u h' :
  py_setdefault a k v h = (Ok u, h') ->
  hashable k = true /\
  h' = if dict_mem (cell h a) k then h else <[a := dict_set (cell h a) k v]> h.
Proof.
  unfold py_setdefault. destruct (hashable k); [|discriminate].
  destruct (dict_mem (cell h a) k); now intros [= _ <-].
Qed.

Lemma py_setdefault_cell a k v h u h' :
  a < length h ->
  py_setdefault a k v h = (Ok u, h') ->
  length h' = length h /\ cell h' a = dict_setdefault (cell h a) k v.
Proof.
  intros Ha H. apply py_setdefault_ok_inv in H as [_ ->].
  unfold dict_setdefault. destruct (dict_mem (cell h a) k); [auto|].
  rewrite length_insert. split; [reflexivity|]. now apply cell_insert_eq.
Qed.

Lemma setitem_cell a k v h u h' :
  a < length h ->
  setitem a k v h = (Ok u, h') ->
  length h' = length h /\ cell h' a = dict_set (cell h a) (VStr k) v.
Proof.
  intros Ha H. apply setitem_ok_inv in H as ->.
  rewrite length_insert. split; [reflexivity|]. now apply cell_insert_eq.
Qed.

Lemma has_key_ok_inv a k h b h' :
  has_key a k h = (Ok b, h') -> h' = h /\ b = dict_mem (cell h a) (VStr k).
Proof. unfold has_key, reading. now intros [= <- <-]. Qed.

Lemma dict_get_setdefault_other d k v k' :
  key_eqb k k' = false ->
  dict_get (dict_setdefault d k v) k' = dict_get d k'.
Proof.
  intros Hk. unfold dict_setdefault. destruct (dict_mem d k); [reflexivity|].
  now apply dict_get_set_other.
Qed.

Lemma dict_get_setdefault_same d k v :
  hashable k = true ->
  exists x, dict_get (dict_setdefault d k v) k = Some x /\
            (dict_get d k = None -> x = v).
Proof.
  intros Hh. unfold dict_setdefault, dict_mem.
  destruct (dict_get d k) as [x|] eqn:Hg.
  - exists x. split; [exact Hg | discriminate].
  - exists v. split; [now apply dict_get_set_same | reflexivity].
Qed.

Lemma validate_source_ok_inv source r :
  _validate_source source = Ok r -> exists q, source = VQuerySet q /\ r = source.
Proof.
  unfold _validate_source. destruct source; simpl; try discriminate.
  intros [= <-]. eauto.
Qed.

Lemma dps_named_ok_inv (o : addr) term h named h1 :
  match term with
  | VStr _ =>
      (opts <- deepcopy_dict o ;; ret (term, opts))%M
  | VDict t =>
      (_new_name <- getitem t "_new_name" ;;
       py_delitem t (VStr "_new_name") ;;;
       opts <- deepcopy_dict o ;;
       py_update opts term ;;;
       if hashable _new_name then ret (_new_name, opts)
       else raise (TypeError "unhashable type"))%M
  | _ => raise (APIInputError
           [Lit "Expecting a basestring or dict in place of: "; FmtS term])
  end h = (Ok named, h1) ->
  length h <= snd named.
Proof.
  destruct term; try discriminate.
  - intros H. bind_ok H opts h2 H2. apply ret_ok_inv in H as [_ ->].
    apply deepcopy_dict_ok_inv in H2 as [-> _]. simpl. lia.
  - intros H. bind_ok H n h2 H2. bind_ok H u h3 H3. bind_ok H opts h4 H4.
    bind_ok H u' h5 H5. destruct (hashable n); [|discriminate].
    apply ret_ok_inv in H as [_ ->].
    apply deepcopy_dict_ok_inv in H4 as [-> _].
    apply getitem_ok_inv in H2 as [-> _].
    unfold py_delitem in H3. simpl in H3.
    destruct (dict_mem (cell h a) (VStr "_new_name")); [|discriminate].
    injection H3 as _ <-. rewrite length_insert. simpl. lia.
Qed.

Lemma dps_term_record sch o d term h d' h' :
  dps_term sch o d term h = (Ok d', h') ->
  exists n rec,
    d' = dict_set d n (VDict rec) /\ length h <= rec /\ rec < length h' /\
    series_record sch (cell h' rec).
Proof.
  unfold dps_term. intros H. bind_ok H named h1 H1. cbv zeta in H.
  apply dps_named_ok_inv in H1.
  destruct named as [n rec]. simpl in H1. cbn [fst snd] in H.
  bind_ok H has_source h2 H2. apply has_key_ok_inv in H2 as [-> ->].
  destruct (dict_mem (cell h1 rec) (VStr "source")) eqn:Hsrc; simpl in H.
  2:{ apply lift_ok_inv in H as [_ H]. now apply raise_format1_not_ok in H. }
  assert (Hrec : rec < length h1).
  { apply cell_nonempty_valid. eapply dict_mem_nonempty, Hsrc. }
  bind_ok H source h2 H2. apply getitem_ok_inv in H2 as [-> _].
  bind_ok H source' h2 H2. apply lift_ok_inv in H2 as [-> H2].
  apply validate_source_ok_inv in H2 as (q & -> & ->).
  bind_ok H u h2 H2. apply setitem_cell in H2 as [L2 C2]; [|exact Hrec].
  bind_ok H u' h3 H3. apply py_setdefault_cell in H3 as [L3 C3]; [|lia].
  bind_ok H source2 h4 H4. apply getitem_ok_inv in H4 as [-> G4].
  bind_ok H m h4 H4. apply lift_ok_inv in H4 as [-> Hm].
  bind_ok H field h4 H4. apply getitem_ok_inv in H4 as [-> Gf].
  bind_ok H qy h4 H4. apply lift_ok_inv in H4 as [-> Hq].
  bind_ok H fa h4 H4. apply lift_ok_inv in H4 as [-> Hfa].
  bind_ok H u'' h4 H4. apply py_setdefault_cell in H4 as [L4 C4]; [|lia].
  apply ret_ok_inv in H as [-> ->].
  exists n, rec. split; [reflexivity|]. split; [exact H1|]. split; [lia|].
  assert (Hs2 : source2 = VQuerySet q).
  { rewrite C3, dict_get_setdefault_other, C2 in G4 by reflexivity.
    rewrite dict_get_set_same in G4 by reflexivity. congruence. }
  subst source2. simpl in Hm, Hq. injection Hm as <-. injection Hq as <-.
  destruct (dict_get_setdefault_same (cell h3 rec) (VStr "field_alias")
              (if negb (key_eqb n field) then n else fa) eq_refl)
    as (alias & Ga & _).
  exists q, field, fa, alias. rewrite C4.
  rewrite !dict_get_setdefault_other by reflexivity.
  repeat split; assumption.
Qed.

Lemma dps_run_records sch h0 :
  Forall unique_keys h0 ->
  forall es D d h d' h',
    old_cells h0 D h ->
    Forall (fun e => forall a, snd e = VDict a -> a < length h0) es ->
    dps_run sch es d h = (Ok d', h') ->
    records_are (series_record sch) h0 h d ->
    length h <= length h' /\ records_are (series_record sch) h0 h' d'.
Proof.
  intros Hu. induction es as [|e es IH]; intros D d h d' h' Hold Hcl Hrun Hd.
  - apply ret_ok_inv in Hrun as [-> ->]. auto.
  - rewrite dps_run_cons in Hrun. bind_ok Hrun d1 h1 H1.
    inversion Hcl as [|? ? Hcle Hcles]; subst.
    destruct (dps_term_old sch h0 D (fst e) d (snd e) h d1 h1 Hu Hold Hcle H1)
      as (Hold1 & _ & Hkeep & _).
    destruct (dps_term_record _ _ _ _ _ _ _ H1) as (n & rec & -> & Hge & Hlt & HP).
    assert (Hd1 : records_are (series_record sch) h0 h1
                    (dict_set d n (VDict rec))).
    { intros kv Hkv. apply elem_of_dict_set in Hkv as [Hkv | Hkv].
      - destruct (Hd kv Hkv) as (a & Ha & Hge' & Hlt' & HPa).
        exists a. repeat split; [exact Ha | exact Hge' | lia|].
        now rewrite Hkeep.
      - exists rec. destruct Hold as [Hl _]. repeat split; auto; lia. }
    destruct (IH _ _ _ _ _ Hold1 Hcles Hrun Hd1) as [IHl IHr].
    split; [lia | exact IHr].
Qed.

Lemma clean_dps_records_ok sch l h0 r h' :
  closed_input h0 l ->
  clean_dps sch (VList l) h0 = (Ok (VDict r), h') ->
  forall kv, kv ∈ cell h' r ->
    exists rec, snd kv = VDict rec /\ series_record sch (cell h' rec).
Proof.
  intros Hclosed Hrun.
  destruct (clean_dps_as_run _ _ _ _ _ Hclosed Hrun) as (d & h1 & H1 & Hr & ->).
  injection Hr as ->. destruct Hclosed as (Hu & Hsd & Hcl).
  destruct (dps_run_records sch h0 Hu _ [] [] h0 d h1 (old_cells_start h0) Hcl H1)
    as [_ Hrec].
  { intros kv Hkv. inversion Hkv. }
  rewrite cell_alloc. intros kv Hkv.
  destruct (Hrec kv Hkv) as (rec & Hv & _ & Hlt & HP).
  exists rec. split; [exact Hv|]. now rewrite cell_app_l.
Qed.

(** X15. Every record of the map [clean_dps] returns, on a closed input,
    is a dictionary with a queryset under ['source'], a ['field'] that is a
    valid lookup on the model of that queryset, and a ['field_alias']. *)
Theorem clean_dps_records sch series_list h0 r h' :
  closed_input h0 series_list ->
  clean_dps sch (VList series_list) h0 = (Ok (VDict r), h') ->
  forall kv, kv ∈ cell h' r ->
    exists rec q field label alias,
      snd kv = VDict rec /\
      dict_get (cell h' rec) (VStr "source") = Some (VQuerySet q) /\
      dict_get (cell h' rec) (VStr "field") = Some field /\
      _validate_field_lookup_term sch (Some (qs_model q)) field (qs_query q) =
        Ok label /\
      dict_get (cell h' rec) (VStr "field_alias") = Some alias.
Proof.
  intros Hclosed Hrun kv Hkv.
  destruct (clean_dps_records_ok _ _ _ _ _ Hclosed Hrun kv Hkv)
    as (rec & Hv & q & field & label & alias & H).
  exists rec, q, field, label, alias. auto.
Qed.

Lemma clean_dps_records_witness :
  let h' := snd (clean_dps Sample.models Sample.dps_series Sample.dps_heap) in
  Forall
    (fun kv =>
       exists rec q field label alias,
         snd kv = VDict rec /\
         dict_get (cell h' rec) (VStr "source") = Some (VQuerySet q) /\
         dict_get (cell h' rec) (VStr "field") = Some field /\
         _validate_field_lookup_term Sample.models (Some (qs_model q)) field
           (qs_query q) = Ok label /\
         dict_get (cell h' rec) (VStr "field_alias") = Some alias)
    (cell h' 12).
Proof.
  intros h'. apply Forall_forall.
  apply (clean_dps_records Sample.models [VDict 0] Sample.dps_heap 12 h'
           sample_dps_closed).
  vm_compute. reflexivity.
Defined.

(** ** The records of clean_pdps *)

Lemma aliases_of_labelled sch source l d :
  aliases_of sch source l d ->
  Forall (fun c => exists v, labelled sch source c v) l.
Proof.
  intros (_ & H & _). apply Forall_forall. intros c Hc.
  destruct (H c Hc) as (v & Hv & _). eauto.
Qed.

Lemma validate_legend_by_ok_inv sch legend_by source h lg fa h' :
  _validate_legend_by sch legend_by source h = (Ok (lg, fa), h') ->
  exists l d,
    lg = VList l /\ fa = VDict (length h) /\ h' = h ++ [d] /\
    aliases_of sch source l d.
Proof.
  unfold _validate_legend_by, bind, reading, lift, ret, alloc.
  destruct (truthy h legend_by); simpl.
  - destruct legend_by; simpl; try discriminate.
    destruct (alias_fields sch source vs) as [d|] eqn:Hd; [|discriminate].
    intros [= <- <- <-]. exists vs, d. repeat split.
    all: now apply alias_fields_ok in Hd as (? & ? & ?).
  - intros [= <- <- <-]. exists [], []. repeat split.
    + intros c Hc. inversion Hc.
    + intros kv Hkv. inversion Hkv.
Qed.

Lemma merge_field_aliases_ok_inv fa_actual fa_cat lgby h fa h' :
  _merge_field_aliases fa_actual fa_cat (VDict lgby) h = (Ok fa, h') ->
  fa = VDict (length h) /\ length h < length h' /\
  forall a, a < length h -> cell h' a = cell h a.
Proof.
  unfold _merge_field_aliases, py_copy, copy_dict. intros H.
  bind_ok H fa0 h1 H1. bind_ok H1 b h2 H2. apply ret_ok_inv in H1 as [-> ->].
  apply alloc_ok_inv in H2 as [-> ->].
  bind_ok H u h3 H3. bind_ok H u' h4 H4. apply ret_ok_inv in H as [-> ->].
  simpl in H3, H4.
  apply py_update_ok_inv in H3 as (d2 & _ & ->).
  apply py_update_ok_inv in H4 as (d3 & _ & ->).
  split; [reflexivity|]. split.
  - rewrite !length_insert, length_app. simpl. lia.
  - intros a Ha. rewrite !cell_insert_ne by lia. now apply cell_app_l.
Qed.

Lemma validate_func_ok_inv func u :
  _validate_func func = Ok u -> isinstance_Aggregate func = true.
Proof. unfold _validate_func. now destruct (isinstance_Aggregate func). Qed.

Lemma validate_top_n_ok_inv topn u :
  _validate_top_n_per_cat topn = Ok u -> isinstance_int topn = true.
Proof. unfold _validate_top_n_per_cat. now destruct (isinstance_int topn). Qed.

Lemma as_categories_sequence categories :
  isinstance_str categories || isinstance_list categories
    || isinstance_tuple categories = true ->
  isinstance_list (as_categories categories)
    || isinstance_tuple (as_categories categories) = true.
Proof. now destruct categories. Qed.

Lemma clean_categories_sequence sch categories source h r h' :
  _clean_categories sch categories source h = (Ok r, h') ->
  isinstance_str categories || isinstance_list categories
    || isinstance_tuple categories = true.
Proof.
  unfold _clean_categories, bind, lift. now destruct categories.
Qed.

Lemma pdps_term_record sch o d item h d' h' :
  pdps_term sch o d item h = (Ok d', h') ->
  exists rec,
    d' = dict_set d (fst item) (VDict rec) /\ length h <= rec /\
    rec < length h' /\ pivot_record sch (cell h' rec).
Proof.
  unfold pdps_term. cbv zeta. intros H.
  bind_ok H tv h1 H1.
  assert (L1 : length h <= length h1).
  { destruct (isinstance_Aggregate (snd item)).
    - apply alloc_ok_inv in H1 as [_ ->]. rewrite length_app. lia.
    - destruct (snd item);
        try (apply lift_ok_inv in H1 as [_ H1];
             now apply raise_format1_not_ok in H1).
      apply ret_ok_inv in H1 as [-> _]. lia. }
  clear H1. bind_ok H opts h2 H2.
  apply deepcopy_dict_ok_inv in H2 as [-> ->].
  set (opts := o + length h1) in *.
  bind_ok H u h3 H3. apply py_update_ok_inv in H3 as (d2 & _ & ->).
  bind_ok H u1 h3 H3. apply require_keys_heap in H3 as ->.
  bind_ok H source h3 H3. apply getitem_ok_inv in H3 as [-> G3].
  match type of G3 with dict_get (cell ?hh _) _ = _ => set (h3 := hh) in * end.
  assert (V3 : opts < length h3).
  { apply cell_nonempty_valid. intros Hc. now rewrite Hc in G3. }
  bind_ok H src h4 H4. apply lift_ok_inv in H4 as [-> H4].
  apply validate_source_ok_inv in H4 as (q & -> & ->).
  bind_ok H u2 h4 H4. apply setitem_cell in H4 as [L4 C4]; [|exact V3].
  bind_ok H func h5 H5. apply getitem_ok_inv in H5 as [-> Gfunc].
  bind_ok H u3 h5 H5. apply lift_ok_inv in H5 as [-> Hfunc].
  apply validate_func_ok_inv in Hfunc.
  bind_ok H categories h5 H5. apply getitem_ok_inv in H5 as [-> _].
  bind_ok H source2 h5 H5. apply getitem_ok_inv in H5 as [-> Gs2].
  rewrite C4, dict_get_set_same in Gs2 by reflexivity. injection Gs2 as <-.
  bind_ok H cat h5 H5. destruct cat as [cats fa_cat].
  pose proof (clean_categories_sequence _ _ _ _ _ _ H5) as Hseq.
  apply clean_categories_ok_inv in H5 as (Hcats & Hne & _ & dc & -> & Hal).
  apply as_categories_sequence in Hseq. rewrite <- Hcats in Hseq.
  apply aliases_of_labelled in Hal.
  cbn [fst snd] in H.
  bind_ok H u4 h6 H6.
  apply setitem_cell in H6 as [L6 C6]; [|rewrite length_app; lia].
  rewrite cell_app_l in C6 by lia.
  rewrite length_app in L6. simpl in L6.
  bind_ok H has_lg h7 H7. apply has_key_ok_inv in H7 as [-> _].
  bind_ok H fa_lgby h7 H7.
  assert (Hlg : exists lg lgby,
            fa_lgby = VDict lgby /\ length h6 <= length h7 /\
            cell h7 opts = dict_set (cell h6 opts) (VStr "legend_by") lg /\
            (lg = VTuple [] \/ isinstance_list lg = true) /\
            Forall (fun c => exists v, labelled sch (VQuerySet q) c v)
              (elems lg)).
  { destruct has_lg.
    - bind_ok H7 legend_by h8 H8. apply getitem_ok_inv in H8 as [-> _].
      bind_ok H7 source3 h8 H8. apply getitem_ok_inv in H8 as [-> Gs3].
      rewrite C6, dict_get_set_other, C4, dict_get_set_same in Gs3
        by reflexivity.
      injection Gs3 as <-.
      bind_ok H7 lg h8 H8. destruct lg as [lg fa_lg].
      apply validate_legend_by_ok_inv in H8 as (l & dl & -> & -> & -> & Hl).
      cbn [fst snd] in H7.
      bind_ok H7 u5 h9 H9.
      apply setitem_cell in H9 as [L9 C9]; [|rewrite length_app; lia].
      apply ret_ok_inv in H7 as [-> ->].
      rewrite cell_app_l in C9 by lia. rewrite length_app in L9.
      simpl in L9.
      exists (VList l), (length h6).
      split; [reflexivity|]. split; [lia|]. split; [exact C9|].
      split; [now right|]. simpl. eapply aliases_of_labelled, Hl.
    - bind_ok H7 emp h8 H8. apply alloc_ok_inv in H8 as [-> ->].
      bind_ok H7 u5 h9 H9.
      apply setitem_cell in H9 as [L9 C9]; [|rewrite length_app; lia].
      apply ret_ok_inv in H7 as [-> ->].
      rewrite cell_app_l in C9 by lia. rewrite length_app in L9.
      simpl in L9.
      exists (VTuple []), (length h6).
      split; [reflexivity|]. split; [lia|]. split; [exact C9|].
      split; [now left|]. constructor. }
  clear H7. destruct Hlg as (lg & lgby & -> & L7 & C7 & Hlg1 & Hlg2).
  bind_ok H has_top h8 H8. apply has_key_ok_inv in H8 as [-> _].
  bind_ok H u6 h8 H8.
  assert (Htop : length h7 <= length h8 /\
            (exists topn, dict_get (cell h8 opts) (VStr "top_n_per_cat") = Some topn
                         /\ isinstance_int topn = true) /\
            forall k, String.eqb "top_n_per_cat" k = false ->
              dict_get (cell h8 opts) (VStr k) = dict_get (cell h7 opts) (VStr k)).
  { destruct has_top.
    - bind_ok H8 topn h9 H9. apply getitem_ok_inv in H9 as [-> Gtop].
      apply lift_ok_inv in H8 as [-> Htop].
      apply validate_top_n_ok_inv in Htop. repeat split; eauto.
    - apply setitem_cell in H8 as [L8 C8]; [|lia]. rewrite C8.
      split; [lia|]. split.
      + exists (VInt 0). split; [now apply dict_get_set_same | reflexivity].
      + intros k Hk. now apply dict_get_set_other. }
  clear H8. destruct Htop as (L8 & (topn & Gtop & Htop) & K8).
  bind_ok H has_fa h9 H9. apply has_key_ok_inv in H9 as [-> _].
  bind_ok H fa_actual h9 H9.
  assert (Hfa : length h8 <= length h9 /\
            forall k, String.eqb "field_aliases" k = false ->
              dict_get (cell h9 opts) (VStr k) = dict_get (cell h8 opts) (VStr k)).
  { destruct has_fa.
    - apply getitem_ok_inv in H9 as [-> _]. auto.
    - bind_ok H9 emp h10 H10. apply alloc_ok_inv in H10 as [-> ->].
      bind_ok H9 u7 h11 H11.
      apply setitem_cell in H11 as [L11 C11]; [|rewrite length_app; lia].
      apply ret_ok_inv in H9 as [-> _].
      rewrite cell_app_l in C11 by lia. rewrite length_app in L11.
      split; [lia|]. intros k Hk. rewrite C11. now apply dict_get_set_other. }
  clear H9. destruct Hfa as (L9 & K9).
  bind_ok H fa h10 H10.
  apply merge_field_aliases_ok_inv in H10 as (-> & L10 & C10).
  bind_ok H u8 h11 H11. apply setitem_cell in H11 as [L11 C11]; [|lia].
  apply ret_ok_inv in H as [-> ->].
  exists opts. split; [reflexivity|]. split; [unfold opts; lia|].
  split; [lia|].
  assert (Hkeep : forall k, String.eqb "field_aliases" k = false ->
            String.eqb "top_n_per_cat" k = false ->
            dict_get (cell h11 opts) (VStr k) = dict_get (cell h7 opts) (VStr k)).
  { intros k Hk1 Hk2.
    rewrite C11, dict_get_set_other, C10, K9, K8 by (auto; lia). reflexivity. }
  exists q, func, cats, lg, topn, (length h9).
  split; [|split; [|split; [|split; [|split]]]].
  - rewrite Hkeep, C7, dict_get_set_other, C6, dict_get_set_other, C4
      by reflexivity.
    now apply dict_get_set_same.
  - split; [|exact Hfunc].
    rewrite Hkeep, C7, dict_get_set_other, C6, dict_get_set_other
      by reflexivity.
    exact Gfunc.
  - split; [|auto].
    rewrite Hkeep, C7, dict_get_set_other, C6 by reflexivity.
    now apply dict_get_set_same.
  - split; [|auto].
    rewrite Hkeep, C7 by reflexivity. now apply dict_get_set_same.
  - split; [|exact Htop].
    rewrite C11, dict_get_set_other, C10, K9 by (auto; lia). exact Gtop.
  - rewrite C11. now apply dict_get_set_same.
Qed.

Lemma records_satisfy_frame P h h' d :
  frame (length h) h h' -> records_satisfy P h d -> records_satisfy P h' d.
Proof.
  intros (_ & Hl & Hc) Hd kv Hkv. destruct (Hd kv Hkv) as (rec & Hv & Hlt & HP).
  exists rec. repeat split; [exact Hv | lia|]. now rewrite Hc.
Qed.

Lemma pdps_term_records sch o d item h d' h' :
  records_satisfy (pivot_record sch) h d ->
  pdps_term sch o d item h = (Ok d', h') ->
  records_satisfy (pivot_record sch) h' d'.
Proof.
  intros Hd H.
  assert (F : frame (length h) h h')
    by (eapply preserving_run, H; apply preserving_pdps_term).
  apply pdps_term_record in H as (rec & -> & _ & Hlt & HP).
  intros kv Hkv. apply elem_of_dict_set in Hkv as [Hkv | Hkv].
  - now apply (records_satisfy_frame _ _ _ _ F Hd).
  - exists rec. auto.
Qed.

Lemma convert_pdps_records sch l h r h' :
  _convert_pdps_to_dict sch l h = (Ok r, h') ->
  exists a, r = VDict a /\ records_satisfy (pivot_record sch) h' (cell h' a).
Proof.
  unfold _convert_pdps_to_dict. intros H.
  bind_ok H d h1 H1. bind_ok H a h2 H2. apply ret_ok_inv in H as [-> ->].
  apply alloc_ok_inv in H2 as [-> ->].
  exists (length h1). split; [reflexivity|]. rewrite cell_alloc.
  apply (records_satisfy_frame _ h1); [apply frame_app, frame_self|].
  revert H1.
  apply (for_each_invariant (fun d h => records_satisfy (pivot_record sch) h d)).
  - intros d1 sd h2 d2 h3 _ Hd1 Hsd.
    apply pdps_sd_ok_inv in Hsd as (s & o & tm & _ & _ & _ & Hsd).
    revert Hsd.
    apply (for_each_invariant
             (fun d h => records_satisfy (pivot_record sch) h d));
      [|exact Hd1].
    intros d3 item h4 d4 h5 _. apply pdps_term_records.
  - intros kv Hkv. inversion Hkv.
Qed.

(** X16. Every record of the map [clean_pdps] returns is a dictionary
    with a queryset under ['source'], an aggregate under ['func'], under
    ['categories'] a list or tuple, not empty, of valid lookups on the model
    of the source, under ['legend_by'] the empty tuple or a list of valid
    lookups, an [int] under ['top_n_per_cat'] and a dictionary under
    ['field_aliases']. *)
Theorem clean_pdps_records sch series h r h' :
  clean_pdps sch series h = (Ok r, h') ->
  exists a, r = VDict a /\
    forall kv, kv ∈ cell h' a ->
      exists rec, snd kv = VDict rec /\ pivot_record sch (cell h' rec).
Proof.
  unfold clean_pdps. intros H. bind_ok H nonempty h1 H1.
  apply reading_ok_inv in H1 as [-> _].
  destruct (negb nonempty); [discriminate|].
  destruct series;
    try (apply lift_ok_inv in H as [_ H]; now apply raise_format1_not_ok in H).
  apply convert_pdps_records in H as (a & -> & Ha).
  exists a. split; [reflexivity|]. intros kv Hkv.
  destruct (Ha kv Hkv) as (rec & Hv & _ & HP). eauto.
Qed.

Lemma clean_pdps_records_witness :
  let run := clean_pdps Sample.models Sample.pdps_series Sample.pdps_heap in
  exists a, fst run = Ok (VDict a) /\
    forall kv, kv ∈ cell (snd run) a ->
      exists rec, snd kv = VDict rec /\
                  pivot_record Sample.models (cell (snd run) rec).
Proof.
  intros run.
  destruct (clean_pdps_records Sample.models Sample.pdps_series Sample.pdps_heap
              (VDict 32) (snd run)) as (a & Ha & H).
  - vm_compute. reflexivity.
  - exists a. split; [|exact H]. rewrite <- Ha. vm_compute. reflexivity.
Defined.

(** ** A term that is a string *)

Lemma cell_copy (h : heap) o :
  o < length h ->
  cell (h ++ map (shift_dict (length h)) h) (o + length h) =
  shift_dict (length h) (cell h o).
Proof.
  intros Ho. destruct (lookup_lt_is_Some_2 h o Ho) as [c Hc].
  rewrite (cell_lookup _ _ _ Hc). apply cell_lookup.
  rewrite lookup_app_r by lia.
  replace (o + length h - length h) with o by lia.
  now rewrite list_lookup_fmap, Hc.
Qed.

Lemma setitem_run a k v (h : heap) c :
  a < length h ->
  setitem a k v (<[a := c]> h) = (Ok tt, <[a := dict_set c (VStr k) v]> h).
Proof.
  intros Ha. unfold setitem, py_setitem. simpl.
  rewrite cell_insert_eq by exact Ha. now rewrite list_insert_insert_eq.
Qed.

Lemma py_setdefault_run a k v (h : heap) c :
  a < length h -> hashable k = true ->
  py_setdefault a k v (<[a := c]> h) = (Ok tt, <[a := dict_setdefault c k v]> h).
Proof.
  intros Ha Hk. unfold py_setdefault, dict_setdefault. rewrite Hk.
  rewrite cell_insert_eq by exact Ha.
  destruct (dict_mem c k); [reflexivity|]. now rewrite list_insert_insert_eq.
Qed.

Lemma getitem_run a k (h : heap) c v :
  a < length h -> dict_get c (VStr k) = Some v ->
  getitem a k (<[a := c]> h) = (Ok v, <[a := c]> h).
Proof.
  intros Ha Hg. unfold getitem, reading, py_getitem. simpl.
  rewrite cell_insert_eq by exact Ha. now rewrite Hg.
Qed.

Lemma has_key_run a k (h : heap) c :
  a < length h ->
  has_key a k (<[a := c]> h) = (Ok (dict_mem c (VStr k)), <[a := c]> h).
Proof.
  intros Ha. unfold has_key, reading. now rewrite cell_insert_eq.
Qed.

Lemma heap_as_insert (h : heap) a : a < length h -> h = <[a := cell h a]> h.
Proof.
  intros Ha. destruct (lookup_lt_is_Some_2 h a Ha) as [c Hc].
  rewrite (cell_lookup _ _ _ Hc). symmetry. now apply list_insert_id.
Qed.

Lemma dps_term_string_run sch o d s h q field label :
  o < length h ->
  dict_get (shift_dict (length h) (cell h o)) (VStr "source") =
    Some (VQuerySet q) ->
  field = default (VStr s)
            (dict_get (shift_dict (length h) (cell h o)) (VStr "field")) ->
  _validate_field_lookup_term sch (Some (qs_model q)) field (qs_query q) =
    Ok label ->
  dps_term sch o d (VStr s) h =
    (Ok (dict_set d (VStr s) (VDict (o + length h))),
     <[o + length h :=
         string_term_record (shift_dict (length h) (cell h o)) s q field label]>
       (h ++ map (shift_dict (length h)) h)).
Proof.
  intros Ho Hsrc Hfield Hlabel.
  set (c := shift_dict (length h) (cell h o)) in *.
  set (h1 := h ++ map (shift_dict (length h)) h).
  set (rec := o + length h).
  assert (Hrec : rec < length h1)
    by (unfold rec, h1; rewrite length_app, length_map; lia).
  assert (Hc : cell h1 rec = c) by (now apply cell_copy).
  unfold dps_term.
  change (deepcopy_dict o) with (fun h0 : heap => (@Ok addr (o + length h0),
            h0 ++ map (shift_dict (length h0)) h0)).
  unfold bind at 2. unfold bind at 1. cbv beta iota zeta. fold h1. fold rec.
  unfold ret at 1. cbn [fst snd].
  rewrite (heap_as_insert h1 rec Hrec), Hc.
  unfold bind at 1. rewrite has_key_run by exact Hrec.
  replace (dict_mem c (VStr "source")) with true
    by (unfold dict_mem; now rewrite Hsrc).
  cbn [negb]. cbv iota.
  unfold bind at 1. rewrite (getitem_run _ _ _ _ _ Hrec Hsrc).
  unfold bind at 1. unfold lift at 1. cbn [_validate_source isinstance_QuerySet].
  cbv iota.
  unfold bind at 1. rewrite setitem_run by exact Hrec.
  set (c2 := dict_set c (VStr "source") (VQuerySet q)).
  unfold bind at 1. rewrite py_setdefault_run by (exact Hrec || reflexivity).
  set (c3 := dict_setdefault c2 (VStr "field") (VStr s)).
  assert (Hs3 : dict_get c3 (VStr "source") = Some (VQuerySet q)).
  { unfold c3. rewrite dict_get_setdefault_other by reflexivity.
    unfold c2. now apply dict_get_set_same. }
  assert (Hf3 : dict_get c3 (VStr "field") = Some field).
  { unfold c3, dict_setdefault, dict_mem, c2.
    rewrite dict_get_set_other by reflexivity.
    destruct (dict_get c (VStr "field")) as [f|] eqn:Hf; simpl in Hfield.
    - rewrite dict_get_set_other by reflexivity. now rewrite Hf, Hfield.
    - rewrite dict_get_set_same by reflexivity. now rewrite Hfield. }
  unfold bind at 1. rewrite (getitem_run _ _ _ _ _ Hrec Hs3).
  unfold bind at 1. unfold lift at 1. cbn [py_model].
  unfold bind at 1. rewrite (getitem_run _ _ _ _ _ Hrec Hf3).
  unfold bind at 1. unfold lift at 1. cbn [py_query].
  unfold bind at 1. unfold lift at 1. rewrite Hlabel.
  unfold bind at 1. rewrite py_setdefault_run by (exact Hrec || reflexivity).
  unfold ret. unfold string_term_record. fold c2. fold c3.
  rewrite list_insert_insert_eq. now destruct (key_eqb (VStr s) field).
Qed.

Lemma key_eqb_shift_str n k s : key_eqb (shift n k) (VStr s) = key_eqb k (VStr s).
Proof. now destruct k. Qed.

Lemma dict_get_shift_str n d s :
  dict_get (shift_dict n d) (VStr s) = shift n <$> dict_get d (VStr s).
Proof.
  induction d as [|[k v] d IH]; simpl; [reflexivity|].
  rewrite key_eqb_shift_str. now destruct (key_eqb k (VStr s)).
Qed.

Lemma dict_mem_shift_str n d s :
  dict_mem (shift_dict n d) (VStr s) = dict_mem d (VStr s).
Proof.
  unfold dict_mem. rewrite dict_get_shift_str.
  now destruct (dict_get d (VStr s)).
Qed.

Lemma dps_term_no_source sch o d s h :
  o < length h ->
  dict_mem (cell h o) (VStr "source") = false ->
  dps_term sch o d (VStr s) h =
    (Raise (missing_source (VDict (o + length h))),
     h ++ map (shift_dict (length h)) h).
Proof.
  intros Ho Hsrc. unfold dps_term, bind, deepcopy_dict, deepcopy, ret, has_key,
    reading. cbn [fst snd]. rewrite cell_copy by exact Ho.
  now rewrite dict_mem_shift_str, Hsrc.
Qed.

(** X20. For a term that is a string, on options that exist, [clean_dps]
    stores under the name a copy of the options completed as
    [string_term_record] says, when the copy has a queryset under
    ['source'] and the field is a valid lookup; options without ['source']
    get the input error that names the copy. *)
Theorem dps_term_string sch o d s h :
  o < length h ->
  (forall q field label,
     dict_get (shift_dict (length h) (cell h o)) (VStr "source") =
       Some (VQuerySet q) ->
     field = default (VStr s)
               (dict_get (shift_dict (length h) (cell h o)) (VStr "field")) ->
     _validate_field_lookup_term sch (Some (qs_model q)) field (qs_query q) =
       Ok label ->
     dps_term sch o d (VStr s) h =
       (Ok (dict_set d (VStr s) (VDict (o + length h))),
        <[o + length h :=
            string_term_record (shift_dict (length h) (cell h o)) s q field
              label]>
          (h ++ map (shift_dict (length h)) h))) /\
  (dict_mem (cell h o) (VStr "source") = false ->
   dps_term sch o d (VStr s) h =
     (Raise (missing_source (VDict (o + length h))),
      h ++ map (shift_dict (length h)) h)).
Proof.
  intros Ho. split.
  - intros q field label. now apply dps_term_string_run.
  - now apply dps_term_no_source.
Qed.

Lemma dps_term_string_witness :
  dps_term Sample.models 1 [] (VStr "title") Sample.dps_heap =
    (Ok [(VStr "title", VDict 4)],
     <[4 := [(VStr "source", VQuerySet Sample.books);
             (VStr "field", VStr "title");
             (VStr "field_alias", VStr "title")]]>
       (Sample.dps_heap ++ map (shift_dict 3) Sample.dps_heap)).
Proof.
  apply (proj1 (dps_term_string Sample.models 1 [] "title" Sample.dps_heap
                  ltac:(simpl; lia)) Sample.books (VStr "title") (VStr "title"));
    reflexivity.
Defined.

(** ** Elements without 'options' or 'terms' *)

Lemma dict_mem_false d k : dict_mem d k = false -> dict_get d k = None.
Proof. unfold dict_mem. now destruct (dict_get d k). Qed.

Lemma require_keys_missing s pre key post h :
  Forall (fun k => dict_mem (cell h s) (VStr k) = true) pre ->
  dict_mem (cell h s) (VStr key) = false ->
  require_keys (VDict s) (pre ++ key :: post) h =
    (Raise (missing_key (VDict s) key), h).
Proof.
  intros Hpre Hkey. unfold require_keys.
  apply (for_each_checks_raise
           (fun h _key =>
              (ks <- py_keys h (VDict s) ;;
               if negb (existsb (fun k => key_eqb k (VStr _key)) ks)
               then Raise (APIInputError
                      [FmtS (VDict s); Lit " is missing the '";
                       FmtS (VStr _key); Lit "' key."])
               else Ok tt)%R)).
  - eapply Forall_impl; [exact Hpre|]. intros k Hm. simpl.
    now rewrite <- dict_mem_keys, Hm.
  - simpl. now rewrite <- dict_mem_keys, Hkey.
Qed.

Lemma stod_item_missing h s key :
  dict_mem (cell h s) (VStr key) = false ->
  stod_item h (VDict s) key = Raise (missing_item (VDict s) key).
Proof.
  intros Hm. unfold stod_item, py_getitem. simpl.
  now rewrite (dict_mem_false _ _ Hm).
Qed.

Lemma stod_item_present h s key v :
  dict_get (cell h s) (VStr key) = Some v -> stod_item h (VDict s) key = Ok v.
Proof. intros Hg. unfold stod_item, py_getitem. simpl. now rewrite Hg. Qed.

Lemma missing_options sch ds s l h :
  dict_mem (cell h s) (VStr "options") = false ->
  clean_dps sch (VList (VDict s :: l)) h =
    (Raise (missing_key (VDict s) "options"), h) /\
  clean_pdps sch (VList (VDict s :: l)) h =
    (Raise (missing_key (VDict s) "options"), h) /\
  clean_pcso (VList (VDict s :: l)) ds h =
    (Raise (missing_item (VDict s) "options"), h) /\
  clean_cso (VList (VDict s :: l)) ds h =
    (Raise (missing_item (VDict s) "options"), h).
Proof.
  intros Hm.
  pose proof (require_keys_missing s [] "options" ["terms"] h
                ltac:(constructor) Hm) as Hr.
  pose proof (stod_item_missing h s "options" Hm) as Hs.
  repeat split.
  - unfold clean_dps, _convert_dps_to_dict, bind, reading. simpl.
    unfold dps_sd, bind. simpl in Hr. now rewrite Hr.
  - unfold clean_pdps, _convert_pdps_to_dict, bind, reading. simpl.
    unfold pdps_sd, bind. simpl in Hr. now rewrite Hr.
  - unfold clean_pcso, _convert_pcso_to_dict, bind. simpl.
    unfold pcso_stod, bind, reading. now rewrite Hs.
  - unfold clean_cso, _convert_cso_to_dict, bind. simpl.
    unfold cso_stod, bind, reading. now rewrite Hs.
Qed.

Lemma missing_terms sch ds s o l h :
  dict_get (cell h s) (VStr "options") = Some (VDict o) ->
  dict_mem (cell h s) (VStr "terms") = false ->
  clean_dps sch (VList (VDict s :: l)) h =
    (Raise (missing_key (VDict s) "terms"), h) /\
  clean_pdps sch (VList (VDict s :: l)) h =
    (Raise (missing_key (VDict s) "terms"), h) /\
  clean_pcso (VList (VDict s :: l)) ds h =
    (Raise (missing_item (VDict s) "terms"), h) /\
  clean_cso (VList (VDict s :: l)) ds h =
    (Raise (missing_item (VDict s) "terms"), h).
Proof.
  intros Ho Hm.
  pose proof (require_keys_missing s ["options"] "terms" [] h
                ltac:(repeat constructor; eapply dict_get_mem, Ho) Hm) as Hr.
  pose proof (stod_item_missing h s "terms" Hm) as Hs.
  pose proof (stod_item_present h s "options" _ Ho) as Hp.
  repeat split.
  - unfold clean_dps, _convert_dps_to_dict, bind, reading. simpl.
    unfold dps_sd, bind. simpl in Hr. now rewrite Hr.
  - unfold clean_pdps, _convert_pdps_to_dict, bind, reading. simpl.
    unfold pdps_sd, bind. simpl in Hr. now rewrite Hr.
  - unfold clean_pcso, _convert_pcso_to_dict, bind. simpl.
    unfold pcso_stod, bind, reading. now rewrite Hp, Hs.
  - unfold clean_cso, _convert_cso_to_dict, bind. simpl.
    unfold cso_stod, bind, reading. now rewrite Hp, Hs.
Qed.

(** X19. A first element of the list without ['options'], or with a
    dictionary of options and without ['terms'], makes [clean_dps],
    [clean_pdps], [clean_pcso] and [clean_cso] raise the input error that
    names the element and the key, with the heap as it was. *)
Theorem missing_keys sch ds s l h :
  (dict_mem (cell h s) (VStr "options") = false ->
   clean_dps sch (VList (VDict s :: l)) h =
     (Raise (missing_key (VDict s) "options"), h) /\
   clean_pdps sch (VList (VDict s :: l)) h =
     (Raise (missing_key (VDict s) "options"), h) /\
   clean_pcso (VList (VDict s :: l)) ds h =
     (Raise (missing_item (VDict s) "options"), h) /\
   clean_cso (VList (VDict s :: l)) ds h =
     (Raise (missing_item (VDict s) "options"), h)) /\
  (forall o,
     dict_get (cell h s) (VStr "options") = Some (VDict o) ->
     dict_mem (cell h s) (VStr "terms") = false ->
     clean_dps sch (VList (VDict s :: l)) h =
       (Raise (missing_key (VDict s) "terms"), h) /\
     clean_pdps sch (VList (VDict s :: l)) h =
       (Raise (missing_key (VDict s) "terms"), h) /\
     clean_pcso (VList (VDict s :: l)) ds h =
       (Raise (missing_item (VDict s) "terms"), h) /\
     clean_cso (VList (VDict s :: l)) ds h =
       (Raise (missing_item (VDict s) "terms"), h)).
Proof.
  split; [apply missing_options | intros o; apply missing_terms].
Qed.

Lemma missing_keys_witness :
  clean_dps Sample.models (VList [VDict 1]) Sample.dps_heap =
    (Raise (missing_key (VDict 1) "options"), Sample.dps_heap) /\
  clean_pcso (VList [VDict 1]) Sample.pool Sample.dps_heap =
    (Raise (missing_item (VDict 1) "options"), Sample.dps_heap).
Proof.
  destruct (proj1 (missing_keys Sample.models Sample.pool 1 [] Sample.dps_heap)
              eq_refl) as (H1 & _ & H3 & _).
  split; [exact H1 | exact H3].
Defined.

(** ** Segments of a lookup, and the result of clean_pcso and clean_cso *)

(** X21. Joining the segments of a term with ["__"] gives the term back;
    the term handed to the recursive call, the join of all segments but the
    first, splits into exactly those segments, and it is shorter than the
    term. *)
Theorem lookup_segments_round_trip term :
  split_dunder term <> [] /\
  join "__" (split_dunder term) = term /\
  (tl (split_dunder term) <> [] ->
   split_dunder (join "__" (tl (split_dunder term))) = tl (split_dunder term) /\
   String.length (join "__" (tl (split_dunder term))) < String.length term).
Proof.
  split; [apply split_dunder_nonempty|]. split; [apply join_split_dunder|].
  intros Hne. split; [now apply split_join_tail | now apply join_tail_shorter].
Qed.

Lemma lookup_segments_round_trip_witness :
  split_dunder (join "__" (tl (split_dunder "author__country__name"))) =
    tl (split_dunder "author__country__name") /\
  String.length (join "__" (tl (split_dunder "author__country__name"))) <
    String.length "author__country__name".
Proof.
  apply (proj2 (proj2 (lookup_segments_round_trip "author__country__name"))).
  discriminate.
Defined.

Lemma clean_pcso_result ds x h v h' :
  clean_pcso x ds h = (Ok v, h') ->
  exists a, v = VDict a /\ Forall (named_options ds) (cell h' a).
Proof.
  intros H. pose proof (clean_pcso_fixed _ _ _ _ _ H) as Hfix.
  assert (Hv : exists a, v = VDict a).
  { destruct x; try (simpl in H; unfold lift, raise_format1 in H;
                     destruct (format1 _ _ _ _); discriminate).
    - rewrite clean_pcso_list in H. bind_ok H v0 h1 Hc.
      destruct (convert_pcso_value _ _ _ _ Hc) as (a & -> & _).
      apply clean_pcso_dict_inv in H as (_ & -> & _). eauto.
    - apply clean_pcso_dict_inv in H as (_ & -> & _). eauto. }
  destruct Hv as [a ->]. exists a. split; [reflexivity|].
  now apply clean_pcso_dict_ok.
Qed.

Lemma clean_cso_result ds x h v h' :
  clean_cso x ds h = (Ok v, h') ->
  exists a, v = VDict a /\ Forall (linked ds h') (cell h' a).
Proof.
  intros H. pose proof (clean_cso_fixed _ _ _ _ _ H) as Hfix.
  assert (Hv : exists a, v = VDict a).
  { destruct x; try discriminate.
    - rewrite clean_cso_list in H. bind_ok H v0 h1 Hc.
      destruct (convert_cso_value _ _ _ _ Hc) as (a & -> & _).
      apply clean_cso_dict_inv in H as (_ & Hv). rewrite (Hv v eq_refl). eauto.
    - apply clean_cso_dict_inv in H as (_ & Hv). rewrite (Hv v eq_refl). eauto. }
  destruct Hv as [a ->]. exists a. split; [reflexivity|].
  now apply clean_cso_dict_ok.
Qed.

(** X22. What [clean_pcso] returns, from a list or from a dictionary, is
    a dictionary every key of which names a series of the datasource and
    every value of which is a dictionary; what [clean_cso] returns is a
    dictionary every entry of which is linked to an x-axis series on the
    same data table. *)
Theorem clean_options_result ds x h v h' :
  (clean_pcso x ds h = (Ok v, h') ->
   exists a, v = VDict a /\ Forall (named_options ds) (cell h' a)) /\
  (clean_cso x ds h = (Ok v, h') ->
   exists a, v = VDict a /\ Forall (linked ds h') (cell h' a)).
Proof. split; [apply clean_pcso_result | apply clean_cso_result]. Qed.

Lemma clean_options_result_witness :
  let run := clean_cso (VList [VDict 0]) Sample.pool Examples.cso_list_heap in
  exists a, VDict 20 = VDict a /\ Forall (linked Sample.pool (snd run)) (cell (snd run) a).
Proof.
  intros run.
  apply (proj2 (clean_options_result Sample.pool (VList [VDict 0])
                  Examples.cso_list_heap (VDict 20) (snd run))).
  vm_compute. reflexivity.
Defined.

(** ** Options and the terms that override them *)

Lemma dict_mem_set_any d k v k' :
  dict_mem (dict_set d k v) k' = key_eqb k k' || dict_mem d k'.
Proof.
  unfold dict_mem. destruct (key_eqb k k') eqn:Hk; simpl.
  - now rewrite dict_get_set_eqb.
  - now rewrite dict_get_set_other.
Qed.

Lemma dict_mem_update d d2 k :
  dict_mem (dict_update d d2) k = dict_mem d k || dict_mem d2 k.
Proof.
  unfold dict_update. revert d.
  induction d2 as [|[k2 v2] d2 IH]; intros d; simpl.
  - now rewrite orb_false_r.
  - rewrite IH, dict_mem_set_any. unfold dict_mem at 4. simpl.
    destruct (key_eqb k2 k); simpl.
    + now rewrite orb_true_r.
    + fold (dict_mem d2 k). reflexivity.
Qed.

Lemma pcso_term_str_run o d s h :
  pcso_term o d (VStr s) h =
    (Ok (dict_set d (VStr s) (VDict (o + length h))),
     h ++ map (shift_dict (length h)) h).
Proof. reflexivity. Qed.

Lemma pcso_term_single_run o d t tk tv h :
  tv < length h ->
  cell h t = [(tk, VDict tv)] ->
  pcso_term o d (VDict t) h =
    (Ok (dict_set d tk (VDict (o + length h))),
     <[o + length h :=
         dict_update (cell (h ++ map (shift_dict (length h)) h) (o + length h))
           (cell h tv)]>
       (h ++ map (shift_dict (length h)) h)).
Proof.
  intros Htv Hc. unfold pcso_term, bind, reading. rewrite Hc.
  cbn [for_each fst snd isinstance_dict negb]. unfold bind, deepcopy_dict,
    deepcopy, py_update, update_pairs, ret. cbn [fst snd].
  now rewrite (cell_app_l h _ tv) by exact Htv.
Qed.

(** X23. In [_convert_pcso_to_dict] the record of a term that is a string
    is a copy of the options; the record of a term that is a dictionary with
    one entry is a copy of the options updated with the value of the entry:
    a key has the value the entry gives it, else the value of the copied
    options. *)
Theorem pcso_term_override o d h :
  o < length h ->
  (forall s,
     exists h',
       pcso_term o d (VStr s) h =
         (Ok (dict_set d (VStr s) (VDict (o + length h))), h') /\
       cell h' (o + length h) = shift_dict (length h) (cell h o)) /\
  (forall t tk tv,
     tv < length h ->
     cell h t = [(tk, VDict tv)] ->
     unique_keys (cell h tv) ->
     exists h',
       pcso_term o d (VDict t) h =
         (Ok (dict_set d tk (VDict (o + length h))), h') /\
       forall k,
         dict_get (cell h' (o + length h)) k =
         match dict_get (cell h tv) k with
         | Some v => Some v
         | None => dict_get (shift_dict (length h) (cell h o)) k
         end).
Proof.
  intros Ho. split.
  - intros s. eexists. split; [apply pcso_term_str_run|]. now apply cell_copy.
  - intros t tk tv Htv Hc Hu. eexists.
    split; [exact (pcso_term_single_run o d t tk tv h Htv Hc)|]. intros k.
    rewrite cell_insert_eq by (rewrite length_app, length_map; lia).
    rewrite dict_get_update by exact Hu. now rewrite cell_copy.
Qed.

Lemma pcso_term_override_witness :
  exists h',
    pcso_term 1 [] (VDict 2) Examples.pcso_list_heap =
      (Ok [(VStr "y", VDict 5)], h') /\
    forall k,
      dict_get (cell h' 5) k =
      match dict_get (cell Examples.pcso_list_heap 3) k with
      | Some v => Some v
      | None => dict_get (shift_dict 4 (cell Examples.pcso_list_heap 1)) k
      end.
Proof.
  apply (proj2 (pcso_term_override 1 [] Examples.pcso_list_heap
                  ltac:(simpl; lia)) 2 (VStr "y") 3).
  - simpl. lia.
  - reflexivity.
  - simpl. auto.
Defined.

(** ** Defaults of a record *)

Lemma dict_mem_del_other d s s' :
  s <> s' -> dict_mem (dict_del d (VStr s)) (VStr s') = dict_mem d (VStr s').
Proof. intros Hs. unfold dict_mem. now rewrite dict_get_del_other. Qed.

Lemma py_delitem_ok_inv a k h u h' :
  py_delitem a k h = (Ok u, h') -> h' = <[a := dict_del (cell h a) k]> h.
Proof.
  unfold py_delitem. destruct (hashable k); [|discriminate].
  destruct (dict_mem (cell h a) k); [|discriminate]. now intros [= _ <-].
Qed.

Lemma dps_named_given (o : addr) term h named h1 :
  o < length h ->
  (forall t, term = VDict t -> t < length h) ->
  match term with
  | VStr _ =>
      (opts <- deepcopy_dict o ;; ret (term, opts))%M
  | VDict t =>
      (_new_name <- getitem t "_new_name" ;;
       py_delitem t (VStr "_new_name") ;;;
       opts <- deepcopy_dict o ;;
       py_update opts term ;;;
       if hashable _new_name then ret (_new_name, opts)
       else raise (TypeError "unhashable type"))%M
  | _ => raise (APIInputError
           [Lit "Expecting a basestring or dict in place of: "; FmtS term])
  end h = (Ok named, h1) ->
  term_name h term = Some (fst named) /\
  forall k, k <> "_new_name" ->
    dict_mem (cell h1 (snd named)) (VStr k) = given h o term k.
Proof.
  intros Ho Ht. unfold given. destruct term; try discriminate.
  - intros H. bind_ok H opts h2 H2. apply ret_ok_inv in H as [-> ->].
    apply deepcopy_dict_ok_inv in H2 as [-> ->]. simpl.
    split; [reflexivity|]. intros k _.
    now rewrite cell_copy, dict_mem_shift_str, orb_false_r.
  - specialize (Ht a eq_refl).
    intros H. bind_ok H n h2 H2. bind_ok H u h3 H3. bind_ok H opts h4 H4.
    bind_ok H u' h5 H5. destruct (hashable n); [|discriminate].
    apply ret_ok_inv in H as [-> ->].
    apply getitem_ok_inv in H2 as [-> Hn].
    apply py_delitem_ok_inv in H3 as ->.
    apply deepcopy_dict_ok_inv in H4 as [-> ->].
    apply py_update_ok_inv in H5 as (d2 & Hd2 & ->).
    simpl in Hd2. injection Hd2 as <-. simpl.
    split; [exact Hn|]. intros k Hk.
    set (hd := <[a := dict_del (cell h a) (VStr "_new_name")]> h) in *.
    assert (Ld : length hd = length h) by apply length_insert.
    rewrite cell_insert_eq by (rewrite length_app, length_map; lia).
    rewrite dict_mem_update, cell_copy, dict_mem_shift_str by lia.
    rewrite cell_app_l by lia.
    assert (Ha : cell hd a = dict_del (cell h a) (VStr "_new_name"))
      by (now apply cell_insert_eq).
    rewrite Ha, dict_mem_del_other by congruence.
    f_equal. destruct (decide (o = a)) as [-> | Hne].
    + rewrite Ha. apply dict_mem_del_other. congruence.
    + unfold hd. now rewrite cell_insert_ne by congruence.
Qed.

Lemma dps_term_defaults_inv sch o d term h d' h' :
  o < length h ->
  (forall t, term = VDict t -> t < length h) ->
  dps_term sch o d term h = (Ok d', h') ->
  exists n rec q field label alias,
    term_name h term = Some n /\
    d' = dict_set d n (VDict rec) /\
    dict_get (cell h' rec) (VStr "source") = Some (VQuerySet q) /\
    dict_get (cell h' rec) (VStr "field") = Some field /\
    _validate_field_lookup_term sch (Some (qs_model q)) field (qs_query q) =
      Ok label /\
    dict_get (cell h' rec) (VStr "field_alias") = Some alias /\
    (given h o term "field" = false -> field = n) /\
    (given h o term "field_alias" = false ->
     alias = if key_eqb n field then label else n).
Proof.
  intros Ho Ht. unfold dps_term. intros H. bind_ok H named h1 H1. cbv zeta in H.
  apply (dps_named_given o term h named h1 Ho Ht) in H1 as [Hname Hgiven].
  destruct named as [n rec]. cbn [fst snd] in *.
  bind_ok H has_source h2 H2. apply has_key_ok_inv in H2 as [-> ->].
  destruct (dict_mem (cell h1 rec) (VStr "source")) eqn:Hsrc; simpl in H.
  2:{ apply lift_ok_inv in H as [_ H]. now apply raise_format1_not_ok in H. }
  assert (Hrec : rec < length h1).
  { apply cell_nonempty_valid. eapply dict_mem_nonempty, Hsrc. }
  bind_ok H source h2 H2. apply getitem_ok_inv in H2 as [-> _].
  bind_ok H source' h2 H2. apply lift_ok_inv in H2 as [-> H2].
  apply validate_source_ok_inv in H2 as (q & -> & ->).
  bind_ok H u h2 H2. apply setitem_cell in H2 as [L2 C2]; [|exact Hrec].
  bind_ok H u' h3 H3. apply py_setdefault_cell in H3 as [L3 C3]; [|lia].
  bind_ok H source2 h4 H4. apply getitem_ok_inv in H4 as [-> G4].
  bind_ok H m h4 H4. apply lift_ok_inv in H4 as [-> Hm].
  bind_ok H field h4 H4. apply getitem_ok_inv in H4 as [-> Gf].
  bind_ok H qy h4 H4. apply lift_ok_inv in H4 as [-> Hq].
  bind_ok H fa h4 H4. apply lift_ok_inv in H4 as [-> Hfa].
  bind_ok H u'' h4 H4. apply py_setdefault_cell in H4 as [L4 C4]; [|lia].
  apply ret_ok_inv in H as [-> ->].
  assert (Hs2 : source2 = VQuerySet q).
  { rewrite C3, dict_get_setdefault_other, C2 in G4 by reflexivity.
    rewrite dict_get_set_same in G4 by reflexivity. congruence. }
  subst source2. simpl in Hm, Hq. injection Hm as <-. injection Hq as <-.
  destruct (dict_get_setdefault_same (cell h3 rec) (VStr "field_alias")
              (if negb (key_eqb n field) then n else fa) eq_refl)
    as (alias & Ga & Halias).
  exists n, rec, q, field, fa, alias. rewrite C4.
  rewrite !dict_get_setdefault_other by reflexivity.
  split; [exact Hname|]. split; [reflexivity|]. split; [exact G4|].
  split; [exact Gf|]. split; [exact Hfa|]. split; [exact Ga|]. split.
  - intros Hg. rewrite <- Hgiven in Hg by discriminate.
    rewrite C3 in Gf. unfold dict_setdefault in Gf.
    assert (Hm2 : dict_mem (cell h2 rec) (VStr "field") = false).
    { rewrite C2, dict_mem_set_any. simpl. exact Hg. }
    rewrite Hm2, C2 in Gf.
    rewrite dict_get_set_same in Gf by reflexivity.
    congruence.
  - intros Hg. rewrite <- Hgiven in Hg by discriminate.
    assert (Hm3 : dict_get (cell h3 rec) (VStr "field_alias") = None).
    { apply dict_mem_false. rewrite C3. unfold dict_setdefault.
      destruct (dict_mem (cell h2 rec) (VStr "field")).
      - rewrite C2, dict_mem_set_any. simpl. exact Hg.
      - rewrite dict_mem_set_any, C2, dict_mem_set_any. simpl. exact Hg. }
    rewrite (Halias Hm3). now destruct (key_eqb n field).
Qed.

(** X24. When [clean_dps] accepts a term, the record is stored under the
    name of the term; if neither the options nor the term give ['field'],
    the field is the name; if neither gives ['field_alias'], the alias is
    the label of the field when the name is the field, and the name
    otherwise. *)
Theorem dps_term_defaults sch o d term h d' h' :
  o < length h ->
  (forall t, term = VDict t -> t < length h) ->
  dps_term sch o d term h = (Ok d', h') ->
  exists n rec q field label alias,
    term_name h term = Some n /\
    d' = dict_set d n (VDict rec) /\
    dict_get (cell h' rec) (VStr "source") = Some (VQuerySet q) /\
    dict_get (cell h' rec) (VStr "field") = Some field /\
    _validate_field_lookup_term sch (Some (qs_model q)) field (qs_query q) =
      Ok label /\
    dict_get (cell h' rec) (VStr "field_alias") = Some alias /\
    (given h o term "field" = false -> field = n) /\
    (given h o term "field_alias" = false ->
     alias = if key_eqb n field then label else n).
Proof. apply dps_term_defaults_inv. Qed.

Lemma dps_term_defaults_witness :
  let run := dps_term Sample.models 1 [] (VDict 2) Sample.dps_heap in
  exists n rec q field label alias,
    term_name Sample.dps_heap (VDict 2) = Some n /\
    [(VStr "writer", VDict 4)] = dict_set [] n (VDict rec) /\
    dict_get (cell (snd run) rec) (VStr "source") = Some (VQuerySet q) /\
    dict_get (cell (snd run) rec) (VStr "field") = Some field /\
    _validate_field_lookup_term Sample.models (Some (qs_model q)) field
      (qs_query q) = Ok label /\
    dict_get (cell (snd run) rec) (VStr "field_alias") = Some alias /\
    (given Sample.dps_heap 1 (VDict 2) "field" = false -> field = n) /\
    (given Sample.dps_heap 1 (VDict 2) "field_alias" = false ->
     alias = if key_eqb n field then label else n).
Proof.
  intros run.
  apply (dps_term_defaults Sample.models 1 [] (VDict 2) Sample.dps_heap
           [(VStr "writer", VDict 4)] (snd run)).
  - simpl. lia.
  - intros t [= <-]. simpl. lia.
  - vm_compute. reflexivity.
Defined.

Lemma pdps_term_defaults_inv sch o d item h d' h' :
  o < length h ->
  (forall t, snd item = VDict t -> t < length h) ->
  pdps_term sch o d item h = (Ok d', h') ->
  exists rec lg topn,
    d' = dict_set d (fst item) (VDict rec) /\
    dict_get (cell h' rec) (VStr "legend_by") = Some lg /\
    dict_get (cell h' rec) (VStr "top_n_per_cat") = Some topn /\
    (pivot_given h o (snd item) "legend_by" = false -> lg = VTuple []) /\
    (pivot_given h o (snd item) "top_n_per_cat" = false -> topn = VInt 0).
Proof.
  intros Ho Ht. unfold pdps_term. cbv zeta. intros H.
  bind_ok H tv h1 H1.
  assert (Hterm : length h <= length h1 /\ tv < length h1 /\
            cell h1 o = cell h o /\
            cell h1 tv = pivot_term_dict h (snd item)).
  { unfold pivot_term_dict.
    destruct (isinstance_Aggregate (snd item)).
    - apply alloc_ok_inv in H1 as [-> ->]. rewrite length_app. simpl.
      split; [lia|]. split; [lia|].
      split; [now apply cell_app_l | apply cell_alloc].
    - destruct (snd item);
        try (apply lift_ok_inv in H1 as [_ H1];
             now apply raise_format1_not_ok in H1).
      apply ret_ok_inv in H1 as [-> ->]. specialize (Ht a eq_refl). auto. }
  clear H1. destruct Hterm as (L1 & Htv & Co & Ctv).
  bind_ok H opts h2 H2.
  apply deepcopy_dict_ok_inv in H2 as [-> ->].
  bind_ok H u h3 H3. apply py_update_ok_inv in H3 as (d2 & Hd2 & ->).
  simpl in Hd2. injection Hd2 as <-.
  rewrite (cell_app_l h1 _ tv) in H by exact Htv.
  rewrite cell_copy in H by lia. rewrite Co, Ctv in H.
  set (opts := o + length h1) in *.
  set (m := dict_update (shift_dict (length h1) (cell h o))
              (pivot_term_dict h (snd item))) in *.
  assert (Hm : forall k, dict_mem m (VStr k) = pivot_given h o (snd item) k).
  { intros k. unfold m, pivot_given.
    now rewrite dict_mem_update, dict_mem_shift_str. }
  bind_ok H u1 h3 H3. apply require_keys_heap in H3 as ->.
  bind_ok H source h3 H3. apply getitem_ok_inv in H3 as [-> G3].
  match type of G3 with dict_get (cell ?hh _) _ = _ => set (h3 := hh) in * end.
  assert (V3 : opts < length h3).
  { unfold h3, opts. rewrite length_insert, length_app, length_map. lia. }
  assert (C3 : cell h3 opts = m).
  { unfold h3. apply cell_insert_eq. rewrite length_app, length_map.
    unfold opts. lia. }
  bind_ok H src h4 H4. apply lift_ok_inv in H4 as [-> H4].
  apply validate_source_ok_inv in H4 as (q & -> & ->).
  bind_ok H u2 h4 H4. apply setitem_cell in H4 as [L4 C4]; [|exact V3].
  bind_ok H func h5 H5. apply getitem_ok_inv in H5 as [-> _].
  bind_ok H u3 h5 H5. apply lift_ok_inv in H5 as [-> _].
  bind_ok H categories h5 H5. apply getitem_ok_inv in H5 as [-> _].
  bind_ok H source2 h5 H5. apply getitem_ok_inv in H5 as [-> _].
  bind_ok H cat h5 H5. destruct cat as [cats fa_cat].
  apply clean_categories_ok_inv in H5 as (_ & _ & _ & dc & -> & _).
  cbn [fst snd] in H.
  bind_ok H u4 h6 H6.
  apply setitem_cell in H6 as [L6 C6]; [|rewrite length_app; lia].
  rewrite cell_app_l in C6 by lia.
  rewrite length_app in L6. simpl in L6.
  bind_ok H has_lg h7 H7. apply has_key_ok_inv in H7 as [-> ->].
  assert (Hhas : dict_mem (cell h6 opts) (VStr "legend_by") =
                 pivot_given h o (snd item) "legend_by").
  { rewrite C6, dict_mem_set_any, C4, dict_mem_set_any, C3. simpl. apply Hm. }
  rewrite Hhas in H.
  bind_ok H fa_lgby h7 H7.
  assert (Hlg : exists lg lgby,
            fa_lgby = VDict lgby /\ length h6 <= length h7 /\
            cell h7 opts = dict_set (cell h6 opts) (VStr "legend_by") lg /\
            (pivot_given h o (snd item) "legend_by" = false -> lg = VTuple [])).
  { destruct (pivot_given h o (snd item) "legend_by").
    - bind_ok H7 legend_by h8 H8. apply getitem_ok_inv in H8 as [-> _].
      bind_ok H7 source3 h8 H8. apply getitem_ok_inv in H8 as [-> _].
      bind_ok H7 lg h8 H8. destruct lg as [lg fa_lg].
      apply validate_legend_by_ok_inv in H8 as (l & dl & -> & -> & -> & _).
      cbn [fst snd] in H7.
      bind_ok H7 u5 h9 H9.
      apply setitem_cell in H9 as [L9 C9]; [|rewrite length_app; lia].
      apply ret_ok_inv in H7 as [-> ->].
      rewrite cell_app_l in C9 by lia. rewrite length_app in L9. simpl in L9.
      exists (VList l), (length h6).
      split; [reflexivity|]. split; [lia|]. split; [exact C9 | discriminate].
    - bind_ok H7 emp h8 H8. apply alloc_ok_inv in H8 as [-> ->].
      bind_ok H7 u5 h9 H9.
      apply setitem_cell in H9 as [L9 C9]; [|rewrite length_app; lia].
      apply ret_ok_inv in H7 as [-> ->].
      rewrite cell_app_l in C9 by lia. rewrite length_app in L9. simpl in L9.
      exists (VTuple []), (length h6).
      split; [reflexivity|]. split; [lia|]. split; [exact C9 | reflexivity]. }
  clear H7. destruct Hlg as (lg & lgby & -> & L7 & C7 & Hlg).
  bind_ok H has_top h8 H8. apply has_key_ok_inv in H8 as [-> ->].
  assert (Hhas' : dict_mem (cell h7 opts) (VStr "top_n_per_cat") =
                  pivot_given h o (snd item) "top_n_per_cat").
  { rewrite C7, dict_mem_set_any, C6, dict_mem_set_any, C4, dict_mem_set_any, C3.
    simpl. apply Hm. }
  rewrite Hhas' in H.
  bind_ok H u6 h8 H8.
  assert (Htop : length h7 <= length h8 /\
            (exists topn,
               dict_get (cell h8 opts) (VStr "top_n_per_cat") = Some topn /\
               (pivot_given h o (snd item) "top_n_per_cat" = false ->
                topn = VInt 0)) /\
            forall k, String.eqb "top_n_per_cat" k = false ->
              dict_get (cell h8 opts) (VStr k) = dict_get (cell h7 opts) (VStr k)).
  { destruct (pivot_given h o (snd item) "top_n_per_cat").
    - bind_ok H8 topn h9 H9. apply getitem_ok_inv in H9 as [-> Gtop].
      apply lift_ok_inv in H8 as [-> _].
      split; [lia|]. split; [|auto]. exists topn. split; [exact Gtop | discriminate].
    - apply setitem_cell in H8 as [L8 C8]; [|lia]. rewrite C8.
      split; [lia|]. split.
      + exists (VInt 0). split; [now apply dict_get_set_same | reflexivity].
      + intros k Hk. now apply dict_get_set_other. }
  clear H8. destruct Htop as (L8 & (topn & Gtop & Htop) & K8).
  bind_ok H has_fa h9 H9. apply has_key_ok_inv in H9 as [-> _].
  bind_ok H fa_actual h9 H9.
  assert (Hfa : length h8 <= length h9 /\
            forall k, String.eqb "field_aliases" k = false ->
              dict_get (cell h9 opts) (VStr k) = dict_get (cell h8 opts) (VStr k)).
  { destruct has_fa.
    - apply getitem_ok_inv in H9 as [-> _]. auto.
    - bind_ok H9 emp h10 H10. apply alloc_ok_inv in H10 as [-> ->].
      bind_ok H9 u7 h11 H11.
      apply setitem_cell in H11 as [L11 C11]; [|rewrite length_app; lia].
      apply ret_ok_inv in H9 as [-> _].
      rewrite cell_app_l in C11 by lia. rewrite length_app in L11.
      split; [lia|]. intros k Hk. rewrite C11. now apply dict_get_set_other. }
  clear H9. destruct Hfa as (L9 & K9).
  bind_ok H fa h10 H10.
  apply merge_field_aliases_ok_inv in H10 as (-> & L10 & C10).
  bind_ok H u8 h11 H11. apply setitem_cell in H11 as [L11 C11]; [|lia].
  apply ret_ok_inv in H as [-> ->].
  exists opts, lg, topn. split; [reflexivity|]. split; [|split; [|auto]].
  - rewrite C11, dict_get_set_other, C10, K9, K8, C7 by (auto; lia).
    now apply dict_get_set_same.
  - rewrite C11, dict_get_set_other, C10, K9 by (auto; lia). exact Gtop.
Qed.

(** X25. When [clean_pdps] accepts a term, the record has ['legend_by']
    and ['top_n_per_cat']; if neither the options nor the term give
    ['legend_by'] it is the empty tuple, and if neither gives
    ['top_n_per_cat'] it is [0]. *)
Theorem pdps_term_defaults sch o d item h d' h' :
  o < length h ->
  (forall t, snd item = VDict t -> t < length h) ->
  pdps_term sch o d item h = (Ok d', h') ->
  exists rec lg topn,
    d' = dict_set d (fst item) (VDict rec) /\
    dict_get (cell h' rec) (VStr "legend_by") = Some lg /\
    dict_get (cell h' rec) (VStr "top_n_per_cat") = Some topn /\
    (pivot_given h o (snd item) "legend_by" = false -> lg = VTuple []) /\
    (pivot_given h o (snd item) "top_n_per_cat" = false -> topn = VInt 0).
Proof. apply pdps_term_defaults_inv. Qed.

Lemma pdps_term_defaults_witness :
  let run := pdps_term Sample.models 1 [] (VStr "n", VAggregate 0)
               Sample.pdps_heap in
  exists rec lg topn,
    [(VStr "n", VDict 6)] = dict_set [] (VStr "n") (VDict rec) /\
    dict_get (cell (snd run) rec) (VStr "legend_by") = Some lg /\
    dict_get (cell (snd run) rec) (VStr "top_n_per_cat") = Some topn /\
    (pivot_given Sample.pdps_heap 1 (VAggregate 0) "legend_by" = false ->
     lg = VTuple []) /\
    (pivot_given Sample.pdps_heap 1 (VAggregate 0) "top_n_per_cat" = false ->
     topn = VInt 0).
Proof.
  intros run.
  apply (pdps_term_defaults Sample.models 1 [] (VStr "n", VAggregate 0)
           Sample.pdps_heap [(VStr "n", VDict 6)] (snd run)).
  - simpl. lia.
  - intros t H. discriminate H.
  - vm_compute. reflexivity.
Defined.

(** ** Values of the wrong type *)

Lemma raise_format1_plain {A} pre post v :
  isinstance_tuple v = false ->
  @raise_format1 A pre FmtS post v = Raise (input_error pre v post).
Proof. intros Hv. unfold raise_format1. now rewrite format1_plain. Qed.

(** X26. A term of the wrong type gets an input error, and the heap is
    as it was: in [clean_dps] a term that is neither a string nor a
    dictionary; in [clean_pdps] a value that is neither an aggregate nor a
    dictionary; in [clean_cso] a y-term that is neither a string nor a
    dictionary, and a value of the terms that is not a list (tuples apart,
    but for [clean_dps], whose message is built from [str(term)]). *)
Theorem wrong_term_types sch h :
  (forall o d term,
     isinstance_str term = false -> isinstance_dict term = false ->
     dps_term sch o d term h =
       (Raise (APIInputError
          [Lit "Expecting a basestring or dict in place of: "; FmtS term]), h)) /\
  (forall o d tk tv,
     isinstance_Aggregate tv = false -> isinstance_dict tv = false ->
     isinstance_tuple tv = false ->
     pdps_term sch o d (tk, tv) h =
       (Raise (input_error
          "Expecting a dict or django Aggregate in place of: " tv ""), h)) /\
  (forall o tk d yterm,
     isinstance_str yterm = false -> isinstance_dict yterm = false ->
     isinstance_tuple yterm = false ->
     cso_yterm o tk d yterm h =
       (Raise (input_error
          "Expecting a basestring or dict in place of: " yterm "."), h)) /\
  (forall o d tk td,
     isinstance_list td = false -> isinstance_tuple td = false ->
     cso_term o d (tk, td) h =
       (Raise (input_error "Expecting a list instead of: " td ""), h)).
Proof.
  repeat split.
  - intros o d term Hs Hd. now destruct term.
  - intros o d tk tv Ha Hd Ht. unfold pdps_term, bind. cbn [fst snd].
    rewrite Ha. destruct tv; try discriminate; reflexivity.
  - intros o tk d yterm Hs Hd Ht. destruct yterm; try discriminate; reflexivity.
  - intros o d tk td Hl Ht. destruct td; try discriminate; reflexivity.
Qed.

Lemma wrong_options_type sch h d s options :
  dict_get (cell h s) (VStr "options") = Some options ->
  isinstance_dict options = false -> isinstance_tuple options = false ->
  (dict_mem (cell h s) (VStr "terms") = true ->
   dps_sd sch d (VDict s) h =
     (Raise (input_error "Expecting a dict in place of: " options ""), h) /\
   pdps_sd sch d (VDict s) h =
     (Raise (input_error "Expecting a dict in place of: " options ""), h)) /\
  pcso_stod d (VDict s) h =
    (Raise (input_error "Expecting a dict in place of: " options ""), h) /\
  cso_stod d (VDict s) h =
    (Raise (input_error "Expecting a dict in place of: " options ""), h).
Proof.
  intros Ho Hd Ht.
  pose proof (stod_item_present h s "options" _ Ho) as Hp.
  assert (Hg : py_getitem h (VDict s) (VStr "options") = Ok options)
    by (unfold py_getitem; simpl; now rewrite Ho).
  split; [|split].
  - intros Hterms.
    assert (Hr : require_keys (VDict s) ["options"; "terms"] h = (Ok tt, h)).
    { apply require_keys_present. repeat constructor; [|exact Hterms].
      eapply dict_get_mem, Ho. }
    split.
    + unfold dps_sd, bind. rewrite Hr. unfold reading at 1. rewrite Hg.
      unfold lift. rewrite raise_format1_plain by exact Ht.
      destruct options; try discriminate; reflexivity.
    + unfold pdps_sd, bind. rewrite Hr. unfold reading at 1. rewrite Hg.
      unfold lift. rewrite raise_format1_plain by exact Ht.
      destruct options; try discriminate; reflexivity.
  - unfold pcso_stod, bind. unfold reading at 1. rewrite Hp.
    unfold lift. rewrite raise_format1_plain by exact Ht.
    destruct options; try discriminate; reflexivity.
  - unfold cso_stod, bind. unfold reading at 1. rewrite Hp.
    unfold lift. rewrite raise_format1_plain by exact Ht.
    destruct options; try discriminate; reflexivity.
Qed.

Lemma wrong_terms_type sch h d s o terms :
  dict_get (cell h s) (VStr "options") = Some (VDict o) ->
  dict_get (cell h s) (VStr "terms") = Some terms ->
  isinstance_tuple terms = false ->
  (isinstance_list terms = false ->
   dps_sd sch d (VDict s) h =
     (Raise (input_error "Expecting a list in place of: " terms ""), h) /\
   pcso_stod d (VDict s) h =
     (Raise (input_error "Expecting a list in place of: " terms ""), h)) /\
  (isinstance_dict terms = false ->
   pdps_sd sch d (VDict s) h =
     (Raise (input_error "Expecting a dict in place of: " terms ""), h) /\
   cso_stod d (VDict s) h =
     (Raise (input_error "Expecting a dict in place of: " terms "."), h)).
Proof.
  intros Ho Hterms Ht.
  pose proof (stod_item_present h s "options" _ Ho) as Hp.
  pose proof (stod_item_present h s "terms" _ Hterms) as Hp'.
  assert (Hg : py_getitem h (VDict s) (VStr "options") = Ok (VDict o))
    by (unfold py_getitem; simpl; now rewrite Ho).
  assert (Hg' : py_getitem h (VDict s) (VStr "terms") = Ok terms)
    by (unfold py_getitem; simpl; now rewrite Hterms).
  assert (Hr : require_keys (VDict s) ["options"; "terms"] h = (Ok tt, h)).
  { apply require_keys_present.
    repeat constructor; eapply dict_get_mem; eassumption. }
  split; intros Hty; split.
  - unfold dps_sd, bind. rewrite Hr. unfold reading. rewrite Hg, Hg'.
    unfold lift. rewrite raise_format1_plain by exact Ht.
    destruct terms; try discriminate; reflexivity.
  - unfold pcso_stod, bind, reading. rewrite Hp, Hp'.
    unfold lift. rewrite raise_format1_plain by exact Ht.
    destruct terms; try discriminate; reflexivity.
  - unfold pdps_sd, bind. rewrite Hr. unfold reading at 1 2. rewrite Hg, Hg'.
    unfold lift. rewrite raise_format1_plain by exact Ht.
    destruct terms; try discriminate; reflexivity.
  - unfold cso_stod, bind. unfold reading at 1 2. rewrite Hp, Hp'.
    unfold lift. rewrite raise_format1_plain by exact Ht.
    destruct terms; try discriminate; reflexivity.
Qed.

Lemma wrong_term_types_witness :
  dps_term Sample.models 1 [] (VInt 5) Sample.dps_heap =
    (Raise (APIInputError
       [Lit "Expecting a basestring or dict in place of: "; FmtS (VInt 5)]),
     Sample.dps_heap) /\
  cso_term 1 [] (VStr "x", VStr "y") Sample.dps_heap =
    (Raise (input_error "Expecting a list instead of: " (VStr "y") ""),
     Sample.dps_heap).
Proof.
  destruct (wrong_term_types Sample.models Sample.dps_heap)
    as (H1 & _ & _ & H4).
  split; [now apply H1 | now apply H4].
Defined.

(** X27. ['options'] that is not a dictionary, and ['terms'] that is not
    a list (for [clean_dps] and [clean_pcso]) or not a dictionary (for
    [clean_pdps] and [clean_cso]), get the input error that names the value,
    tuples apart, and the heap is as it was. *)
Theorem wrong_container_types sch h d s :
  (forall options,
     dict_get (cell h s) (VStr "options") = Some options ->
     isinstance_dict options = false -> isinstance_tuple options = false ->
     (dict_mem (cell h s) (VStr "terms") = true ->
      dps_sd sch d (VDict s) h =
        (Raise (input_error "Expecting a dict in place of: " options ""), h) /\
      pdps_sd sch d (VDict s) h =
        (Raise (input_error "Expecting a dict in place of: " options ""), h)) /\
     pcso_stod d (VDict s) h =
       (Raise (input_error "Expecting a dict in place of: " options ""), h) /\
     cso_stod d (VDict s) h =
       (Raise (input_error "Expecting a dict in place of: " options ""), h)) /\
  (forall o terms,
     dict_get (cell h s) (VStr "options") = Some (VDict o) ->
     dict_get (cell h s) (VStr "terms") = Some terms ->
     isinstance_tuple terms = false ->
     (isinstance_list terms = false ->
      dps_sd sch d (VDict s) h =
        (Raise (input_error "Expecting a list in place of: " terms ""), h) /\
      pcso_stod d (VDict s) h =
        (Raise (input_error "Expecting a list in place of: " terms ""), h)) /\
     (isinstance_dict terms = false ->
      pdps_sd sch d (VDict s) h =
        (Raise (input_error "Expecting a dict in place of: " terms ""), h) /\
      cso_stod d (VDict s) h =
        (Raise (input_error "Expecting a dict in place of: " terms "."), h))).
Proof.
  split.
  - intros options. apply wrong_options_type.
  - intros o terms. apply wrong_terms_type.
Qed.

Lemma wrong_container_types_witness :
  dps_sd Sample.models [] (VDict 0) Sample.pdps_heap =
    (Raise (input_error "Expecting a list in place of: " (VDict 2) ""),
     Sample.pdps_heap) /\
  pcso_stod [] (VDict 0) Sample.pdps_heap =
    (Raise (input_error "Expecting a list in place of: " (VDict 2) ""),
     Sample.pdps_heap).
Proof.
  apply (proj1 (proj2 (wrong_container_types Sample.models Sample.pdps_heap []
                         0) 1 (VDict 2) eq_refl eq_refl eq_refl)).
  reflexivity.
Defined.

(** ** What clean_dps does to the dictionaries it is given *)

Lemma touched_refl h0 : touched h0 h0.
Proof. split; [lia|]. intros a _. now left. Qed.

Lemma touched_frame h0 h h' :
  touched h0 h -> frame (length h) h h' -> touched h0 h'.
Proof.
  intros [Hl Hc] (_ & Hl' & Hc'). split; [lia|].
  intros a Ha. rewrite Hc' by lia. now apply Hc.
Qed.

Lemma touching_preserving h0 {A} (m : M A) : preserving m -> touching h0 m.
Proof.
  intros Hm h r h' HT E. eapply touched_frame; [exact HT|].
  eapply preserving_run; eassumption.
Qed.

Lemma touching_bind h0 {A B} (m : M A) (k : A -> M B) :
  touching h0 m -> (forall a, touching h0 (k a)) -> touching h0 (bind m k).
Proof.
  intros Hm Hk h r h' HT E.
  apply bind_inv in E as [(a & h1 & Em & Ek) | (e & Em & _)].
  - eapply Hk; [|exact Ek]. eapply Hm; eassumption.
  - eapply Hm; eassumption.
Qed.

Lemma touching_for_each h0 {A S} (body : S -> A -> M S) l :
  (forall s x, touching h0 (body s x)) ->
  forall s, touching h0 (for_each l body s).
Proof.
  intros Hb. induction l as [|x l IH]; intros s; simpl.
  - apply touching_preserving, preserving_ret.
  - apply touching_bind; [apply Hb | exact IH].
Qed.

Lemma dps_term_frame sch o d term h r h' :
  dps_term sch o d term h = (r, h') ->
  frame (length h) (after_del term h) h'.
Proof.
  intros E. pose proof (dps_term_spec sch o d term h) as H.
  unfold wp in H. rewrite E in H. destruct r; [apply H | exact H].
Qed.

Lemma touching_dps_term h0 sch o d term :
  Forall unique_keys h0 -> touching h0 (dps_term sch o d term).
Proof.
  intros Hu h r h' [Hl Hc] E. apply dps_term_frame in E as (_ & Hl' & Hc').
  rewrite after_del_length in Hl'. split; [lia|].
  intros a Ha. rewrite Hc' by lia.
  destruct term; simpl; try apply Hc, Ha.
  destruct (dict_mem (cell h a0) new_name) eqn:Hm; [|apply Hc, Ha].
  destruct (decide (a0 = a)) as [-> | Hne].
  - rewrite cell_insert_eq by lia.
    destruct (Hc a Ha) as [Heq | [Heq _]].
    + right. rewrite <- Heq. auto.
    + exfalso. rewrite Heq in Hm. unfold dict_mem, new_name in Hm.
      rewrite dict_get_del_same in Hm; [discriminate|].
      now apply cell_unique_keys.
  - rewrite cell_insert_ne by exact Hne. apply Hc, Ha.
Qed.

Lemma touching_clean_dps h0 sch series :
  Forall unique_keys h0 -> touching h0 (clean_dps sch series).
Proof.
  intros Hu. unfold clean_dps.
  apply touching_bind; [apply touching_preserving, preserving_reading|].
  intros nonempty. destruct (negb nonempty);
    [apply touching_preserving, preserving_raise|].
  destruct series; try apply touching_preserving, preserving_lift.
  unfold _convert_dps_to_dict. apply touching_bind.
  - apply touching_for_each. intros d sd. unfold dps_sd.
    apply touching_bind;
      [apply touching_preserving, preserving_require_keys|]. intros _.
    apply touching_bind; [apply touching_preserving, preserving_reading|].
    intros options.
    destruct options; try apply touching_preserving, preserving_lift.
    apply touching_bind; [apply touching_preserving, preserving_reading|].
    intros terms.
    destruct terms as [| | | | |term_list| | | | |];
      try apply touching_preserving, preserving_lift.
    destruct term_list; [apply touching_preserving, preserving_raise|].
    apply touching_for_each. intros d' term. now apply touching_dps_term.
  - intros d. apply touching_bind; [apply touching_preserving, preserving_alloc|].
    intros r. apply touching_preserving, preserving_ret.
Qed.

(** X28. Whatever [clean_dps] returns, a result or an error, the heap has
    only grown, and a dictionary of the caller is as it was or has lost the
    key ['_new_name'], which it had: the only write to the input is the
    [del] of that key from a term given as a dictionary. *)
Theorem clean_dps_touches_terms_only sch series h0 r h' :
  Forall unique_keys h0 ->
  clean_dps sch series h0 = (r, h') ->
  length h0 <= length h' /\
  forall a, a < length h0 ->
    cell h' a = cell h0 a \/
    (cell h' a = dict_del (cell h0 a) new_name /\
     dict_mem (cell h0 a) new_name = true).
Proof.
  intros Hu E. eapply (touching_clean_dps h0 sch series Hu); [|exact E].
  apply touched_refl.
Qed.

Lemma clean_dps_touches_terms_only_witness :
  let h' := snd (clean_dps Sample.models (VList [VDict 0]) Sample.unnamed_heap) in
  length Sample.unnamed_heap <= length h' /\
  forall a, a < length Sample.unnamed_heap ->
    cell h' a = cell Sample.unnamed_heap a \/
    (cell h' a = dict_del (cell Sample.unnamed_heap a) new_name /\
     dict_mem (cell Sample.unnamed_heap a) new_name = true).
Proof.
  intros h'.
  apply (clean_dps_touches_terms_only Sample.models (VList [VDict 0])
           Sample.unnamed_heap
           (fst (clean_dps Sample.models (VList [VDict 0]) Sample.unnamed_heap))).
  - repeat constructor; simpl; auto.
  - apply surjective_pairing.
Defined.

(** ** Aliases of a pivot record *)

Lemma merge_field_aliases_mem fa_actual c l h fa h' :
  c < length h ->
  _merge_field_aliases fa_actual (VDict c) (VDict l) h = (Ok fa, h') ->
  fa = VDict (length h) /\ length h < length h' /\
  (forall a, a < length h -> cell h' a = cell h a) /\
  forall k, dict_mem (cell h c) k = true \/ dict_mem (cell h l) k = true ->
            dict_mem (cell h' (length h)) k = true.
Proof.
  intros Hc H.
  destruct (merge_field_aliases_ok_inv _ _ _ _ _ _ H) as (Hfa & Hl & Hkeep).
  split; [exact Hfa|]. split; [exact Hl|]. split; [exact Hkeep|].
  unfold _merge_field_aliases, py_copy, copy_dict in H.
  bind_ok H fa0 h1 H1. bind_ok H1 b h2 H2. apply ret_ok_inv in H1 as [-> ->].
  apply alloc_ok_inv in H2 as [-> ->].
  bind_ok H u h3 H3. bind_ok H u' h4 H4. apply ret_ok_inv in H as [-> _].
  unfold py_update_method in H3, H4. cbv beta iota in H3, H4.
  apply py_update_ok_inv in H3 as (d2 & Hd2 & ->).
  apply py_update_ok_inv in H4 as (d3 & _ & ->).
  unfold update_pairs in Hd2. injection Hd2 as <-.
  intros k Hk.
  rewrite cell_insert_eq by (rewrite length_insert, length_app; simpl; lia).
  rewrite cell_insert_eq by (rewrite length_app; simpl; lia).
  rewrite cell_alloc, (cell_app_l h _ c) by exact Hc.
  rewrite !dict_mem_update.
  destruct Hk as [-> | ->]; [now rewrite orb_true_r | reflexivity].
Qed.

Lemma aliases_of_mem sch source l d k :
  aliases_of sch source l d -> k ∈ l -> dict_mem d k = true.
Proof.
  intros (_ & H & _) Hk. destruct (H k Hk) as (v & _ & Hg).
  unfold dict_mem. now rewrite Hg.
Qed.

Lemma setitem_others a k v h u h' :
  setitem a k v h = (Ok u, h') ->
  forall b, b <> a -> cell h' b = cell h b.
Proof.
  intros H b Hb. apply setitem_ok_inv in H as ->.
  apply cell_insert_ne. congruence.
Qed.

Lemma pdps_term_aliased sch o d item h d' h' :
  pdps_term sch o d item h = (Ok d', h') ->
  exists rec,
    d' = dict_set d (fst item) (VDict rec) /\ rec < length h' /\
    aliased_record h' (cell h' rec).
Proof.
  unfold pdps_term. cbv zeta. intros H.
  bind_ok H tv h1 H1. clear H1. bind_ok H opts h2 H2.
  apply deepcopy_dict_ok_inv in H2 as [-> ->].
  set (opts := o + length h1) in *.
  bind_ok H u h3 H3. apply py_update_ok_inv in H3 as (d2 & _ & ->).
  bind_ok H u1 h3 H3. apply require_keys_heap in H3 as ->.
  bind_ok H source h3 H3. apply getitem_ok_inv in H3 as [-> G3].
  match type of G3 with dict_get (cell ?hh _) _ = _ => set (h3 := hh) in * end.
  assert (V3 : opts < length h3).
  { apply cell_nonempty_valid. intros Hc. now rewrite Hc in G3. }
  bind_ok H src h4 H4. apply lift_ok_inv in H4 as [-> _].
  bind_ok H u2 h4 H4. apply setitem_cell in H4 as [L4 C4]; [|exact V3].
  bind_ok H func h5 H5. apply getitem_ok_inv in H5 as [-> _].
  bind_ok H u3 h5 H5. apply lift_ok_inv in H5 as [-> _].
  bind_ok H categories h5 H5. apply getitem_ok_inv in H5 as [-> _].
  bind_ok H source2 h5 H5. apply getitem_ok_inv in H5 as [-> _].
  bind_ok H cat h5 H5. destruct cat as [cats fa_cat].
  apply clean_categories_ok_inv in H5 as (_ & _ & -> & dc & -> & Hal).
  cbn [fst snd] in H.
  bind_ok H u4 h6 H6. pose proof (setitem_others _ _ _ _ _ _ H6) as O6.
  apply setitem_cell in H6 as [L6 C6]; [|rewrite length_app; lia].
  rewrite cell_app_l in C6 by lia.
  rewrite length_app in L6. simpl in L6.
  assert (Dc : cell h6 (length h4) = dc).
  { rewrite O6 by lia. apply cell_alloc. }
  bind_ok H has_lg h7 H7. apply has_key_ok_inv in H7 as [-> _].
  bind_ok H fa_lgby h7 H7.
  assert (Hlg : exists lg lgby,
            fa_lgby = VDict lgby /\ length h6 <= length h7 /\
            length h6 <= lgby < length h7 /\
            cell h7 opts = dict_set (cell h6 opts) (VStr "legend_by") lg /\
            cell h7 (length h4) = dc /\
            forall k, k ∈ elems lg -> dict_mem (cell h7 lgby) k = true).
  { destruct has_lg.
    - bind_ok H7 legend_by h8 H8. apply getitem_ok_inv in H8 as [-> _].
      bind_ok H7 source3 h8 H8. apply getitem_ok_inv in H8 as [-> _].
      bind_ok H7 lg h8 H8. destruct lg as [lg fa_lg].
      apply validate_legend_by_ok_inv in H8 as (l & dl & -> & -> & -> & Hl).
      cbn [fst snd] in H7.
      bind_ok H7 u5 h9 H9. pose proof (setitem_others _ _ _ _ _ _ H9) as O9.
      apply setitem_cell in H9 as [L9 C9]; [|rewrite length_app; lia].
      apply ret_ok_inv in H7 as [-> ->].
      rewrite cell_app_l in C9 by lia. rewrite length_app in L9. simpl in L9.
      exists (VList l), (length h6).
      split; [reflexivity|]. split; [lia|]. split; [lia|].
      split; [exact C9|]. split.
      + rewrite O9 by lia. rewrite cell_app_l by lia. exact Dc.
      + intros k Hk. rewrite O9 by lia. rewrite cell_alloc.
        eapply aliases_of_mem; eassumption.
    - bind_ok H7 emp h8 H8. apply alloc_ok_inv in H8 as [-> ->].
      bind_ok H7 u5 h9 H9. pose proof (setitem_others _ _ _ _ _ _ H9) as O9.
      apply setitem_cell in H9 as [L9 C9]; [|rewrite length_app; lia].
      apply ret_ok_inv in H7 as [-> ->].
      rewrite cell_app_l in C9 by lia. rewrite length_app in L9. simpl in L9.
      exists (VTuple []), (length h6).
      split; [reflexivity|]. split; [lia|]. split; [lia|].
      split; [exact C9|]. split.
      + rewrite O9 by lia. rewrite cell_app_l by lia. exact Dc.
      + intros k Hk. inversion Hk. }
  clear H7. destruct Hlg as (lg & lgby & -> & L7 & Vl & C7 & Dc7 & Dl7).
  bind_ok H has_top h8 H8. apply has_key_ok_inv in H8 as [-> _].
  bind_ok H u6 h8 H8.
  assert (Htop : length h7 <= length h8 /\
            (forall b, b < length h7 -> b <> opts -> cell h8 b = cell h7 b) /\
            forall k, String.eqb "top_n_per_cat" k = false ->
              dict_get (cell h8 opts) (VStr k) = dict_get (cell h7 opts) (VStr k)).
  { destruct has_top.
    - bind_ok H8 topn h9 H9. apply getitem_ok_inv in H9 as [-> _].
      apply lift_ok_inv in H8 as [-> _]. auto.
    - pose proof (setitem_others _ _ _ _ _ _ H8) as O8.
      apply setitem_cell in H8 as [L8 C8]; [|lia]. rewrite C8.
      split; [lia|]. split; [auto|].
      intros k Hk. now apply dict_get_set_other. }
  clear H8. destruct Htop as (L8 & O8 & K8).
  bind_ok H has_fa h9 H9. apply has_key_ok_inv in H9 as [-> _].
  bind_ok H fa_actual h9 H9.
  assert (Hfa : length h8 <= length h9 /\
            (forall b, b < length h8 -> b <> opts -> cell h9 b = cell h8 b) /\
            forall k, String.eqb "field_aliases" k = false ->
              dict_get (cell h9 opts) (VStr k) = dict_get (cell h8 opts) (VStr k)).
  { destruct has_fa.
    - apply getitem_ok_inv in H9 as [-> _]. auto.
    - bind_ok H9 emp h10 H10. apply alloc_ok_inv in H10 as [-> ->].
      bind_ok H9 u7 h11 H11.
      pose proof (setitem_others _ _ _ _ _ _ H11) as O11.
      apply setitem_cell in H11 as [L11 C11]; [|rewrite length_app; lia].
      apply ret_ok_inv in H9 as [-> _].
      rewrite cell_app_l in C11 by lia. rewrite length_app in L11.
      split; [lia|]. split.
      + intros b Hb Hne. rewrite O11 by exact Hne. now apply cell_app_l.
      + intros k Hk. rewrite C11. now apply dict_get_set_other. }
  clear H9. destruct Hfa as (L9 & O9 & K9).
  bind_ok H fa h10 H10.
  assert (Hc9 : cell h9 (length h4) = dc)
    by (rewrite O9, O8 by lia; exact Dc7).
  assert (Hl9 : cell h9 lgby = cell h7 lgby)
    by (rewrite O9, O8 by lia; reflexivity).
  apply merge_field_aliases_mem in H10 as (-> & L10 & C10 & M10); [|lia].
  bind_ok H u8 h11 H11. pose proof (setitem_others _ _ _ _ _ _ H11) as O11.
  apply setitem_cell in H11 as [L11 C11]; [|lia].
  apply ret_ok_inv in H as [-> ->].
  exists opts. split; [reflexivity|]. split; [lia|].
  exists cats, lg, (length h9).
  split; [|split; [|split; [|split]]].
  - rewrite C11, dict_get_set_other, C10, K9, K8, C7, dict_get_set_other, C6
      by (auto; lia).
    now apply dict_get_set_same.
  - rewrite C11, dict_get_set_other, C10, K9, K8, C7 by (auto; lia).
    now apply dict_get_set_same.
  - rewrite C11. now apply dict_get_set_same.
  - lia.
  - intros k Hk. rewrite O11 by lia. apply M10. rewrite Hc9, Hl9.
    apply elem_of_app in Hk as [Hk | Hk].
    + left. eapply aliases_of_mem; eassumption.
    + right. now apply Dl7.
Qed.

Lemma aliased_record_frame h h' rec :
  frame (length h) h h' -> rec < length h ->
  aliased_record h (cell h rec) -> aliased_record h' (cell h' rec).
Proof.
  intros (_ & Hl & Hc) Hrec (cats & lg & fa & H1 & H2 & H3 & Hfa & H4).
  exists cats, lg, fa. rewrite !Hc by lia. repeat split; auto. lia.
Qed.

Lemma convert_pdps_aliased sch l h r h' :
  _convert_pdps_to_dict sch l h = (Ok r, h') ->
  exists a, r = VDict a /\
    forall kv, kv ∈ cell h' a ->
      exists rec, snd kv = VDict rec /\ rec < length h' /\
                  aliased_record h' (cell h' rec).
Proof.
  unfold _convert_pdps_to_dict. intros H.
  bind_ok H d h1 H1. bind_ok H a h2 H2. apply ret_ok_inv in H as [-> ->].
  apply alloc_ok_inv in H2 as [-> ->].
  exists (length h1). split; [reflexivity|]. rewrite cell_alloc.
  set (J := fun (d : dict) (h : heap) =>
              forall kv, kv ∈ d ->
                exists rec, snd kv = VDict rec /\ rec < length h /\
                            aliased_record h (cell h rec)).
  assert (Hstep : forall o d item h d' h',
            J d h -> pdps_term sch o d item h = (Ok d', h') -> J d' h').
  { intros o d0 item h0 d' h' Hd Ht.
    assert (F : frame (length h0) h0 h')
      by (eapply preserving_run, Ht; apply preserving_pdps_term).
    apply pdps_term_aliased in Ht as (rec & -> & Hlt & HP).
    intros kv Hkv. apply elem_of_dict_set in Hkv as [Hkv | Hkv].
    - destruct (Hd kv Hkv) as (r0 & Hv & Hr0 & HP0). exists r0.
      split; [exact Hv|]. split; [apply frame_length in F; lia|].
      now apply (aliased_record_frame h0).
    - exists rec. auto. }
  assert (HJ : J d h1).
  { revert H1. apply (for_each_invariant J).
    - intros d1 sd h2 d2 h3 _ Hd1 Hsd.
      apply pdps_sd_ok_inv in Hsd as (s & o & tm & _ & _ & _ & Hsd).
      revert Hsd. apply (for_each_invariant J); [|exact Hd1].
      intros d3 item h4 d4 h5 _. apply Hstep.
    - intros kv Hkv. inversion Hkv. }
  intros kv Hkv. destruct (HJ kv Hkv) as (rec & Hv & Hlt & HP).
  exists rec. split; [exact Hv|]. split; [rewrite length_app; lia|].
  apply (aliased_record_frame h1); [apply frame_app, frame_self | exact Hlt|].
  exact HP.
Qed.

(** X29. In the result of [clean_pdps] every record has ['categories'],
    ['legend_by'] and ['field_aliases'], and ['field_aliases'] has an alias
    for each category and for each field of ['legend_by']. *)
Theorem clean_pdps_aliases sch series h r h' :
  clean_pdps sch series h = (Ok r, h') ->
  exists a, r = VDict a /\
    forall kv, kv ∈ cell h' a ->
      exists rec cats lg fa,
        snd kv = VDict rec /\
        dict_get (cell h' rec) (VStr "categories") = Some cats /\
        dict_get (cell h' rec) (VStr "legend_by") = Some lg /\
        dict_get (cell h' rec) (VStr "field_aliases") = Some (VDict fa) /\
        forall k, k ∈ elems cats ++ elems lg ->
                  dict_mem (cell h' fa) k = true.
Proof.
  unfold clean_pdps. intros H. bind_ok H nonempty h1 H1.
  apply reading_ok_inv in H1 as [-> _].
  destruct (negb nonempty); [discriminate|].
  destruct series;
    try (apply lift_ok_inv in H as [_ H]; now apply raise_format1_not_ok in H).
  apply convert_pdps_aliased in H as (a & -> & Ha).
  exists a. split; [reflexivity|]. intros kv Hkv.
  destruct (Ha kv Hkv) as (rec & Hv & _ & cats & lg & fa & H1 & H2 & H3 & _ & H4).
  exists rec, cats, lg, fa. auto.
Qed.

Lemma clean_pdps_aliases_witness :
  let run := clean_pdps Sample.models Sample.pdps_series Sample.pdps_heap in
  exists a, fst run = Ok (VDict a) /\
    forall kv, kv ∈ cell (snd run) a ->
      exists rec cats lg fa,
        snd kv = VDict rec /\
        dict_get (cell (snd run) rec) (VStr "categories") = Some cats /\
        dict_get (cell (snd run) rec) (VStr "legend_by") = Some lg /\
        dict_get (cell (snd run) rec) (VStr "field_aliases") = Some (VDict fa) /\
        forall k, k ∈ elems cats ++ elems lg ->
                  dict_mem (cell (snd run) fa) k = true.
Proof.
  intros run.
  destruct (clean_pdps_aliases Sample.models Sample.pdps_series Sample.pdps_heap
              (VDict 32) (snd run)) as (a & Ha & H).
  - vm_compute. reflexivity.
  - exists a. split; [|exact H]. rewrite <- Ha. vm_compute. reflexivity.
Defined.

(** ** The first entry of a y-term *)

Lemma cso_yterm_dict_value_run o tk d y h k b rest :
  o < length h -> y < length h -> b < length h ->
  cell h y = (k, VDict b) :: rest ->
  cso_yterm o tk d (VDict y) h =
    (Ok (dict_set d k (VDict (o + length h))),
     <[o + length h :=
         dict_set (dict_update (shift_dict (length h) (cell h o)) (cell h b))
           (VStr "_x_axis_term") tk]>
       (h ++ map (shift_dict (length h)) h)).
Proof.
  intros Ho Hy Hb Hc.
  rewrite (cso_yterm_dict_run o tk d y h k (VDict b) rest Hy Hc).
  assert (L1 : length (h ++ map (shift_dict (length h)) h) =
               length h + length h)
    by (now rewrite length_app, length_map).
  unfold bind, deepcopy_dict, deepcopy, py_update, update_pairs, setitem,
    py_setitem, ret. cbn [fst snd hashable].
  rewrite (cell_app_l h _ b) by exact Hb.
  rewrite cell_insert_eq by lia.
  rewrite list_insert_insert_eq. now rewrite cell_copy.
Qed.

Lemma cso_yterm_not_iterable o tk d y h k v rest :
  y < length h ->
  cell h y = (k, v) :: rest ->
  isinstance_dict v = false ->
  py_iter h v = None ->
  cso_yterm o tk d (VDict y) h =
    (Raise (TypeError "object is not iterable"),
     h ++ map (shift_dict (length h)) h).
Proof.
  intros Hy Hc Hd Hi. rewrite (cso_yterm_dict_run o tk d y h k v rest Hy Hc).
  unfold bind, deepcopy_dict, deepcopy, py_update, update_pairs.
  cbn [fst snd]. destruct v; try discriminate; reflexivity.
Qed.

Lemma cso_yterm_two_characters o tk d y h k c1 c2 rest :
  o < length h -> y < length h ->
  cell h y = (k, VList [VStr (String c1 (String c2 EmptyString))]) :: rest ->
  exists h',
    cso_yterm o tk d (VDict y) h =
      (Ok (dict_set d k (VDict (o + length h))), h') /\
    dict_get (cell h' (o + length h)) (VStr (String c1 EmptyString)) =
      Some (VStr (String c2 EmptyString)).
Proof.
  intros Ho Hy Hc. eexists. split.
  - rewrite (cso_yterm_dict_run o tk d y h k _ rest Hy Hc).
    unfold bind, deepcopy_dict, deepcopy, py_update, update_pairs, setitem,
      py_setitem, ret. cbn. reflexivity.
  - rewrite list_insert_insert_eq.
    rewrite cell_insert_eq by (rewrite length_app, length_map; lia).
    rewrite dict_get_set_other.
    + rewrite cell_insert_eq by (rewrite length_app, length_map; lia).
      now apply dict_get_set_same.
    + cbn [key_eqb String.eqb]. now destruct (Ascii.eqb "_" c1).
Qed.

(** X18. A y-term that is a dictionary counts for its first entry only.
    An empty dictionary raises [IndexError], once the options are copied.
    When the value of the first entry is a dictionary, the record is stored
    under the key of that entry, and in it ['_x_axis_term'] is the x term,
    any other key has the value the entry gives it, else the value of the
    copied options; the other entries of the y-term are not looked at.
    When the value is no dictionary and cannot be iterated over, the update
    raises [TypeError], not an input error.  A value that is iterable is
    taken as a sequence of pairs, and any iterable of two elements is a
    pair: for the list of one string of two characters, the record has the
    first character as a key, with the second as its value. *)
Theorem cso_yterm_first_entry o tk d y h :
  o < length h -> y < length h ->
  (cell h y = [] ->
   cso_yterm o tk d (VDict y) h =
     (Raise (IndexError "list index out of range"),
      h ++ map (shift_dict (length h)) h)) /\
  (forall k b rest,
     cell h y = (k, VDict b) :: rest ->
     b < length h ->
     unique_keys (cell h b) ->
     exists h',
       cso_yterm o tk d (VDict y) h =
         (Ok (dict_set d k (VDict (o + length h))), h') /\
       forall j,
         dict_get (cell h' (o + length h)) j =
         if key_eqb (VStr "_x_axis_term") j then Some tk
         else match dict_get (cell h b) j with
              | Some v => Some v
              | None => dict_get (shift_dict (length h) (cell h o)) j
              end) /\
  (forall k v rest,
     cell h y = (k, v) :: rest ->
     isinstance_dict v = false ->
     py_iter h v = None ->
     cso_yterm o tk d (VDict y) h =
       (Raise (TypeError "object is not iterable"),
        h ++ map (shift_dict (length h)) h)) /\
  (forall k c1 c2 rest,
     cell h y = (k, VList [VStr (String c1 (String c2 EmptyString))]) :: rest ->
     exists h',
       cso_yterm o tk d (VDict y) h =
         (Ok (dict_set d k (VDict (o + length h))), h') /\
       dict_get (cell h' (o + length h)) (VStr (String c1 EmptyString)) =
         Some (VStr (String c2 EmptyString))).
Proof.
  intros Ho Hy. split; [|split; [|split]].
  - now apply cso_yterm_dict_empty.
  - intros k b rest Hc Hb Hu. eexists.
    split; [exact (cso_yterm_dict_value_run o tk d y h k b rest Ho Hy Hb Hc)|].
    intros j. rewrite cell_insert_eq by (rewrite length_app, length_map; lia).
    destruct (key_eqb (VStr "_x_axis_term") j) eqn:Hj.
    + now apply dict_get_set_eqb.
    + rewrite dict_get_set_other by exact Hj. now apply dict_get_update.
  - intros k v rest. now apply cso_yterm_not_iterable.
  - intros k c1 c2 rest. now apply cso_yterm_two_characters.
Qed.

Lemma cso_yterm_first_entry_witness :
  exists h',
    cso_yterm 1 (VStr "x") [] (VDict 3) Examples.cso_list_heap =
      (Ok [(VStr "x", VDict 6)], h') /\
    forall j,
      dict_get (cell h' 6) j =
      if key_eqb (VStr "_x_axis_term") j then Some (VStr "x")
      else match dict_get (cell Examples.cso_list_heap 4) j with
           | Some v => Some v
           | None => dict_get (shift_dict 5 (cell Examples.cso_list_heap 1)) j
           end.
Proof.
  apply (proj1 (proj2 (cso_yterm_first_entry 1 (VStr "x") [] 3
                         Examples.cso_list_heap
                         ltac:(simpl; lia) ltac:(simpl; lia)))
           (VStr "x") 4 []).
  - reflexivity.
  - simpl. lia.
  - simpl. auto.
Defined.

(** ** The record of the last entry that resolves to a name *)





Lemma dict_update_nil d : dict_update d [] = d.
Proof. reflexivity. Qed.














